(** * Put-credit-spread reconstruction of the Schwab client

    A shallow embedding of [SchwabClient.getPutCreditSpreads]
    (src/schwabClient.ts) and of the JavaScript primitives it relies on:
    IEEE-754 binary64 numbers, strings of code units, the two regular
    expressions that decode an option symbol, and the insertion-ordered
    [Map] that groups positions by expiry code.  The HTTP fetch that
    precedes the reconstruction is outside the model: the account list it
    returns is the input of the embedded function. *)

From Stdlib Require Import ZArith List String Ascii Bool Lia Arith.
From Stdlib Require Import Floats.SpecFloat.
From Stdlib Require Import Sorting.Permutation.
Import ListNotations.

Local Open Scope list_scope.

(* ===================================================================== *)
(** ** JavaScript numbers *)
(* ===================================================================== *)

(** A JavaScript [number] is an IEEE-754 binary64 value.  It is modelled by
    the Standard Library's executable specification of binary floating
    point, instantiated at 53 bits of precision and maximal exponent
    1024, with round-to-nearest-even. *)
Module Num.

Definition prec : Z := 53.
Definition emax : Z := 1024.

Definition number : Type := spec_float.

Definition NaN : number := S754_nan.

(** The number nearest to the integer [z]. *)
Definition ofZ (z : Z) : number := binary_normalize prec emax z 0 false.

Definition add : number -> number -> number := SFadd prec emax.
Definition sub : number -> number -> number := SFsub prec emax.
Definition div : number -> number -> number := SFdiv prec emax.

(** [x < y], [x <= y], [x > y] and [x >= y]; each is [false] as soon as
    one operand is [NaN]. *)
Definition ltb (x y : number) : bool := SFltb x y.
Definition leb (x y : number) : bool := SFleb x y.
Definition gtb (x y : number) : bool := SFltb y x.
Definition geb (x y : number) : bool := SFleb y x.

Definition isNegZero (x : number) : bool :=
  match x with S754_zero true => true | _ => false end.

(** [Math.min(x, y)]: [NaN] when an argument is [NaN]; [-0] counts as
    smaller than [+0]. *)
Definition min (x y : number) : number :=
  match SFcompare x y with
  | None => NaN
  | Some Lt => x
  | Some Gt => y
  | Some Eq => if isNegZero y then y else x
  end.

(** The decimal literal [m / 10^k], for [m] and [10^k] that are exactly
    representable: one correctly rounded division. *)
Definition dec (m : Z) (k : Z) : number := div (ofZ m) (ofZ (10 ^ k)).

End Num.

Abbreviation number := Num.number.

(* ===================================================================== *)
(** ** JavaScript strings and character classes *)
(* ===================================================================== *)

(** A string is a sequence of code units; the model covers the code units
    below 256. *)
Module Chars.

Definition code (c : ascii) : nat := nat_of_ascii c.

(** [\d] *)
Definition isDigit (c : ascii) : bool :=
  (48 <=? code c) && (code c <=? 57).

(** [\w] is [[A-Za-z0-9_]] *)
Definition isWord (c : ascii) : bool :=
  isDigit c
  || ((65 <=? code c) && (code c <=? 90))
  || ((97 <=? code c) && (code c <=? 122))
  || (code c =? 95).

(** [\s]: tab, line feed, vertical tab, form feed, carriage return,
    space and no-break space (the white space below 256). *)
Definition isSpace (c : ascii) : bool :=
  ((9 <=? code c) && (code c <=? 13)) || (code c =? 32) || (code c =? 160).

Definition isP (c : ascii) : bool := Ascii.eqb c "P".

(** [[PC]] *)
Definition isPC (c : ascii) : bool := Ascii.eqb c "P" || Ascii.eqb c "C".

Definition digitValue (c : ascii) : Z := (Z.of_nat (code c) - 48)%Z.

End Chars.

(* ===================================================================== *)
(** ** Backtracking regular-expression matching *)
(* ===================================================================== *)

(** A matcher maps the remaining input to the list of its successes, in
    the order in which a backtracking engine tries them: each success is a
    result and the input left after it.  The first success of the whole
    pattern is the match that [RegExp.prototype.exec] reports. *)
Module Re.

Definition Matcher (A : Type) : Type := list ascii -> list (A * list ascii).

Definition ret {A} (a : A) : Matcher A := fun s => [(a, s)].

Definition bind {A B} (m : Matcher A) (k : A -> Matcher B) : Matcher B :=
  fun s => flat_map (fun '(a, r) => k a r) (m s).

(** One character of a class. *)
Definition cls (f : ascii -> bool) : Matcher ascii :=
  fun s => match s with
           | c :: r => if f c then [(c, r)] else []
           | [] => []
           end.

(** [f*], greedy: the longest run is tried first, then shorter ones. *)
Fixpoint star (f : ascii -> bool) (s : list ascii)
  : list (list ascii * list ascii) :=
  match s with
  | c :: r =>
      if f c
      then map (fun '(a, r') => (c :: a, r')) (star f r) ++ [([], s)]
      else [([], s)]
  | [] => [([], [])]
  end.

(** [f+] *)
Definition plus (f : ascii -> bool) : Matcher (list ascii) :=
  bind (cls f) (fun c => bind (star f) (fun cs => ret (c :: cs))).

(** [f{n}] *)
Fixpoint rep (n : nat) (f : ascii -> bool) : Matcher (list ascii) :=
  match n with
  | O => ret []
  | S n' => bind (cls f) (fun c => bind (rep n' f) (fun cs => ret (c :: cs)))
  end.

(** [$] without the multiline flag: only at the end of the input. *)
Definition eos : Matcher unit :=
  fun s => match s with [] => [(tt, [])] | _ => [] end.

(** First success of [m] at the start of the input (a pattern that
    begins with [^]). *)
Definition matchAtStart {A} (m : Matcher A) (s : list ascii) : option A :=
  match m s with
  | (a, _) :: _ => Some a
  | [] => None
  end.

(** First success of [m] at the leftmost position where it has one (a
    pattern without [^]); the empty suffix is tried last. *)
Fixpoint search {A} (m : Matcher A) (s : list ascii) : option A :=
  match m s with
  | (a, _) :: _ => Some a
  | [] => match s with
          | [] => None
          | _ :: r => search m r
          end
  end.

End Re.

(** The capture groups of [/^(\w+)\s*(\d{6})([PC])(\d+)$/]. *)
Record SymbolMatch : Type := mkSymbolMatch {
  sm_underlying : string;   (* match[1] *)
  sm_expiry : string;       (* match[2] *)
  sm_putCall : string;      (* match[3] *)
  sm_strike : string        (* match[4] *)
}.

(** The capture groups of [/(\d{6})P(\d+)$/]. *)
Record PutMatch : Type := mkPutMatch {
  pm_expiry : string;       (* match[1] *)
  pm_strike : string        (* match[2] *)
}.

Definition str (l : list ascii) : string := string_of_list_ascii l.
Definition chars (s : string) : list ascii := list_ascii_of_string s.

(** [/^(\w+)\s*(\d{6})([PC])(\d+)$/] *)
Definition symbolPattern : Re.Matcher SymbolMatch :=
  Re.bind (Re.plus Chars.isWord) (fun g1 =>
  Re.bind (Re.star Chars.isSpace) (fun _ =>
  Re.bind (Re.rep 6 Chars.isDigit) (fun g2 =>
  Re.bind (Re.cls Chars.isPC) (fun g3 =>
  Re.bind (Re.plus Chars.isDigit) (fun g4 =>
  Re.bind Re.eos (fun _ =>
  Re.ret (mkSymbolMatch (str g1) (str g2) (str [g3]) (str g4)))))))).

(** [/(\d{6})P(\d+)$/] *)
Definition putPattern : Re.Matcher PutMatch :=
  Re.bind (Re.rep 6 Chars.isDigit) (fun g1 =>
  Re.bind (Re.cls Chars.isP) (fun _ =>
  Re.bind (Re.plus Chars.isDigit) (fun g2 =>
  Re.bind Re.eos (fun _ =>
  Re.ret (mkPutMatch (str g1) (str g2)))))).

(** [/^(\w+)\s*(\d{6})([PC])(\d+)$/.exec(s)]; [None] is JavaScript's
    [null]. *)
Definition execSymbol (s : string) : option SymbolMatch :=
  Re.matchAtStart symbolPattern (chars s).

(** [/(\d{6})P(\d+)$/.exec(s)] *)
Definition execPut (s : string) : option PutMatch :=
  Re.search putPattern (chars s).

(** [s.includes("P")] *)
Definition includesP (s : string) : bool := existsb Chars.isP (chars s).

(** [s.slice(i, j)] for [0 <= i <= j]. *)
Definition slice (s : string) (i j : nat) : string := substring i (j - i) s.

(* ===================================================================== *)
(** ** [parseInt] *)
(* ===================================================================== *)

(** [parseInt(s)] with no radix: leading white space and one sign are
    skipped, a [0x] prefix selects radix 16, and the longest run of digits
    of the radix is read; the result is [NaN] when that run is empty.  The
    integer read is rounded to the nearest number (ties to even); past 20
    significant digits ECMAScript leaves the approximation to the
    implementation, and the model keeps the correctly rounded value. *)
Module ParseInt.

Definition hexValue (c : ascii) : option Z :=
  let n := Chars.code c in
  if (48 <=? n) && (n <=? 57) then Some (Z.of_nat n - 48)%Z
  else if (65 <=? n) && (n <=? 70) then Some (Z.of_nat n - 55)%Z
  else if (97 <=? n) && (n <=? 102) then Some (Z.of_nat n - 87)%Z
  else None.

Definition decValue (c : ascii) : option Z :=
  if Chars.isDigit c then Some (Chars.digitValue c) else None.

Fixpoint skipSpace (s : list ascii) : list ascii :=
  match s with
  | c :: r => if Chars.isSpace c then skipSpace r else s
  | [] => []
  end.

(** Reads the longest prefix of digits; [None] when it is empty. *)
Fixpoint digits (value : ascii -> option Z) (radix : Z) (acc : option Z)
         (s : list ascii) : option Z :=
  match s with
  | c :: r =>
      match value c with
      | Some d =>
          digits value radix
                 (Some (match acc with Some a => a * radix + d | None => d end)%Z) r
      | None => acc
      end
  | [] => acc
  end.

Definition magnitude (s : list ascii) : option Z :=
  match s with
  | "0"%char :: "x"%char :: r | "0"%char :: "X"%char :: r =>
      digits hexValue 16 None r
  | _ => digits decValue 10 None s
  end.

Definition parseInt (s : string) : number :=
  let s1 := skipSpace (chars s) in
  let '(neg, s2) :=
    match s1 with
    | "-"%char :: r => (true, r)
    | "+"%char :: r => (false, r)
    | _ => (false, s1)
    end in
  match magnitude s2 with
  | None => Num.NaN
  | Some 0%Z => S754_zero neg
  | Some z => Num.ofZ (if neg then - z else z)
  end.

End ParseInt.

Abbreviation parseInt := ParseInt.parseInt.

(* ===================================================================== *)
(** ** The data model *)
(* ===================================================================== *)

(** [SchwabPosition["instrument"]] *)
Module Instrument.
Record t : Type := mk {
  assetType : string;
  cusip : string;
  symbol : string;
  underlyingSymbol : option string;
  description : string;
  instrumentId : number;
  netChange : option number;
  type : string
}.
End Instrument.

(** [SchwabPosition] *)
Module SchwabPosition.
Record t : Type := mk {
  shortQuantity : number;
  longQuantity : number;
  averagePrice : number;
  currentDayProfitLoss : number;
  currentDayProfitLossPercentage : number;
  settledLongQuantity : number;
  settledShortQuantity : number;
  agedQuantity : number;
  maintenanceRequirement : number;
  averageLongPrice : number;
  averageShortPrice : number;
  taxLotAverageLongPrice : number;
  taxLotAverageShortPrice : number;
  longOpenProfitLoss : number;
  shortOpenProfitLoss : number;
  previousSessionLongQuantity : number;
  previousSessionShortQuantity : number;
  currentDayCost : number;
  instrument : Instrument.t;
  marketValue : number
}.
End SchwabPosition.

(** [SchwabAccount["securitiesAccount"]["currentBalances"]] *)
Module Balances.
Record t : Type := mk {
  equity : number;
  availableFunds : number;
  buyingPower : number;
  cashBalance : number;
  liquidationValue : number
}.
End Balances.

(** [SchwabAccount["securitiesAccount"]] *)
Module SecuritiesAccount.
Record t : Type := mk {
  accountNumber : string;
  hashValue : option string;
  positions : list SchwabPosition.t;
  currentBalances : Balances.t
}.
End SecuritiesAccount.

(** [SchwabAccount] *)
Module SchwabAccount.
Record t : Type := mk {
  hashValue : option string;
  securitiesAccount : SecuritiesAccount.t
}.
End SchwabAccount.

(** The value of [new Date(year, monthIndex, day)].  The constructor with
    several arguments reads them in the local time zone of the platform;
    the model keeps the three arguments it was called with and leaves the
    time value, which depends on that zone, out. *)
Module LocalDate.
Record t : Type := mk {
  year : number;
  monthIndex : number;
  day : number
}.
End LocalDate.

(** [PutCreditSpread], with the fields of the object literal that
    [getPutCreditSpreads] pushes. *)
Module PutCreditSpread.
Record t : Type := mk {
  underlying : string;
  expiry : LocalDate.t;
  shortStrike : number;
  longStrike : number;
  credit : number;
  quantity : number;
  theoreticalMaxLossPts : number
}.
End PutCreditSpread.

(* ===================================================================== *)
(** ** [Map<string, V>] *)
(* ===================================================================== *)

(** A JavaScript [Map] iterates over its entries in the order in which
    their keys were first inserted; setting a key that is present replaces
    the value where it stands. *)
Module JSMap.

Definition t (V : Type) : Type := list (string * V).

Definition empty {V} : t V := [].

Fixpoint get {V} (k : string) (m : t V) : option V :=
  match m with
  | [] => None
  | (k', v) :: m' => if String.eqb k k' then Some v else get k m'
  end.

Fixpoint set {V} (k : string) (v : V) (m : t V) : t V :=
  match m with
  | [] => [(k, v)]
  | (k', v') :: m' =>
      if String.eqb k k' then (k', v) :: m' else (k', v') :: set k v m'
  end.

Definition entries {V} (m : t V) : list (string * V) := m.

Definition keys {V} (m : t V) : list string := map fst m.

End JSMap.

(* ===================================================================== *)
(** ** [getPutCreditSpreads] *)
(* ===================================================================== *)

(** The loops of the function read a position only through its fields.
    The definitions of this section take the elements of the position list
    at any type [A] that carries a position, so that the same loops run on
    positions ([pos] the identity) and on positions tagged with where they
    stand in the input. *)
Section Reconstruction.

Context {A : Type} (pos : A -> SchwabPosition.t).

Definition optionSymbolOf (a : A) : string :=
  Instrument.symbol (SchwabPosition.instrument (pos a)).

(** The filter that yields [optionPositions]. *)
Definition isOptionOn (symbol : string) (a : A) : bool :=
  let instr := SchwabPosition.instrument (pos a) in
  String.eqb (Instrument.assetType instr) "OPTION"
  && match Instrument.underlyingSymbol instr with
     | Some u => String.eqb u symbol
     | None => false
     end.

(** The body of the loop that fills [byExpiry]. *)
Definition groupStep (byExpiry : JSMap.t (list A)) (a : A)
  : JSMap.t (list A) :=
  match execSymbol (optionSymbolOf a) with
  | None => byExpiry
  | Some m =>
      let expiryKey := sm_expiry m in
      if String.eqb expiryKey EmptyString then byExpiry
      else
        let existing :=
          match JSMap.get expiryKey byExpiry with
          | Some l => l
          | None => []
          end in
        JSMap.set expiryKey (existing ++ [a]) byExpiry
  end.

Definition groupByExpiry (optionPositions : list A) : JSMap.t (list A) :=
  fold_left groupStep optionPositions JSMap.empty.

Definition isPut (a : A) : bool := includesP (optionSymbolOf a).

Definition isShort (a : A) : bool :=
  Num.gtb (SchwabPosition.shortQuantity (pos a)) (Num.ofZ 0).

Definition isLong (a : A) : bool :=
  Num.gtb (SchwabPosition.longQuantity (pos a)) (Num.ofZ 0).

(** The strike decoded from a leg: [None] stands for the [continue]
    taken when the pattern fails or its second group is empty. *)
Definition strikeOf (a : A) : option number :=
  match execPut (optionSymbolOf a) with
  | None => None
  | Some m =>
      if String.eqb (pm_strike m) EmptyString then None
      else Some (Num.div (parseInt (pm_strike m)) (Num.ofZ 1000))
  end.

(** The expiry date decoded from the expiry code. *)
Definition expiryDate (expiryKey : string) : LocalDate.t :=
  let year := Num.add (Num.ofZ 2000) (parseInt (slice expiryKey 0 2)) in
  let month := Num.sub (parseInt (slice expiryKey 2 4)) (Num.ofZ 1) in
  let day := parseInt (slice expiryKey 4 6) in
  LocalDate.mk year month day.

(** The record pushed for a pair of legs that passed the strike test. *)
Definition makeSpread (symbol expiryKey : string)
           (shortPut : A) (shortStrike : number)
           (longPut : A) (longStrike : number) : PutCreditSpread.t :=
  let quantity :=
    Num.min (SchwabPosition.shortQuantity (pos shortPut))
            (SchwabPosition.longQuantity (pos longPut)) in
  let width := Num.sub shortStrike longStrike in
  let credit :=
    Num.sub (SchwabPosition.averagePrice (pos shortPut))
            (SchwabPosition.averagePrice (pos longPut)) in
  let expiry := expiryDate expiryKey in
  PutCreditSpread.mk symbol expiry shortStrike longStrike credit quantity
                     (Num.sub width credit).

(** Body of [for (const longPut of longPuts)]. *)
Definition longPutStep (symbol expiryKey : string)
           (shortPut : A) (shortStrike : number)
           (spreads : list PutCreditSpread.t) (longPut : A)
  : list PutCreditSpread.t :=
  match strikeOf longPut with
  | None => spreads
  | Some longStrike =>
      if Num.ltb longStrike shortStrike
      then spreads ++ [makeSpread symbol expiryKey shortPut shortStrike
                                  longPut longStrike]
      else spreads
  end.

(** Body of [for (const shortPut of shortPuts)]. *)
Definition shortPutStep (symbol expiryKey : string) (longPuts : list A)
           (spreads : list PutCreditSpread.t) (shortPut : A)
  : list PutCreditSpread.t :=
  match strikeOf shortPut with
  | None => spreads
  | Some shortStrike =>
      fold_left (longPutStep symbol expiryKey shortPut shortStrike)
                longPuts spreads
  end.

(** Body of [for (const [expiryKey, expiryPositions] of byExpiry)]. *)
Definition expiryStep (symbol : string)
           (spreads : list PutCreditSpread.t)
           (entry : string * list A) : list PutCreditSpread.t :=
  let '(expiryKey, expiryPositions) := entry in
  let puts := filter isPut expiryPositions in
  let shortPuts := filter isShort puts in
  let longPuts := filter isLong puts in
  fold_left (shortPutStep symbol expiryKey longPuts) shortPuts spreads.

(** The spreads pushed for one position list. *)
Definition positionsStep (symbol : string)
           (spreads : list PutCreditSpread.t) (positions : list A)
  : list PutCreditSpread.t :=
  let optionPositions := filter (isOptionOn symbol) positions in
  let byExpiry := groupByExpiry optionPositions in
  fold_left (expiryStep symbol) (JSMap.entries byExpiry) spreads.

(** *** The legs behind each spread *)

(** The same loops, collecting for each spread that is pushed the expiry
    code and the two legs it was built from. *)
Definition legsOfShort (expiryKey : string) (longPuts : list A)
           (shortPut : A) : list (string * A * A) :=
  match strikeOf shortPut with
  | None => []
  | Some shortStrike =>
      flat_map (fun longPut =>
                  match strikeOf longPut with
                  | None => []
                  | Some longStrike =>
                      if Num.ltb longStrike shortStrike
                      then [(expiryKey, shortPut, longPut)]
                      else []
                  end) longPuts
  end.

Definition legsOfEntry (entry : string * list A) : list (string * A * A) :=
  let '(expiryKey, expiryPositions) := entry in
  let puts := filter isPut expiryPositions in
  let shortPuts := filter isShort puts in
  let longPuts := filter isLong puts in
  flat_map (legsOfShort expiryKey longPuts) shortPuts.

Definition legsOf (symbol : string) (positions : list A)
  : list (string * A * A) :=
  let optionPositions := filter (isOptionOn symbol) positions in
  flat_map legsOfEntry (JSMap.entries (groupByExpiry optionPositions)).

(** The spread of a triple of [legsOf]; the strikes are those that the
    loops decoded, [NaN] standing in where a leg has none. *)
Definition strikeOrNaN (a : A) : number :=
  match strikeOf a with Some k => k | None => Num.NaN end.

Definition spreadOfLegs (symbol : string) (legs : string * A * A)
  : PutCreditSpread.t :=
  let '(expiryKey, shortPut, longPut) := legs in
  makeSpread symbol expiryKey shortPut (strikeOrNaN shortPut)
             longPut (strikeOrNaN longPut).

End Reconstruction.

(** [getPutCreditSpreads(symbol)], on the account list that the request to
    [/trader/v1/accounts?fields=positions] returned. *)
Definition getPutCreditSpreads (accounts : list SchwabAccount.t)
           (symbol : string) : list PutCreditSpread.t :=
  fold_left
    (fun spreads account =>
       let positions :=
         SecuritiesAccount.positions (SchwabAccount.securitiesAccount account) in
       positionsStep (fun p => p) symbol spreads positions)
    accounts [].

(** *** Positions tagged with their place in the input *)

(** A leg is a position together with the index of its account and its
    own index in the position list of that account. *)
Definition Leg : Type := nat * nat * SchwabPosition.t.

Definition legAccount (l : Leg) : nat := fst (fst l).
Definition legIndex (l : Leg) : nat := snd (fst l).
Definition legPos (l : Leg) : SchwabPosition.t := snd l.

Definition indexed {X} (l : list X) : list (nat * X) :=
  combine (seq 0 (List.length l)) l.

Definition accountLegs (ai : nat) (account : SchwabAccount.t) : list Leg :=
  map (fun '(i, p) => (ai, i, p))
      (indexed (SecuritiesAccount.positions
                  (SchwabAccount.securitiesAccount account))).

(** For each spread of the output, in order, the expiry code and the two
    legs it pairs. *)
Definition spreadLegs (accounts : list SchwabAccount.t) (symbol : string)
  : list (string * Leg * Leg) :=
  flat_map (fun '(ai, account) => legsOf legPos symbol (accountLegs ai account))
           (indexed accounts).

(** The places of the two legs of each spread of the output: (account,
    index) of the short leg and (account, index) of the long leg. *)
Definition spreadOrigins (accounts : list SchwabAccount.t) (symbol : string)
  : list ((nat * nat) * (nat * nat)) :=
  map (fun '(_, s, l) => (fst s, fst l)) (spreadLegs accounts symbol).

(* ===================================================================== *)
(** ** Sample data *)
(* ===================================================================== *)

Module Sample.

Definition zero : number := Num.ofZ 0.

(** An option position on [underlying] with the given symbol,
    quantities and average price; every other numeric field is zero. *)
Definition optionPosition (underlying sym : string)
           (shortQ longQ avg : number) : SchwabPosition.t :=
  SchwabPosition.mk shortQ longQ avg zero zero zero zero zero zero zero
    zero zero zero zero zero zero zero zero
    (Instrument.mk "OPTION" EmptyString sym (Some underlying) EmptyString
                   zero None
                   "VANILLA")
    zero.

Definition account (positions : list SchwabPosition.t) : SchwabAccount.t :=
  SchwabAccount.mk None
    (SecuritiesAccount.mk EmptyString None positions
                          (Balances.mk zero zero zero zero zero)).

Definition short5900 : SchwabPosition.t :=
  optionPosition "SPX" "SPX   241220P05900000"
                 (Num.ofZ 1) zero (Num.dec 1250 2).

Definition long5800 : SchwabPosition.t :=
  optionPosition "SPX" "SPX   241220P05800000"
                 zero (Num.ofZ 1) (Num.dec 700 2).

Definition short5950 : SchwabPosition.t :=
  optionPosition "SPX" "SPX   241220P05950000"
                 (Num.ofZ 1) zero (Num.dec 1500 2).

Definition long6000 : SchwabPosition.t :=
  optionPosition "SPX" "SPX   241220P06000000"
                 zero (Num.ofZ 1) (Num.dec 9000 2).

(** A put held short and long at once. *)
Definition both5850 : SchwabPosition.t :=
  optionPosition "SPX" "SPX   241220P05850000"
                 (Num.ofZ 2) (Num.ofZ 1) (Num.dec 900 2).

(** Calls on SPX, whose ticker contains the letter P. *)
Definition shortCall5900 : SchwabPosition.t :=
  optionPosition "SPX" "SPX   241220C05900000"
                 (Num.ofZ 1) zero (Num.dec 1250 2).

Definition longCall5800 : SchwabPosition.t :=
  optionPosition "SPX" "SPX   241220C05800000"
                 zero (Num.ofZ 1) (Num.dec 700 2).

(** An option whose symbol lacks the expiry digits. *)
Definition malformed : SchwabPosition.t :=
  optionPosition "SPX" "SPX   P05900000"
                 (Num.ofZ 1) zero (Num.dec 1250 2).

(** An equity position: 100 shares of SPY. *)
Definition equity : SchwabPosition.t :=
  SchwabPosition.mk zero (Num.ofZ 100) (Num.dec 50000 2) zero zero zero zero
    zero zero zero zero zero zero zero zero zero zero zero
    (Instrument.mk "EQUITY" EmptyString "SPY" None EmptyString zero None
                   EmptyString)
    zero.

(** The groups of the symbol pattern on the sample symbols. *)
Definition match5900 : SymbolMatch :=
  mkSymbolMatch "SPX" "241220" "P" "05900000".
Definition match5950 : SymbolMatch :=
  mkSymbolMatch "SPX" "241220" "P" "05950000".
Definition match5850 : SymbolMatch :=
  mkSymbolMatch "SPX" "241220" "P" "05850000".
Definition match5800 : SymbolMatch :=
  mkSymbolMatch "SPX" "241220" "P" "05800000".
Definition match6000 : SymbolMatch :=
  mkSymbolMatch "SPX" "241220" "P" "06000000".

(** 20 December 2024. *)
Definition dec20 : LocalDate.t :=
  LocalDate.mk (Num.ofZ 2024) (Num.ofZ 11) (Num.ofZ 20).

End Sample.

(* ===================================================================== *)
(** ** Vocabulary of the statements *)
(* ===================================================================== *)

Section Vocabulary.

Context {A : Type} (pos : A -> SchwabPosition.t).

(** The key under which the grouping loop files an element, if it files
    it at all. *)
Definition expiryKeyOf (a : A) : option string :=
  match execSymbol (optionSymbolOf pos a) with
  | Some m =>
      if String.eqb (sm_expiry m) EmptyString then None
      else Some (sm_expiry m)
  | None => None
  end.

Definition hasKey (k : string) (a : A) : bool :=
  match expiryKeyOf a with
  | Some k' => String.eqb k' k
  | None => false
  end.

(** What a group becomes when the elements [g] are filed after it. *)
Definition groupExtend (o : option (list A)) (g : list A)
  : option (list A) :=
  match o, g with
  | None, [] => None
  | None, _ => Some g
  | Some l, _ => Some (l ++ g)
  end.

(** The condition under which the loops pair [s] as short leg with [l] as
    long leg, once both stand in the same group. *)
Definition pairs (s l : A) : Prop :=
  isPut pos s = true /\ isPut pos l = true
  /\ isShort pos s = true /\ isLong pos l = true
  /\ exists ss ls,
      strikeOf pos s = Some ss /\ strikeOf pos l = Some ls
      /\ Num.ltb ls ss = true.

End Vocabulary.

(** A triple of legs seen through [f]. *)
Definition mapLegs {A B : Type} (f : B -> A) (t : string * B * B)
  : string * A * A :=
  let '(k, s, l) := t in (k, f s, f l).

(** A map seen through [h] on its values. *)
Definition mapValues {V W : Type} (h : V -> W) (m : JSMap.t V) : JSMap.t W :=
  map (fun '(k, v) => (k, h v)) m.

(** The strike that a match of the symbol pattern encodes: its digits read
    as an integer and divided by 1000. *)
Definition strikeOfMatch (m : SymbolMatch) : number :=
  Num.div (parseInt (sm_strike m)) (Num.ofZ 1000).

(** A symbol that carries the C marker. *)
Definition isCallSymbol (s : string) : bool :=
  match execSymbol s with
  | Some m => String.eqb (sm_putCall m) "C"
  | None => false
  end.

(** An account with its position list replaced. *)
Definition withPositions (account : SchwabAccount.t)
           (positions : list SchwabPosition.t) : SchwabAccount.t :=
  let sa := SchwabAccount.securitiesAccount account in
  SchwabAccount.mk (SchwabAccount.hashValue account)
    (SecuritiesAccount.mk (SecuritiesAccount.accountNumber sa)
                          (SecuritiesAccount.hashValue sa)
                          positions
                          (SecuritiesAccount.currentBalances sa)).

Definition positionsOf (account : SchwabAccount.t) : list SchwabPosition.t :=
  SecuritiesAccount.positions (SchwabAccount.securitiesAccount account).

Definition symbolOf (p : SchwabPosition.t) : string :=
  Instrument.symbol (SchwabPosition.instrument p).

(** [p] is an option position on the underlying [symbol] whose option
    symbol matches the pattern, with groups [m], and carries the P
    marker. *)
Definition putLeg (symbol : string) (p : SchwabPosition.t) (m : SymbolMatch)
  : Prop :=
  Instrument.assetType (SchwabPosition.instrument p) = "OPTION"%string
  /\ Instrument.underlyingSymbol (SchwabPosition.instrument p) = Some symbol
  /\ execSymbol (symbolOf p) = Some m
  /\ sm_putCall m = "P"%string.

(** The test that the loops themselves apply before they consider a
    position: its asset type is OPTION and [exec] of the symbol pattern
    on its symbol is not [null]. *)
Definition isWellFormedOption (p : SchwabPosition.t) : bool :=
  String.eqb (Instrument.assetType (SchwabPosition.instrument p)) "OPTION"
  && match execSymbol (symbolOf p) with Some _ => true | None => false end.

(** The place of a leg in the input: account index and position index. *)
Definition Place : Type := nat * nat.

Definition origin_eq_dec (x y : Place * Place) : {x = y} + {x <> y}.
Proof. repeat decide equality. Defined.

(* ===================================================================== *)
(** ** JavaScript values of the other methods *)
(* ===================================================================== *)

(** The methods of the client other than [getPutCreditSpreads] are
    embedded the same way: the response of the request is the input of the
    embedded function, and what a method does before the request (its URL
    and headers) is a function of its arguments. *)
Module Js.

(** The outcome of an [async] method: the value it resolves to, or the
    message of the [Error] it rejects with. *)
Inductive Outcome (T : Type) : Type :=
| Resolve (value : T)
| Reject (message : string).

Arguments Resolve {T} value.
Arguments Reject {T} message.

(** A string is truthy when it is not empty. *)
Definition truthyString (s : string) : bool :=
  negb (String.eqb s EmptyString).

(** A number is truthy when it is neither a zero nor [NaN]. *)
Definition truthyNumber (x : number) : bool :=
  match x with
  | S754_zero _ | S754_nan => false
  | _ => true
  end.

(** [Number.isNaN(x)] *)
Definition isNaN (x : number) : bool :=
  match x with S754_nan => true | _ => false end.

(** [x === y] on numbers: false on [NaN], true on the two zeros. *)
Definition strictEq (x y : number) : bool := SFeqb x y.

(** [o ?? d] where nothing tells [undefined] from [null]: [None] stands
    for both. *)
Definition orElse {T} (o d : option T) : option T :=
  match o with
  | Some v => Some v
  | None => d
  end.

(** A property that the declared type makes optional, read off a parsed
    JSON body: the property is missing and reads as [undefined], or it
    holds [null], which the unchecked cast of [response.json()] lets
    through, or it holds a value.  The type is used where the code tells
    the first two apart. *)
Inductive Field (T : Type) : Type :=
| Undefined
| Null
| Value (v : T).

Arguments Undefined {T}.
Arguments Null {T}.
Arguments Value {T} v.

(** [a ?? b] *)
Definition coalesce {T} (a b : Field T) : Field T :=
  match a with
  | Value v => Value v
  | Undefined | Null => b
  end.

(** [x === undefined] *)
Definition isUndefined {T} (x : Field T) : bool :=
  match x with Undefined => true | _ => false end.

(** [Number.isNaN(x)] on a value that need not be a number: true on the
    number [NaN] only. *)
Definition numberIsNaN (x : Field number) : bool :=
  match x with Value v => isNaN v | _ => false end.

(** [ToNumber(x)], which the division applies to its operand: [null] is
    +0 and [undefined] is [NaN]. *)
Definition toNumber (x : Field number) : number :=
  match x with
  | Value v => v
  | Null => S754_zero false
  | Undefined => S754_nan
  end.

(** A property given as present or missing. *)
Definition fieldOfOption {T} (o : option T) : Field T :=
  match o with Some v => Value v | None => Undefined end.

(** [s.startsWith(p)] *)
Definition startsWith (s p : string) : bool := String.prefix p s.

(** [s.slice(i)] for [0 <= i]. *)
Definition sliceFrom (s : string) (i : nat) : string :=
  substring i (String.length s - i) s.

(** [s.split(sep)] for a separator of one code unit: never empty, one
    more segment than there are separators. *)
Fixpoint splitChars (sep : ascii) (s : list ascii) : list (list ascii) :=
  match s with
  | [] => [[]]
  | c :: r =>
      if Ascii.eqb c sep then [] :: splitChars sep r
      else match splitChars sep r with
           | seg :: segs => (c :: seg) :: segs
           | [] => [[c]]
           end
  end.

Definition split (sep : ascii) (s : string) : list string :=
  map str (splitChars sep (chars s)).

(** [l.join(sep)] on strings. *)
Definition join (sep : string) (l : list string) : string :=
  String.concat sep l.

(** Upper-case hexadecimal digit. *)
Definition hexDigit (n : nat) : ascii :=
  if n <? 10 then ascii_of_nat (48 + n) else ascii_of_nat (55 + n).

(** [%XX] for the byte [b]. *)
Definition percent (b : nat) : list ascii :=
  ["%"%char; hexDigit (b / 16); hexDigit (b mod 16)].

Definition isAlnum (c : ascii) : bool :=
  Chars.isDigit c
  || ((65 <=? Chars.code c) && (Chars.code c <=? 90))
  || ((97 <=? Chars.code c) && (Chars.code c <=? 122)).

(** The characters that [encodeURIComponent] leaves as they are:
    letters, digits and [- _ . ! ~ * ' ( )]. *)
Definition isUnreserved (c : ascii) : bool :=
  isAlnum c
  || existsb (Ascii.eqb c)
       ["-"; "_"; "."; "!"; "~"; "*"; "'"; "("; ")"]%char.

(** The UTF-8 bytes of a code unit below 256, percent-encoded. *)
Definition percentUtf8 (c : ascii) : list ascii :=
  let n := Chars.code c in
  if n <? 128 then percent n
  else percent (192 + n / 64) ++ percent (128 + n mod 64).

(** [encodeURIComponent(s)]; on code units below 256 there is no lone
    surrogate and it cannot throw. *)
Definition encodeURIComponent (s : string) : string :=
  str (flat_map (fun c => if isUnreserved c then [c] else percentUtf8 c)
                (chars s)).

(** The characters that the serializer of [URLSearchParams] leaves as they
    are: letters, digits and [* - . _]. *)
Definition isFormSafe (c : ascii) : bool :=
  isAlnum c || existsb (Ascii.eqb c) ["*"; "-"; "."; "_"]%char.

Definition formEncode (s : string) : string :=
  str (flat_map (fun c => if isFormSafe c then [c]
                          else if Ascii.eqb c " " then ["+"%char]
                          else percentUtf8 c)
                (chars s)).

(** [new URLSearchParams(...).toString()] on the list of its pairs. *)
Definition searchParamsToString (params : list (string * string)) : string :=
  join "&" (map (fun '(k, v) => (formEncode k ++ "=" ++ formEncode v)%string)
                params).

End Js.

(** Objects used as records keyed by strings: [Record<string, V>]. *)
Module Obj.

(** The own properties of the object in the order of their creation; of
    two entries with the same key the first is the property. *)
Definition t (V : Type) : Type := JSMap.t V.

(** [o[k]], [None] when there is no such property. *)
Definition get {V} (k : string) (o : t V) : option V := JSMap.get k o.

Fixpoint distinct (l : list string) : list string :=
  match l with
  | [] => []
  | k :: r => k :: filter (fun k' => negb (String.eqb k' k)) (distinct r)
  end.

Definition decimalValue (l : list ascii) : N :=
  fold_left (fun acc c => (acc * 10 + N.of_nat (Chars.code c - 48))%N) l 0%N.

(** A key is an array index when it is the decimal writing, without
    leading zero, of an integer below 2^32 - 1. *)
Definition arrayIndex (k : string) : option N :=
  match chars k with
  | [] => None
  | c :: r =>
      if forallb Chars.isDigit (c :: r)
         && (negb (Ascii.eqb c "0") || match r with [] => true | _ => false end)
      then
        let n := decimalValue (c :: r) in
        if (n <=? 4294967294)%N then Some n else None
      else None
  end.

Fixpoint insertIndex (x : N * string) (l : list (N * string))
  : list (N * string) :=
  match l with
  | [] => [x]
  | y :: r => if (fst x <=? fst y)%N then x :: l else y :: insertIndex x r
  end.

Definition sortIndex (l : list (N * string)) : list (N * string) :=
  fold_right insertIndex [] l.

Definition indexKeys (ks : list string) : list (N * string) :=
  flat_map (fun k => match arrayIndex k with
                     | Some n => [(n, k)]
                     | None => []
                     end) ks.

Definition nameKeys (ks : list string) : list string :=
  filter (fun k => match arrayIndex k with Some _ => false | None => true end)
         ks.

(** [Object.keys(o)]: the array indices in ascending order, then the
    other keys in the order of their creation. *)
Definition keys {V} (o : t V) : list string :=
  let ks := distinct (JSMap.keys o) in
  map snd (sortIndex (indexKeys ks)) ++ nameKeys ks.

(** [Object.values(o)] *)
Definition values {V} (o : t V) : list V :=
  flat_map (fun k => match get k o with Some v => [v] | None => [] end)
           (keys o).

(** [o[k] = v] for a string [v] on an object created by a literal: the
    key [__proto__] reaches the setter of the prototype, which ignores a
    value that is no object. *)
Definition assignString (k v : string) (o : t string) : t string :=
  if String.eqb k "__proto__" then o else JSMap.set k v o.

End Obj.

(* ===================================================================== *)
(** ** Requests *)
(* ===================================================================== *)

Definition SCHWAB_API_BASE_URL : string := "https://api.schwabapi.com".

(** [RequestInit["headers"]]: absent, a [Headers] object (given by the
    pairs that its [forEach] visits), an array of pairs or a record. *)
Inductive HeadersInit : Type :=
| NoHeaders
| HeadersObject (entries : list (string * string))
| HeadersArray (pairs : list (string * string))
| HeadersRecord (o : Obj.t string).

(** [headersToRecord(headers)] *)
Definition headersToRecord (headers : HeadersInit) : Obj.t string :=
  let result : Obj.t string := JSMap.empty in
  match headers with
  | NoHeaders => result
  | HeadersObject entries =>
      fold_left (fun result '(key, value) => Obj.assignString key value result)
                entries result
  | HeadersArray pairs =>
      fold_left (fun result '(k, v) =>
                   if Js.truthyString k && Js.truthyString v
                   then Obj.assignString k v result
                   else result)
                pairs result
  | HeadersRecord o =>
      fold_left (fun result k =>
                   match Obj.get k o with
                   | Some v => Obj.assignString k v result
                   | None => result
                   end)
                (Obj.keys o) result
  end.

(** The part of [makeApiRequest] that precedes [fetch]: the URL and the
    headers of the request. *)
Definition requestUrl (endpoint : string) : string :=
  let normalizedEndpoint :=
    if Js.startsWith endpoint "/" then Js.sliceFrom endpoint 1 else endpoint in
  (SCHWAB_API_BASE_URL ++ "/" ++ normalizedEndpoint)%string.

Definition requestHeaders (accessToken : string) (headers : HeadersInit)
  : Obj.t string :=
  let existingHeaders := headersToRecord headers in
  JSMap.set "Authorization" ("Bearer " ++ accessToken)%string existingHeaders.

(** What [fetch] resolves to, as far as the client reads it; [json] is the
    outcome of [response.json()]. *)
Module Response.
Record t (T : Type) : Type := mk {
  ok : bool;
  status : number;
  statusText : string;
  json : Js.Outcome T
}.
Arguments ok {T} _.
Arguments status {T} _.
Arguments statusText {T} _.
Arguments json {T} _.
End Response.

(** [makeApiRequest(endpoint, options)], with [fetch] a function of the
    URL and of the headers it is called with. *)
Definition makeApiRequest {T} (accessToken : string)
           (fetch : string -> Obj.t string -> Js.Outcome (Response.t T))
           (endpoint : string) (headers : HeadersInit) : Js.Outcome T :=
  let url := requestUrl endpoint in
  match fetch url (requestHeaders accessToken headers) with
  | Js.Reject message => Js.Reject message
  | Js.Resolve response =>
      if negb (Response.ok response) then
        if Js.strictEq (Response.status response) (Num.ofZ 401)
        then Js.Reject "Unauthorized - access token may be expired or invalid"
        else Js.Reject ("Failed to fetch " ++ endpoint ++ ": "
                        ++ Response.statusText response)%string
      else Response.json response
  end.

(** The endpoint of [getQuotes(symbols)]. *)
Definition getQuotesEndpoint (symbols : list string) : string :=
  let symbolsStr := Js.join "," (map Js.encodeURIComponent symbols) in
  ("/marketdata/v1/quotes?symbols=" ++ symbolsStr)%string.

(** [getQuotes(symbols)] *)
Definition getQuotes {T} (accessToken : string)
           (fetch : string -> Obj.t string -> Js.Outcome (Response.t T))
           (symbols : list string) : Js.Outcome T :=
  makeApiRequest accessToken fetch (getQuotesEndpoint symbols) NoHeaders.

(** [SchwabMoversIndexSymbol] *)
Inductive SchwabMoversIndexSymbol : Type :=
| DJI | COMPX | SPX | NYSE | NASDAQ | OTCBB
| INDEX_ALL | EQUITY_ALL | OPTION_ALL | OPTION_PUT | OPTION_CALL.

Definition moversIndexSymbol (s : SchwabMoversIndexSymbol) : string :=
  match s with
  | DJI => "$DJI" | COMPX => "$COMPX" | SPX => "$SPX"
  | NYSE => "NYSE" | NASDAQ => "NASDAQ" | OTCBB => "OTCBB"
  | INDEX_ALL => "INDEX_ALL" | EQUITY_ALL => "EQUITY_ALL"
  | OPTION_ALL => "OPTION_ALL" | OPTION_PUT => "OPTION_PUT"
  | OPTION_CALL => "OPTION_CALL"
  end.

(** [SchwabMoversSort] *)
Inductive SchwabMoversSort : Type :=
| VOLUME | TRADES | PERCENT_CHANGE_UP | PERCENT_CHANGE_DOWN.

Definition moversSort (s : SchwabMoversSort) : string :=
  match s with
  | VOLUME => "VOLUME" | TRADES => "TRADES"
  | PERCENT_CHANGE_UP => "PERCENT_CHANGE_UP"
  | PERCENT_CHANGE_DOWN => "PERCENT_CHANGE_DOWN"
  end.

(** [SchwabMoversFrequency], the literals 0, 1, 5, 10, 30 and 60. *)
Inductive SchwabMoversFrequency : Type :=
| Every0 | Every1 | Every5 | Every10 | Every30 | Every60.

(** [String(frequency)] *)
Definition moversFrequency (f : SchwabMoversFrequency) : string :=
  match f with
  | Every0 => "0" | Every1 => "1" | Every5 => "5"
  | Every10 => "10" | Every30 => "30" | Every60 => "60"
  end.

(** The endpoint of [getMovers(symbolId, sort, frequency)]. *)
Definition getMoversEndpoint (symbolId : SchwabMoversIndexSymbol)
           (sort : option SchwabMoversSort)
           (frequency : option SchwabMoversFrequency) : string :=
  let params : list (string * string) := [] in
  let params :=
    match sort with
    | Some s => if Js.truthyString (moversSort s)
                then params ++ [("sort"%string, moversSort s)] else params
    | None => params
    end in
  let params :=
    match frequency with
    | Some f => params ++ [("frequency"%string, moversFrequency f)]
    | None => params
    end in
  let queryString := Js.searchParamsToString params in
  ("/marketdata/v1/movers/"
   ++ Js.encodeURIComponent (moversIndexSymbol symbolId)
   ++ (if Js.truthyString queryString then "?" ++ queryString else EmptyString))%string.

(** [l.pop()], as far as its result goes; [None] is [undefined]. *)
Definition pop (l : list string) : option string :=
  match l with
  | [] => None
  | _ :: _ => Some (last l EmptyString)
  end.

(** The order id that [placeOrder] reads off the [Location] header of the
    response: [locationHeader?.split("/").pop() ?? "unknown"]. *)
Definition orderIdOfLocation (locationHeader : option string) : string :=
  match (match locationHeader with
         | Some h => pop (Js.split "/" h)
         | None => None
         end) with
  | Some orderId => orderId
  | None => "unknown"
  end.

(* ===================================================================== *)
(** ** Quotes *)
(* ===================================================================== *)

(** [SchwabQuoteAssetMainType] *)
Inductive SchwabQuoteAssetMainType : Type :=
| MainEQUITY | MainOPTION | MainINDEX | MainMUTUAL_FUND | MainFUTURE
| MainFOREX.

(** The literals ["C"] and ["P"] of [SchwabQuoteReference.contractType]. *)
Inductive QuoteContractType : Type := ContractC | ContractP.

(** [SchwabQuoteReference] *)
Module SchwabQuoteReference.
Record t : Type := mk {
  cusip : option string;
  description : string;
  exchange : string;
  exchangeName : string;
  otcMarketTier : option string;
  contractType : option QuoteContractType;
  daysToExpiration : option number;
  expirationDay : option number;
  expirationMonth : option number;
  expirationYear : option number;
  strikePrice : option number;
  underlying : option string;
  multiplier : option number
}.
End SchwabQuoteReference.

(** [SchwabQuoteData]; the fields ["52WeekHigh"] and ["52WeekLow"] are
    named [week52High] and [week52Low].  The client compares what it reads
    of a quote with [undefined], so that a field of a quote is missing,
    [null] or a value. *)
Module SchwabQuoteData.
Record t : Type := mk {
  week52High : Js.Field number;
  week52Low : Js.Field number;
  askPrice : Js.Field number;
  askSize : Js.Field number;
  bidPrice : Js.Field number;
  bidSize : Js.Field number;
  closePrice : Js.Field number;
  highPrice : Js.Field number;
  lowPrice : Js.Field number;
  lastPrice : Js.Field number;
  lastSize : Js.Field number;
  mark : Js.Field number;
  markChange : Js.Field number;
  markPercentChange : Js.Field number;
  netChange : Js.Field number;
  netPercentChange : Js.Field number;
  openPrice : Js.Field number;
  totalVolume : Js.Field number;
  tradeTime : Js.Field number;
  quoteTime : Js.Field number;
  securityStatus : Js.Field string;
  volatility : Js.Field number;
  delta : Js.Field number;
  gamma : Js.Field number;
  theta : Js.Field number;
  vega : Js.Field number;
  rho : Js.Field number;
  openInterest : Js.Field number;
  underlyingPrice : Js.Field number
}.
End SchwabQuoteData.

(** [SchwabQuoteRegular] *)
Module SchwabQuoteRegular.
Record t : Type := mk {
  regularMarketLastPrice : option number;
  regularMarketLastSize : option number;
  regularMarketNetChange : option number;
  regularMarketPercentChange : option number;
  regularMarketTradeTime : option number
}.
End SchwabQuoteRegular.

(** [SchwabQuoteFundamental] *)
Module SchwabQuoteFundamental.
Record t : Type := mk {
  avg10DaysVolume : option number;
  avg1YearVolume : option number;
  divAmount : option number;
  divFreq : option number;
  divPayAmount : option number;
  divYield : option number;
  eps : option number;
  peRatio : option number;
  declarationDate : option string;
  divExDate : option string;
  divPayDate : option string
}.
End SchwabQuoteFundamental.

(** [SchwabQuoteResponse] *)
Module SchwabQuoteResponse.
Record t : Type := mk {
  assetMainType : SchwabQuoteAssetMainType;
  assetSubType : option string;
  symbol : string;
  quoteType : option string;
  realtime : bool;
  ssid : number;
  reference : SchwabQuoteReference.t;
  quote : SchwabQuoteData.t;
  regular : option SchwabQuoteRegular.t;
  fundamental : option SchwabQuoteFundamental.t
}.
End SchwabQuoteResponse.

(** [getRiskFreeRate(_date)], on the record that [getQuotes(["$IRX"])]
    resolved to; the date is not read.  The properties of the record hold
    quote objects with their [quote], as the declared type has it; [mark]
    and [lastPrice] are missing, [null] or numbers. *)
Definition getRiskFreeRate (quotes : Obj.t SchwabQuoteResponse.t)
  : Js.Outcome number :=
  let irxQuote :=
    Js.orElse
      (Js.orElse
         (Js.orElse (Obj.get "$IRX" quotes) (Obj.get "IRX" quotes))
         (Obj.get "$IRX.X" quotes))
      (if List.length (Obj.keys quotes) =? 1
       then hd_error (Obj.values quotes)
       else None) in
  let ratePercent :=
    Js.coalesce
      (match irxQuote with
       | Some q => SchwabQuoteData.mark (SchwabQuoteResponse.quote q)
       | None => Js.Undefined
       end)
      (match irxQuote with
       | Some q => SchwabQuoteData.lastPrice (SchwabQuoteResponse.quote q)
       | None => Js.Undefined
       end) in
  if Js.isUndefined ratePercent || Js.numberIsNaN ratePercent
  then Js.Reject "Unable to fetch risk-free rate from $IRX quote data"
  else Js.Resolve (Num.div (Js.toNumber ratePercent) (Num.ofZ 100)).

(** [getVixLevel()], on the record that [getQuotes(["$VIX"])] resolved
    to. *)
Definition getVixLevel (quotes : Obj.t SchwabQuoteResponse.t)
  : Js.Field number :=
  let vixQuote := Obj.get "$VIX" quotes in
  Js.coalesce
    (match vixQuote with
     | Some q => SchwabQuoteData.mark (SchwabQuoteResponse.quote q)
     | None => Js.Undefined
     end)
    (match vixQuote with
     | Some q => SchwabQuoteData.lastPrice (SchwabQuoteResponse.quote q)
     | None => Js.Undefined
     end).

(* ===================================================================== *)
(** ** Accounts and positions *)
(* ===================================================================== *)

(** [getAccountEquity()], on the account list of the response. *)
Definition getAccountEquity (accounts : list SchwabAccount.t)
  : Js.Outcome number :=
  match accounts with
  | [] => Js.Reject "No Schwab account found"
  | account :: _ =>
      Js.Resolve
        (Balances.liquidationValue
           (SecuritiesAccount.currentBalances
              (SchwabAccount.securitiesAccount account)))
  end.

(** [getAccountBalances()], on the account list of the response; the
    object it returns has the five fields of [currentBalances]. *)
Definition getAccountBalances (accounts : list SchwabAccount.t)
  : Js.Outcome Balances.t :=
  match accounts with
  | [] => Js.Reject "No Schwab account found"
  | account :: _ =>
      let balances :=
        SecuritiesAccount.currentBalances
          (SchwabAccount.securitiesAccount account) in
      Js.Resolve
        {| Balances.liquidationValue := Balances.liquidationValue balances;
           Balances.cashBalance := Balances.cashBalance balances;
           Balances.availableFunds := Balances.availableFunds balances;
           Balances.buyingPower := Balances.buyingPower balances;
           Balances.equity := Balances.equity balances |}
  end.

Section Positions.

(** [String.prototype.toUpperCase], which maps code units below 256 to
    code units that can lie above; the embedding takes it as given. *)
Variable toUpperCase : string -> string.

(** The test of the filter of [getPositions]. *)
Definition positionMatches (upperSymbol : string) (pos : SchwabPosition.t)
  : bool :=
  let posSymbol :=
    toUpperCase (Instrument.symbol (SchwabPosition.instrument pos)) in
  let underlying :=
    option_map toUpperCase
               (Instrument.underlyingSymbol (SchwabPosition.instrument pos)) in
  Js.startsWith posSymbol upperSymbol
  || match underlying with
     | Some u => String.eqb u upperSymbol
     | None => false
     end.

(** [getPositions(symbol)], on the account list of the response. *)
Definition getPositions (accounts : list SchwabAccount.t)
           (symbol : option string) : list SchwabPosition.t :=
  let allPositions :=
    fold_left
      (fun allPositions account =>
         allPositions
         ++ SecuritiesAccount.positions (SchwabAccount.securitiesAccount account))
      accounts [] in
  match symbol with
  | Some symbol =>
      if Js.truthyString symbol then
        let upperSymbol := toUpperCase symbol in
        filter (positionMatches upperSymbol) allPositions
      else allPositions
  | None => allPositions
  end.

End Positions.

(** [toUpperCase] on strings of code units below 128: the letters a to z
    become A to Z. *)
Definition asciiUpperCase (s : string) : string :=
  str (map (fun c =>
              if (97 <=? Chars.code c) && (Chars.code c <=? 122)
              then ascii_of_nat (Chars.code c - 32) else c)
           (chars s)).

(* ===================================================================== *)
(** ** Option chains *)
(* ===================================================================== *)

Inductive PutCall : Type := PUT | CALL.

(** [SchwabOptionContract] *)
Module SchwabOptionContract.
Record t : Type := mk {
  putCall : PutCall;
  symbol : string;
  description : string;
  exchangeName : string;
  bid : number;
  ask : number;
  last : number;
  mark : number;
  bidSize : number;
  askSize : number;
  lastSize : number;
  highPrice : number;
  lowPrice : number;
  openPrice : number;
  closePrice : number;
  totalVolume : number;
  tradeDate : option number;
  delta : number;
  gamma : number;
  theta : number;
  vega : number;
  rho : number;
  openInterest : number;
  strikePrice : number;
  expirationDate : string;
  daysToExpiration : number;
  expirationType : string;
  multiplier : number;
  settlementType : string;
  inTheMoney : bool
}.
End SchwabOptionContract.

(** [SchwabOptionChainResponse["underlying"]] *)
Module ChainUnderlying.
Record t : Type := mk {
  symbol : string;
  last : number
}.
End ChainUnderlying.

(** [Record<string, Record<string, SchwabOptionContract[]>>] *)
Definition ExpDateMap : Type := Obj.t (Obj.t (list SchwabOptionContract.t)).

(** [SchwabOptionChainResponse] *)
Module SchwabOptionChainResponse.
Record t : Type := mk {
  symbol : string;
  status : string;
  underlying : option ChainUnderlying.t;
  putExpDateMap : option ExpDateMap;
  callExpDateMap : option ExpDateMap
}.
End SchwabOptionChainResponse.

(** The value of [new Date(text)]: the model keeps the text that the
    constructor parses. *)
Module TextDate.
Record t : Type := mk { text : string }.
End TextDate.

(** [OptionQuote]; [None] is [null]. *)
Module OptionQuote.
Record t : Type := mk {
  symbol : string;
  expiry : TextDate.t;
  strike : number;
  isCall : bool;
  bid : option number;
  ask : option number;
  mid : number;
  delta : number
}.
End OptionQuote.

(** The object pushed for a contract. *)
Definition quoteOfContract (isCall : bool) (contract : SchwabOptionContract.t)
  : OptionQuote.t :=
  let expirationDate :=
    TextDate.mk (SchwabOptionContract.expirationDate contract) in
  {| OptionQuote.symbol := SchwabOptionContract.symbol contract;
     OptionQuote.expiry := expirationDate;
     OptionQuote.strike := SchwabOptionContract.strikePrice contract;
     OptionQuote.isCall := isCall;
     OptionQuote.bid :=
       if Num.gtb (SchwabOptionContract.bid contract) (Num.ofZ 0)
       then Some (SchwabOptionContract.bid contract) else None;
     OptionQuote.ask :=
       if Num.gtb (SchwabOptionContract.ask contract) (Num.ofZ 0)
       then Some (SchwabOptionContract.ask contract) else None;
     OptionQuote.mid := SchwabOptionContract.mark contract;
     OptionQuote.delta := SchwabOptionContract.delta contract |}.

(** [processExpDateMap(expDateMap, isCall)], which pushes onto
    [options]. *)
Definition processExpDateMap (expDateMap : option ExpDateMap) (isCall : bool)
           (options : list OptionQuote.t) : list OptionQuote.t :=
  match expDateMap with
  | None => options
  | Some expDateMap =>
      fold_left
        (fun options dateKey =>
           match Obj.get dateKey expDateMap with
           | None => options
           | Some strikeMap =>
               fold_left
                 (fun options strikeKey =>
                    match Obj.get strikeKey strikeMap with
                    | None => options
                    | Some contracts =>
                        fold_left
                          (fun options contract =>
                             options ++ [quoteOfContract isCall contract])
                          contracts options
                    end)
                 (Obj.keys strikeMap) options
           end)
        (Obj.keys expDateMap) options
  end.

(** [getOptionChain(symbol, expiry)], on the response of the request. *)
Definition getOptionChain (data : SchwabOptionChainResponse.t)
  : list OptionQuote.t :=
  let options : list OptionQuote.t := [] in
  let options :=
    processExpDateMap (SchwabOptionChainResponse.callExpDateMap data) true
                      options in
  let options :=
    processExpDateMap (SchwabOptionChainResponse.putExpDateMap data) false
                      options in
  options.

(** The literals ["call"] and ["put"] of [getOptionQuote]. *)
Inductive OptionType : Type := TypeCall | TypePut.

(** [getOptionQuote({symbol, expiry, strike, type})], on the response of
    the request of [getOptionChain]; [None] is [null]. *)
Definition getOptionQuote (data : SchwabOptionChainResponse.t)
           (strike : number) (type : OptionType) : option OptionQuote.t :=
  let isCall := match type with TypeCall => true | TypePut => false end in
  let chain := getOptionChain data in
  let match_ :=
    find (fun o => Js.strictEq (OptionQuote.strike o) strike
                   && Bool.eqb (OptionQuote.isCall o) isCall)
         chain in
  Js.orElse match_ None.

(** The contracts of a map in the order in which [processExpDateMap]
    visits them. *)
Definition contractsOf (expDateMap : option ExpDateMap)
  : list SchwabOptionContract.t :=
  match expDateMap with
  | None => []
  | Some m =>
      flat_map
        (fun dateKey =>
           match Obj.get dateKey m with
           | None => []
           | Some strikeMap =>
               flat_map
                 (fun strikeKey =>
                    match Obj.get strikeKey strikeMap with
                    | None => []
                    | Some contracts => contracts
                    end)
                 (Obj.keys strikeMap)
           end)
        (Obj.keys m)
  end.

(** A contract that the map lists under some date and some strike. *)
Definition listedIn (m : option ExpDateMap) (c : SchwabOptionContract.t)
  : Prop :=
  exists expDateMap dateKey strikeMap strikeKey contracts,
    m = Some expDateMap
    /\ Obj.get dateKey expDateMap = Some strikeMap
    /\ Obj.get strikeKey strikeMap = Some contracts
    /\ In c contracts.

(* ===================================================================== *)
(** ** Price history and orders *)
(* ===================================================================== *)

Section Rendering.

(** [differenceInDays] of date-fns, [String(n)] on numbers and
    [JSON.stringify] on orders belong to the platform and to a library;
    the embedding takes them as given. *)
Variable differenceInDays : number -> number -> number.
Variable numberToString : number -> string.
Variable Order : Type.
Variable stringify : Order -> string.

(** [effectiveDays] of [getPriceHistory]. *)
Definition effectiveDaysOf (days startDate : option number) (endDate : number)
  : number :=
  match days with
  | Some d => d
  | None =>
      match startDate with
      | Some s =>
          if Js.truthyNumber s then differenceInDays endDate s
          else Num.ofZ 30
      | None => Num.ofZ 30
      end
  end.

(** [periodType] and [period] of [getPriceHistory]. *)
Definition priceHistoryPeriod (effectiveDays : number) : string * number :=
  let useYear := Num.gtb effectiveDays (Num.ofZ 132) in
  let periodType := if useYear then "year"%string else "month"%string in
  let period :=
    if useYear then Num.ofZ 1
    else if Num.leb effectiveDays (Num.ofZ 22) then Num.ofZ 1
    else if Num.leb effectiveDays (Num.ofZ 44) then Num.ofZ 2
    else if Num.leb effectiveDays (Num.ofZ 66) then Num.ofZ 3
    else Num.ofZ 6 in
  (periodType, period).

(** The pairs of [params] in [getPriceHistory]; [now] is the value of
    [Date.now()] that stands in for a missing [endDate]. *)
Definition getPriceHistoryParams (now : number) (symbol : string)
           (days startDate endDate : option number)
  : list (string * string) :=
  let endDate := match endDate with Some e => e | None => now end in
  let effectiveDays := effectiveDaysOf days startDate endDate in
  let '(periodType, period) := priceHistoryPeriod effectiveDays in
  let params :=
    [("symbol"%string, symbol);
     ("periodType"%string, periodType);
     ("period"%string, numberToString period);
     ("frequencyType"%string, "daily"%string);
     ("frequency"%string, "1"%string);
     ("endDate"%string, numberToString endDate)] in
  match startDate with
  | Some s =>
      if Js.truthyNumber s
      then params ++ [("startDate"%string, numberToString s)]
      else params
  | None => params
  end.

(** The endpoint that [getPriceHistory] requests. *)
Definition getPriceHistoryEndpoint (now : number) (symbol : string)
           (days startDate endDate : option number) : string :=
  ("/marketdata/v1/pricehistory?"
   ++ Js.searchParamsToString
        (getPriceHistoryParams now symbol days startDate endDate))%string.

(** What [placeOrder] reads of the response of its [fetch]; [text] is the
    outcome of [response.text()] and [location] that of
    [response.headers.get("Location")]. *)
Record OrderResponse : Type := mkOrderResponse {
  or_ok : bool;
  or_status : number;
  or_statusText : string;
  or_text : string;
  or_location : option string
}.

(** [placeOrder(accountHash, order)], with [fetch] a function of the URL,
    the headers and the body of the POST request; the object it resolves to
    is given by its [orderId]. *)
Definition placeOrder (accessToken : string)
           (fetch : string -> Obj.t string -> string -> Js.Outcome OrderResponse)
           (accountHash : string) (order : Order) : Js.Outcome string :=
  if negb (Js.truthyString accountHash)
  then Js.Reject "Account hash is required to place an order"
  else
    let url := (SCHWAB_API_BASE_URL ++ "/trader/v1/accounts/" ++ accountHash
                ++ "/orders")%string in
    let headers :=
      JSMap.set "Content-Type" "application/json"%string
        (JSMap.set "Authorization" ("Bearer " ++ accessToken)%string
                   JSMap.empty) in
    match fetch url headers (stringify order) with
    | Js.Reject message => Js.Reject message
    | Js.Resolve response =>
        if negb (or_ok response) then
          let errorBody := or_text response in
          Js.Reject ("Failed to place order: "
                     ++ numberToString (or_status response) ++ " "
                     ++ or_statusText response ++ " - " ++ errorBody)%string
        else
          let locationHeader := or_location response in
          let orderId := orderIdOfLocation locationHeader in
          Js.Resolve orderId
    end.

End Rendering.

(* ===================================================================== *)
(** ** [getPutCreditSpreads] with the errors of the platform *)
(* ===================================================================== *)

(** The loops of [getPutCreditSpreads] once more, this time with what
    JavaScript does when a property is read off a value that is not
    there: [m[2]] throws a [TypeError] when [m] is [null], the result of
    [exec] on a symbol that the pattern rejects, whereas [m?.[2]] gives
    [undefined].  On positions of the declared type nothing else that the
    loops do can throw: comparisons, [filter], [includes], [slice],
    [parseInt], the arithmetic, the operations of [Map] and the [Date]
    constructor are total.  An exception leaves the [async] method as a
    rejected promise. *)
Module Throwing.

Definition bind {X Y : Type} (o : Js.Outcome X) (k : X -> Js.Outcome Y)
  : Js.Outcome Y :=
  match o with
  | Js.Resolve x => k x
  | Js.Reject message => Js.Reject message
  end.

(** [for (const x of l) body], on the state that the body updates. *)
Fixpoint forOf {X S : Type} (body : S -> X -> Js.Outcome S) (l : list X)
         (state : S) : Js.Outcome S :=
  match l with
  | [] => Js.Resolve state
  | x :: r => bind (body state x) (forOf body r)
  end.

(** [!m] on the result of [exec] *)
Definition isNull {M : Type} (m : option M) : bool :=
  match m with None => true | Some _ => false end.

(** [match[2]] *)
Definition symbolGroup2 (match_ : option SymbolMatch) : Js.Outcome string :=
  match match_ with
  | Some m => Js.Resolve (sm_expiry m)
  | None => Js.Reject "TypeError: Cannot read properties of null (reading '2')"
  end.

(** [m?.[2]]; [None] is [undefined]. *)
Definition putGroup2Optional (m : option PutMatch) : option string :=
  match m with
  | Some m => Some (pm_strike m)
  | None => None
  end.

(** [m[2]] *)
Definition putGroup2 (m : option PutMatch) : Js.Outcome string :=
  match m with
  | Some m => Js.Resolve (pm_strike m)
  | None => Js.Reject "TypeError: Cannot read properties of null (reading '2')"
  end.

(** [!g] on [m?.[2]] *)
Definition isFalsy (g : option string) : bool :=
  match g with
  | Some text => negb (Js.truthyString text)
  | None => true
  end.

(** The body of the loop that fills [byExpiry]. *)
Definition groupStep (byExpiry : JSMap.t (list SchwabPosition.t))
           (pos : SchwabPosition.t)
  : Js.Outcome (JSMap.t (list SchwabPosition.t)) :=
  let optionSymbol := symbolOf pos in
  let match_ := execSymbol optionSymbol in
  if isNull match_ then Js.Resolve byExpiry
  else
    bind (symbolGroup2 match_) (fun expiryKey =>
    if negb (Js.truthyString expiryKey) then Js.Resolve byExpiry
    else
      let existing :=
        match JSMap.get expiryKey byExpiry with
        | Some l => l
        | None => []
        end in
      Js.Resolve (JSMap.set expiryKey (existing ++ [pos]) byExpiry)).

(** Body of [for (const longPut of longPuts)]. *)
Definition longPutStep (symbol expiryKey : string)
           (shortPut : SchwabPosition.t) (shortStrike : number)
           (spreads : list PutCreditSpread.t) (longPut : SchwabPosition.t)
  : Js.Outcome (list PutCreditSpread.t) :=
  let longMatch := execPut (symbolOf longPut) in
  if isFalsy (putGroup2Optional longMatch) then Js.Resolve spreads
  else
    bind (putGroup2 longMatch) (fun digits =>
    let longStrike := Num.div (parseInt digits) (Num.ofZ 1000) in
    if Num.ltb longStrike shortStrike
    then Js.Resolve
           (spreads ++ [makeSpread (fun p => p) symbol expiryKey
                                   shortPut shortStrike longPut longStrike])
    else Js.Resolve spreads).

(** Body of [for (const shortPut of shortPuts)]. *)
Definition shortPutStep (symbol expiryKey : string)
           (longPuts : list SchwabPosition.t)
           (spreads : list PutCreditSpread.t) (shortPut : SchwabPosition.t)
  : Js.Outcome (list PutCreditSpread.t) :=
  let shortMatch := execPut (symbolOf shortPut) in
  if isFalsy (putGroup2Optional shortMatch) then Js.Resolve spreads
  else
    bind (putGroup2 shortMatch) (fun digits =>
    let shortStrike := Num.div (parseInt digits) (Num.ofZ 1000) in
    forOf (longPutStep symbol expiryKey shortPut shortStrike)
          longPuts spreads).

(** Body of [for (const [expiryKey, expiryPositions] of byExpiry)]. *)
Definition expiryStep (symbol : string) (spreads : list PutCreditSpread.t)
           (entry : string * list SchwabPosition.t)
  : Js.Outcome (list PutCreditSpread.t) :=
  let '(expiryKey, expiryPositions) := entry in
  let puts := filter (isPut (fun p => p)) expiryPositions in
  let shortPuts := filter (isShort (fun p => p)) puts in
  let longPuts := filter (isLong (fun p => p)) puts in
  forOf (shortPutStep symbol expiryKey longPuts) shortPuts spreads.

(** Body of [for (const account of accounts)]. *)
Definition accountStep (symbol : string) (spreads : list PutCreditSpread.t)
           (account : SchwabAccount.t)
  : Js.Outcome (list PutCreditSpread.t) :=
  let positions :=
    SecuritiesAccount.positions (SchwabAccount.securitiesAccount account) in
  let optionPositions :=
    filter (isOptionOn (fun p => p) symbol) positions in
  bind (forOf groupStep optionPositions JSMap.empty) (fun byExpiry =>
  forOf (expiryStep symbol) (JSMap.entries byExpiry) spreads).

(** [getPutCreditSpreads(symbol)], on the account list of the response,
    with the outcome of the promise it returns. *)
Definition getPutCreditSpreads (accounts : list SchwabAccount.t)
           (symbol : string) : Js.Outcome (list PutCreditSpread.t) :=
  forOf (accountStep symbol) accounts [].

End Throwing.

(* ===================================================================== *)
(** ** The time value of a date *)
(* ===================================================================== *)

(** What the [Date] constructor makes of year, month index and day
    (ECMAScript, "Date Objects").  [Date.UTC(year, month, day)] is the
    time value of midnight UTC of that day, in milliseconds since 1970;
    [new Date(year, month, day)] takes that midnight as a local time of
    the platform and converts it to UTC with the offset of the zone of
    the platform, a function of the local time that the model takes as
    given.  [None] is [NaN], the time value of an invalid date. *)
Module Date.

Definition msPerDay : Z := 86400000.

(** [ToIntegerOrInfinity] on a finite number: truncation towards zero;
    [None] on [NaN] and the infinities, on which [MakeDay] gives
    [NaN]. *)
Definition truncate (x : number) : option Z :=
  match x with
  | S754_zero _ => Some 0%Z
  | S754_finite sign m e =>
      let magnitude :=
        if (0 <=? e)%Z then (Z.pos m * 2 ^ e)%Z
        else (Z.pos m / 2 ^ (- e))%Z in
      Some (if sign then (- magnitude)%Z else magnitude)
  | S754_infinity _ | S754_nan => None
  end.

(** [DayFromYear(y)] *)
Definition dayFromYear (y : Z) : Z :=
  (365 * (y - 1970) + (y - 1969) / 4 - (y - 1901) / 100
   + (y - 1601) / 400)%Z.

Definition inLeapYear (y : Z) : bool :=
  ((y mod 4 =? 0) && (negb (y mod 100 =? 0) || (y mod 400 =? 0)))%Z.

(** The days of the year before the first day of month [mn], 0 for
    January. *)
Definition daysBeforeMonth (leap : bool) (mn : Z) : Z :=
  (nth (Z.to_nat mn) [0; 31; 59; 90; 120; 151; 181; 212; 243; 273; 304; 334] 0
   + (if leap && (2 <=? mn) then 1 else 0))%Z.

(** [MakeDay(year, month, date)] on integers: months outside 0..11 carry
    into the year, and the day counts on from the first of the month. *)
Definition makeDay (year month date : Z) : Z :=
  let ym := (year + month / 12)%Z in
  let mn := (month mod 12)%Z in
  (dayFromYear ym + daysBeforeMonth (inLeapYear ym) mn + date - 1)%Z.

(** [MakeFullYear(y)] *)
Definition makeFullYear (y : Z) : Z :=
  if ((0 <=? y) && (y <=? 99))%Z then (1900 + y)%Z else y.

(** [TimeClip(t)] *)
Definition timeClip (t : Z) : option Z :=
  if (Z.abs t >? 8640000000000000)%Z then None else Some t.

(** [Date.UTC(year, month, date)] *)
Definition UTC (year month date : Z) : option Z :=
  timeClip (makeDay (makeFullYear year) month date * msPerDay).

(** The time value of [new Date(year, month, date)], with
    [localOffset t] the offset from UTC, in milliseconds, that the zone
    of the platform has at the local time [t]. *)
Definition ofLocal (localOffset : Z -> Z) (year month date : Z) : option Z :=
  let t := (makeDay (makeFullYear year) month date * msPerDay)%Z in
  timeClip (t - localOffset t).

(** [d.getTime()] for a date built by the local-time constructor. *)
Definition getTime (localOffset : Z -> Z) (d : LocalDate.t) : option Z :=
  match truncate (LocalDate.year d), truncate (LocalDate.monthIndex d),
        truncate (LocalDate.day d) with
  | Some year, Some month, Some date => ofLocal localOffset year month date
  | _, _, _ => None
  end.

End Date.

(* ===================================================================== *)
(** ** Vocabulary of the further statements *)
(* ===================================================================== *)

(** The account without the positions whose underlying is not
    [symbol]. *)
Definition dropOtherUnderlyings (symbol : string) (account : SchwabAccount.t)
  : SchwabAccount.t :=
  withPositions account
    (filter (fun p =>
               match Instrument.underlyingSymbol (SchwabPosition.instrument p) with
               | Some u => String.eqb u symbol
               | None => false
               end)
            (positionsOf account)).

(** The expiry keys of the elements of a list that have one, in the order
    of the list. *)
Definition expiryKeysOf {A : Type} (pos : A -> SchwabPosition.t) (l : list A)
  : list string :=
  flat_map (fun a => match expiryKeyOf pos a with
                     | Some k => [k]
                     | None => []
                     end) l.

(** The keys that a run of the grouping loop adds to those it starts
    with. *)
Fixpoint addKeys (seen ks : list string) : list string :=
  match ks with
  | [] => seen
  | k :: r =>
      if existsb (String.eqb k) seen then addKeys seen r
      else addKeys (seen ++ [k]) r
  end.

(** The pattern of the code in words: a symbol is made of one or more
    word characters, white space that may be missing, exactly six digits,
    a P or a C, and one or more digits up to its end. *)
Definition matchesSymbolPattern (s : string) : Prop :=
  exists underlying padding date marker strike,
    chars s = underlying ++ padding ++ date ++ marker :: strike
    /\ underlying <> [] /\ forallb Chars.isWord underlying = true
    /\ forallb Chars.isSpace padding = true
    /\ List.length date = 6 /\ forallb Chars.isDigit date = true
    /\ Chars.isPC marker = true
    /\ strike <> [] /\ forallb Chars.isDigit strike = true.

(** The fixed encoding as the specification words it: the underlying,
    whatever its characters are, white-space padding, the 6-digit date, P
    or C, and a strike of 8 digits. *)
Definition matchesFixedEncoding (s : string) : Prop :=
  exists underlying padding date marker strike,
    chars s = underlying ++ padding ++ date ++ marker :: strike
    /\ underlying <> []
    /\ forallb Chars.isSpace padding = true
    /\ List.length date = 6 /\ forallb Chars.isDigit date = true
    /\ Chars.isPC marker = true
    /\ List.length strike = 8 /\ forallb Chars.isDigit strike = true.

(** The account with the positions that [keep] rejects erased. *)
Definition keepPositions (keep : SchwabPosition.t -> bool)
           (account : SchwabAccount.t) : SchwabAccount.t :=
  withPositions account (filter keep (positionsOf account)).

(** The account without its calls. *)
Definition dropCalls (account : SchwabAccount.t) : SchwabAccount.t :=
  keepPositions (fun p => negb (isCallSymbol (symbolOf p))) account.

(** Two puts whose strike is written with four digits. *)
Definition short5900of4 : SchwabPosition.t :=
  Sample.optionPosition "SPX" "SPX   241220P5900"
                        (Num.ofZ 1) Sample.zero (Num.dec 1250 2).

Definition long5800of4 : SchwabPosition.t :=
  Sample.optionPosition "SPX" "SPX   241220P5800"
                        Sample.zero (Num.ofZ 1) (Num.dec 700 2).

(** Every position of every account, in order. *)
Definition allPositionsOf (accounts : list SchwabAccount.t)
  : list SchwabPosition.t :=
  flat_map positionsOf accounts.

(** The characters of a percent-encoded text: unreserved characters, the
    percent sign and upper-case hexadecimal digits. *)
Definition isEncodedChar (c : ascii) : bool :=
  Js.isUnreserved c || Ascii.eqb c "%"
  || Chars.isDigit c || ((65 <=? Chars.code c) && (Chars.code c <=? 70)).

(** [p] ends a path segment: it is empty or ends with a slash. *)
Definition endsSegment (p : string) : Prop :=
  p = EmptyString \/ exists p', p = (p' ++ "/")%string.

(** Sample quotes and contracts. *)
Module QuoteSample.

Definition data (mark lastPrice : Js.Field number) : SchwabQuoteData.t :=
  {| SchwabQuoteData.week52High := Js.Undefined;
     SchwabQuoteData.week52Low := Js.Undefined;
     SchwabQuoteData.askPrice := Js.Undefined;
     SchwabQuoteData.askSize := Js.Undefined;
     SchwabQuoteData.bidPrice := Js.Undefined;
     SchwabQuoteData.bidSize := Js.Undefined;
     SchwabQuoteData.closePrice := Js.Undefined;
     SchwabQuoteData.highPrice := Js.Undefined;
     SchwabQuoteData.lowPrice := Js.Undefined;
     SchwabQuoteData.lastPrice := lastPrice;
     SchwabQuoteData.lastSize := Js.Undefined;
     SchwabQuoteData.mark := mark;
     SchwabQuoteData.markChange := Js.Undefined;
     SchwabQuoteData.markPercentChange := Js.Undefined;
     SchwabQuoteData.netChange := Js.Undefined;
     SchwabQuoteData.netPercentChange := Js.Undefined;
     SchwabQuoteData.openPrice := Js.Undefined;
     SchwabQuoteData.totalVolume := Js.Undefined;
     SchwabQuoteData.tradeTime := Js.Undefined;
     SchwabQuoteData.quoteTime := Js.Undefined;
     SchwabQuoteData.securityStatus := Js.Undefined;
     SchwabQuoteData.volatility := Js.Undefined;
     SchwabQuoteData.delta := Js.Undefined;
     SchwabQuoteData.gamma := Js.Undefined;
     SchwabQuoteData.theta := Js.Undefined;
     SchwabQuoteData.vega := Js.Undefined;
     SchwabQuoteData.rho := Js.Undefined;
     SchwabQuoteData.openInterest := Js.Undefined;
     SchwabQuoteData.underlyingPrice := Js.Undefined |}.

Definition reference : SchwabQuoteReference.t :=
  {| SchwabQuoteReference.cusip := None;
     SchwabQuoteReference.description := "13 WEEK TREASURY BILL";
     SchwabQuoteReference.exchange := "IND";
     SchwabQuoteReference.exchangeName := "Index";
     SchwabQuoteReference.otcMarketTier := None;
     SchwabQuoteReference.contractType := None;
     SchwabQuoteReference.daysToExpiration := None;
     SchwabQuoteReference.expirationDay := None;
     SchwabQuoteReference.expirationMonth := None;
     SchwabQuoteReference.expirationYear := None;
     SchwabQuoteReference.strikePrice := None;
     SchwabQuoteReference.underlying := None;
     SchwabQuoteReference.multiplier := None |}.

(** A quote of an index with the given [mark] and [lastPrice]. *)
Definition indexWith (symbol : string) (mark lastPrice : Js.Field number)
  : SchwabQuoteResponse.t :=
  {| SchwabQuoteResponse.assetMainType := MainINDEX;
     SchwabQuoteResponse.assetSubType := None;
     SchwabQuoteResponse.symbol := symbol;
     SchwabQuoteResponse.quoteType := None;
     SchwabQuoteResponse.realtime := true;
     SchwabQuoteResponse.ssid := Num.ofZ 0;
     SchwabQuoteResponse.reference := reference;
     SchwabQuoteResponse.quote := data mark lastPrice;
     SchwabQuoteResponse.regular := None;
     SchwabQuoteResponse.fundamental := None |}.

(** The same with [mark] and [lastPrice] present or missing. *)
Definition index (symbol : string) (mark lastPrice : option number)
  : SchwabQuoteResponse.t :=
  indexWith symbol (Js.fieldOfOption mark) (Js.fieldOfOption lastPrice).

(** A contract with the given side, strike, bid and ask. *)
Definition contract (putCall : PutCall) (symbol : string)
           (strike bid ask : number) : SchwabOptionContract.t :=
  {| SchwabOptionContract.putCall := putCall;
     SchwabOptionContract.symbol := symbol;
     SchwabOptionContract.description := symbol;
     SchwabOptionContract.exchangeName := "OPR";
     SchwabOptionContract.bid := bid;
     SchwabOptionContract.ask := ask;
     SchwabOptionContract.last := Num.ofZ 0;
     SchwabOptionContract.mark := Num.ofZ 0;
     SchwabOptionContract.bidSize := Num.ofZ 0;
     SchwabOptionContract.askSize := Num.ofZ 0;
     SchwabOptionContract.lastSize := Num.ofZ 0;
     SchwabOptionContract.highPrice := Num.ofZ 0;
     SchwabOptionContract.lowPrice := Num.ofZ 0;
     SchwabOptionContract.openPrice := Num.ofZ 0;
     SchwabOptionContract.closePrice := Num.ofZ 0;
     SchwabOptionContract.totalVolume := Num.ofZ 0;
     SchwabOptionContract.tradeDate := None;
     SchwabOptionContract.delta := Num.ofZ 0;
     SchwabOptionContract.gamma := Num.ofZ 0;
     SchwabOptionContract.theta := Num.ofZ 0;
     SchwabOptionContract.vega := Num.ofZ 0;
     SchwabOptionContract.rho := Num.ofZ 0;
     SchwabOptionContract.openInterest := Num.ofZ 0;
     SchwabOptionContract.strikePrice := strike;
     SchwabOptionContract.expirationDate := "2024-12-20T21:00:00.000+00:00";
     SchwabOptionContract.daysToExpiration := Num.ofZ 30;
     SchwabOptionContract.expirationType := "S";
     SchwabOptionContract.multiplier := Num.ofZ 100;
     SchwabOptionContract.settlementType := "P";
     SchwabOptionContract.inTheMoney := false |}.

(** A chain response with one call and one put at the strike 5900 and a
    put at 5800, all under one date. *)
Definition chain : SchwabOptionChainResponse.t :=
  {| SchwabOptionChainResponse.symbol := "SPX";
     SchwabOptionChainResponse.status := "SUCCESS";
     SchwabOptionChainResponse.underlying := None;
     SchwabOptionChainResponse.putExpDateMap :=
       Some [("2024-12-20:30"%string,
              [("5900.0"%string,
                [contract PUT "SPXW  241220P05900000" (Num.ofZ 5900)
                          (Num.ofZ 12) (Num.ofZ 13)]);
               ("5800.0"%string,
                [contract PUT "SPXW  241220P05800000" (Num.ofZ 5800)
                          (Num.ofZ 0) (Num.ofZ 5)])])];
     SchwabOptionChainResponse.callExpDateMap :=
       Some [("2024-12-20:30"%string,
              [("5900.0"%string,
                [contract CALL "SPXW  241220C05900000" (Num.ofZ 5900)
                          (Num.ofZ 20) (Num.ofZ 21)])])] |}.

End QuoteSample.

(* ===================================================================== *)
(** ** Facts about numbers *)
(* ===================================================================== *)

Module NumFacts.

(** [x <= y] excludes [y < x], also when an operand is [NaN]. *)
Lemma leb_not_gtb (x y : number) :
  Num.leb x y = true -> Num.ltb y x = false.
Proof.
  unfold Num.leb, Num.ltb, SFleb, SFltb, SFcompare.
  destruct x as [sx|sx| |sx mx ex], y as [sy|sy| |sy my ey];
    try destruct sx; try destruct sy; simpl; try congruence.
  - rewrite (Z.compare_antisym ex ey).
    change (Pos.compare_cont Eq my mx) with (Pos.compare my mx).
    change (Pos.compare_cont Eq mx my) with (Pos.compare mx my).
    rewrite (Pos.compare_antisym mx my).
    destruct (ex ?= ey)%Z; simpl; try congruence.
    destruct (mx ?= my)%positive; simpl; congruence.
  - rewrite (Z.compare_antisym ex ey).
    change (Pos.compare_cont Eq my mx) with (Pos.compare my mx).
    change (Pos.compare_cont Eq mx my) with (Pos.compare mx my).
    rewrite (Pos.compare_antisym mx my).
    destruct (ex ?= ey)%Z; simpl; try congruence.
    destruct (mx ?= my)%positive; simpl; congruence.
Qed.

(** [x >= y] excludes [x < y]. *)
Lemma geb_not_ltb (x y : number) :
  Num.geb x y = true -> Num.ltb x y = false.
Proof. unfold Num.geb. apply leb_not_gtb. Qed.

End NumFacts.

(* ===================================================================== *)
(** ** Facts about the matchers *)
(* ===================================================================== *)

Module ReFacts.
Import Re.

Lemma bind_In A B (m : Matcher A) (k : A -> Matcher B) s b r :
  In (b, r) (bind m k s) <->
  exists a r', In (a, r') (m s) /\ In (b, r) (k a r').
Proof.
  unfold bind. rewrite in_flat_map. split.
  - intros [[a r'] [H1 H2]]. eauto.
  - intros (a & r' & H1 & H2). exists (a, r'). auto.
Qed.

Lemma ret_In A (a a' : A) s r : In (a', r) (ret a s) <-> a' = a /\ r = s.
Proof.
  unfold ret. simpl. split.
  - intros [H|[]]. inversion H; auto.
  - intros [-> ->]; auto.
Qed.

Lemma cls_In f s c r : In (c, r) (cls f s) <-> s = c :: r /\ f c = true.
Proof.
  unfold cls. destruct s as [|c' s']; simpl.
  - split; [tauto | intros [H _]; discriminate].
  - destruct (f c') eqn:E; simpl.
    + split.
      * intros [H|[]]; inversion H; subst; auto.
      * intros [H1 H2]; inversion H1; subst; auto.
    + split; [tauto|]. intros [H1 H2]; inversion H1; subst; congruence.
Qed.

Lemma star_In f s a r :
  In (a, r) (star f s) <-> s = a ++ r /\ forallb f a = true.
Proof.
  revert a r. induction s as [|c s IH]; intros a r; simpl.
  - split.
    + intros [H|[]]; inversion H; auto.
    + intros [H _]. symmetry in H. apply app_eq_nil in H as [-> ->]. auto.
  - destruct (f c) eqn:E.
    + rewrite in_app_iff, in_map_iff. split.
      * intros [[[a' r'] [H1 H2]] | [H|[]]].
        -- inversion H1; subst. apply IH in H2 as [-> H2].
           simpl. rewrite E, H2. auto.
        -- inversion H; subst. auto.
      * intros [H1 H2]. destruct a as [|c' a]; simpl in *.
        -- right. left. subst; auto.
        -- inversion H1; subst. apply andb_true_iff in H2 as [_ H2].
           left. exists (a, r). split; auto. apply IH. auto.
    + split.
      * intros [H|[]]; inversion H; auto.
      * intros [H1 H2]. destruct a as [|c' a]; simpl in *.
        -- left; subst; auto.
        -- inversion H1; subst. rewrite E in H2. discriminate.
Qed.

Lemma plus_In f s a r :
  In (a, r) (plus f s) <-> s = a ++ r /\ forallb f a = true /\ a <> [].
Proof.
  unfold plus. rewrite bind_In. split.
  - intros (c & r' & H1 & H2). apply cls_In in H1 as [-> Hc].
    apply bind_In in H2 as (cs & r'' & H2 & H3).
    apply star_In in H2 as [-> Hcs]. apply ret_In in H3 as [-> ->].
    simpl. rewrite Hc, Hcs. repeat split; congruence.
  - intros (-> & Ha & Hne). destruct a as [|c cs]; [congruence|].
    simpl in Ha. apply andb_true_iff in Ha as [Hc Hcs].
    exists c, (cs ++ r). split; [apply cls_In; auto|].
    apply bind_In. exists cs, r. split; [apply star_In; auto|].
    apply ret_In; auto.
Qed.

Lemma rep_In n f s a r :
  In (a, r) (rep n f s) <->
  s = a ++ r /\ forallb f a = true /\ List.length a = n.
Proof.
  revert s a r. induction n as [|n IH]; intros s a r.
  - change (rep 0 f s) with (ret (A:=list ascii) [] s).
    rewrite ret_In. split.
    + intros [-> ->]; auto.
    + intros (-> & _ & Hl). destruct a; [auto | discriminate].
  - change (rep (S n) f s)
      with (bind (cls f) (fun c => bind (rep n f) (fun cs => ret (c :: cs))) s).
    rewrite bind_In. split.
    + intros (c & r' & H1 & H2). apply cls_In in H1 as [-> Hc].
      apply bind_In in H2 as (cs & r'' & H2 & H3).
      apply IH in H2 as (-> & Hcs & Hl). apply ret_In in H3 as [-> ->].
      simpl. rewrite Hc, Hcs, Hl. auto.
    + intros (-> & Ha & Hl). destruct a as [|c cs]; [discriminate|].
      simpl in Ha, Hl. apply andb_true_iff in Ha as [Hc Hcs].
      exists c, (cs ++ r). split; [apply cls_In; auto|].
      apply bind_In. exists cs, r. split; [apply IH; auto|].
      apply ret_In; auto.
Qed.

Lemma eos_In s u r : In (u, r) (eos s) <-> s = [] /\ r = [].
Proof.
  unfold eos. destruct s; simpl.
  - split; [intros [H|[]]; inversion H; auto | destruct u; intros [_ ->]; auto].
  - split; [tauto | intros [H _]; discriminate].
Qed.

Lemma matchAtStart_Some A (m : Matcher A) s a :
  matchAtStart m s = Some a -> exists r, In (a, r) (m s).
Proof.
  unfold matchAtStart. destruct (m s) as [|[a' r] l]; [discriminate|].
  intros H; inversion H; subst. exists r. left; auto.
Qed.

Lemma search_Some A (m : Matcher A) s a :
  search m s = Some a ->
  exists pre t r, s = pre ++ t /\ In (a, r) (m t).
Proof.
  induction s as [|c s IH]; simpl.
  - destruct (m []) as [|[a' r] l] eqn:E; [discriminate|].
    intros H; inversion H; subst. exists [], [], r. rewrite E. simpl; auto.
  - destruct (m (c :: s)) as [|[a' r] l] eqn:E.
    + intros H. destruct (IH H) as (pre & t & r & -> & Hin).
      exists (c :: pre), t, r. auto.
    + intros H; inversion H; subst. exists [], (c :: s), r.
      rewrite E. simpl; auto.
Qed.

(** When every success of [m] on a suffix of [s] carries the same result
    and there is one, [search] reports it. *)
Lemma search_unique A (m : Matcher A) s a :
  (forall pre t r a', s = pre ++ t -> In (a', r) (m t) -> a' = a) ->
  (exists pre t r, s = pre ++ t /\ In (a, r) (m t)) ->
  search m s = Some a.
Proof.
  induction s as [|c s IH]; intros Hall (pre & t & r & Hs & Hin); simpl.
  - symmetry in Hs. apply app_eq_nil in Hs as [-> ->].
    destruct (m []) as [|[a' r'] l] eqn:E; [destruct Hin|].
    f_equal. apply (Hall [] [] r'); auto. rewrite E. left; auto.
  - destruct (m (c :: s)) as [|[a' r'] l] eqn:E.
    + apply IH.
      * intros pre' t' r' a' -> Hin'. apply (Hall (c :: pre') t' r'); auto.
      * destruct pre as [|c' pre]; simpl in Hs.
        -- subst t. rewrite E in Hin. destruct Hin.
        -- inversion Hs; subst. eauto.
    + f_equal. apply (Hall [] (c :: s) r'); auto. rewrite E. left; auto.
Qed.

End ReFacts.

(* ===================================================================== *)
(** ** Facts about option symbols *)
(* ===================================================================== *)

Module SymbolFacts.
Import Re ReFacts.

Lemma str_chars s : str (chars s) = s.
Proof. apply string_of_list_ascii_of_string. Qed.

Lemma chars_str l : chars (str l) = l.
Proof. apply list_ascii_of_string_of_list_ascii. Qed.

Lemma isP_eq c : Chars.isP c = true -> c = "P"%char.
Proof. unfold Chars.isP. apply Ascii.eqb_eq. Qed.

Lemma isPC_cases c :
  Chars.isPC c = true -> c = "P"%char \/ c = "C"%char.
Proof.
  unfold Chars.isPC. intros H. apply orb_true_iff in H.
  destruct H as [H|H]; apply Ascii.eqb_eq in H; auto.
Qed.

Lemma isPC_not_digit c : Chars.isPC c = true -> Chars.isDigit c = false.
Proof. intros H. destruct (isPC_cases c H); subst; reflexivity. Qed.

(** The last character of a string that is not a digit splits it in one
    way only. *)
Lemma last_nondigit_unique (a a' : list ascii) c c' d d' :
  a ++ c :: d = a' ++ c' :: d' ->
  Chars.isDigit c = false -> Chars.isDigit c' = false ->
  forallb Chars.isDigit d = true -> forallb Chars.isDigit d' = true ->
  a = a' /\ c = c' /\ d = d'.
Proof.
  revert a'. induction a as [|x a IH]; intros [|y a'] E Hc Hc' Hd Hd';
    simpl in E; inversion E; subst.
  - auto.
  - rewrite forallb_app in Hd. simpl in Hd. rewrite Hc' in Hd.
    rewrite andb_false_r in Hd. discriminate.
  - rewrite forallb_app in Hd'. simpl in Hd'. rewrite Hc in Hd'.
    rewrite andb_false_r in Hd'. discriminate.
  - destruct (IH a' H1 Hc Hc' Hd Hd') as (-> & -> & ->). auto.
Qed.

Lemma app_inj_length {X} (a b a' b' : list X) :
  a ++ b = a' ++ b' -> List.length b = List.length b' -> a = a' /\ b = b'.
Proof.
  revert a'. induction a as [|x a IH]; intros [|y a'] E L; simpl in E.
  - auto.
  - subst b. rewrite length_cons, length_app in L. lia.
  - subst b'. rewrite length_cons, length_app in L. lia.
  - inversion E; subst. destruct (IH a' H1 L) as [-> ->]. auto.
Qed.

(** What a match of [/^(\w+)\s*(\d{6})([PC])(\d+)$/] says about the
    symbol. *)
Lemma execSymbol_inv s m :
  execSymbol s = Some m ->
  exists g1 ws g2 g3 g4,
    chars s = g1 ++ ws ++ g2 ++ g3 :: g4
    /\ m = mkSymbolMatch (str g1) (str g2) (str [g3]) (str g4)
    /\ forallb Chars.isWord g1 = true /\ g1 <> []
    /\ forallb Chars.isSpace ws = true
    /\ forallb Chars.isDigit g2 = true /\ List.length g2 = 6
    /\ Chars.isPC g3 = true
    /\ forallb Chars.isDigit g4 = true /\ g4 <> [].
Proof.
  unfold execSymbol. intros H. apply matchAtStart_Some in H as [r H].
  unfold symbolPattern in H.
  apply bind_In in H as (g1 & r1 & H1 & H).
  apply bind_In in H as (ws & r2 & H2 & H).
  apply bind_In in H as (g2 & r3 & H3 & H).
  apply bind_In in H as (g3 & r4 & H4 & H).
  apply bind_In in H as (g4 & r5 & H5 & H).
  apply bind_In in H as (u & r6 & H6 & H).
  apply ret_In in H as [-> ->].
  apply plus_In in H1 as (E1 & W1 & N1).
  apply star_In in H2 as (E2 & W2).
  apply rep_In in H3 as (E3 & W3 & L3).
  apply cls_In in H4 as (E4 & W4).
  apply plus_In in H5 as (E5 & W5 & N5).
  apply eos_In in H6 as (E6 & _).
  exists g1, ws, g2, g3, g4. subst. rewrite app_nil_r in E1.
  repeat split; auto.
Qed.

Lemma putPattern_In t m r :
  In (m, r) (putPattern t) <->
  exists g1 g2,
    t = g1 ++ "P"%char :: g2 /\ r = []
    /\ m = mkPutMatch (str g1) (str g2)
    /\ forallb Chars.isDigit g1 = true /\ List.length g1 = 6
    /\ forallb Chars.isDigit g2 = true /\ g2 <> [].
Proof.
  unfold putPattern. split.
  - intros H.
    apply bind_In in H as (g1 & r1 & H1 & H).
    apply bind_In in H as (p & r2 & H2 & H).
    apply bind_In in H as (g2 & r3 & H3 & H).
    apply bind_In in H as (u & r4 & H4 & H).
    apply ret_In in H as [-> ->].
    apply rep_In in H1 as (E1 & W1 & L1).
    apply cls_In in H2 as (E2 & W2). apply isP_eq in W2.
    apply plus_In in H3 as (E3 & W3 & N3).
    apply eos_In in H4 as (E4 & E4').
    exists g1, g2. subst. rewrite app_nil_r. repeat split; auto.
  - intros (g1 & g2 & -> & -> & -> & W1 & L1 & W2 & N2).
    apply bind_In. exists g1, ("P"%char :: g2).
    split; [apply rep_In; auto|].
    apply bind_In. exists "P"%char, g2. split; [apply cls_In; auto|].
    apply bind_In. exists g2, []. split.
    { apply plus_In. rewrite app_nil_r. auto. }
    apply bind_In. exists tt, []. split; [apply eos_In; auto|].
    apply ret_In; auto.
Qed.

(** What a match of [/(\d{6})P(\d+)$/] says about the symbol. *)
Lemma execPut_inv s pm :
  execPut s = Some pm ->
  exists pre g1 g2,
    chars s = pre ++ g1 ++ "P"%char :: g2
    /\ pm = mkPutMatch (str g1) (str g2)
    /\ forallb Chars.isDigit g1 = true /\ List.length g1 = 6
    /\ forallb Chars.isDigit g2 = true /\ g2 <> [].
Proof.
  unfold execPut. intros H.
  apply search_Some in H as (pre & t & r & E & H).
  apply putPattern_In in H as (g1 & g2 & -> & _ & H).
  exists pre, g1, g2. tauto.
Qed.

Lemma isWord_not_space c : Chars.isWord c = true -> Chars.isSpace c = false.
Proof.
  unfold Chars.isWord, Chars.isDigit, Chars.isSpace.
  generalize (Chars.code c). intros n H.
  destruct ((9 <=? n) && (n <=? 13) || (n =? 32) || (n =? 160)) eqn:E;
    [exfalso | reflexivity].
  repeat (apply orb_true_iff in H; destruct H as [H|H]);
    repeat (apply orb_true_iff in E; destruct E as [E|E]);
    repeat match goal with
           | X : (_ && _) = true |- _ => apply andb_true_iff in X; destruct X
           | X : (_ <=? _) = true |- _ => apply Nat.leb_le in X
           | X : (_ =? _) = true |- _ => apply Nat.eqb_eq in X
           end; lia.
Qed.

(** A run of word characters followed by a run of white space splits in
    one way only. *)
Lemma word_space_unique (a a' b b' : list ascii) :
  a ++ b = a' ++ b' ->
  forallb Chars.isWord a = true -> forallb Chars.isWord a' = true ->
  forallb Chars.isSpace b = true -> forallb Chars.isSpace b' = true ->
  a = a' /\ b = b'.
Proof.
  revert a'. induction a as [|x a IH]; intros [|y a'] E Wa Wa' Sb Sb';
    simpl in *.
  - auto.
  - subst b. simpl in Sb. apply andb_true_iff in Wa' as [Wy _].
    rewrite (isWord_not_space y Wy) in Sb. discriminate.
  - subst b'. simpl in Sb'. apply andb_true_iff in Wa as [Wx _].
    rewrite (isWord_not_space x Wx) in Sb'. discriminate.
  - inversion E; subst. apply andb_true_iff in Wa as [_ Wa].
    apply andb_true_iff in Wa' as [_ Wa'].
    destruct (IH a' H1 Wa Wa' Sb Sb') as [-> ->]. auto.
Qed.

(** The pattern [/^(\w+)\s*(\d{6})([PC])(\d+)$/] matches exactly the symbols
    made of a non-empty run of word characters, white space, six digits,
    a P or a C and a non-empty run of digits, and its groups are these
    parts. *)
Lemma execSymbol_iff s m :
  execSymbol s = Some m <->
  exists g1 ws g2 g3 g4,
    chars s = g1 ++ ws ++ g2 ++ g3 :: g4
    /\ m = mkSymbolMatch (str g1) (str g2) (str [g3]) (str g4)
    /\ forallb Chars.isWord g1 = true /\ g1 <> []
    /\ forallb Chars.isSpace ws = true
    /\ forallb Chars.isDigit g2 = true /\ List.length g2 = 6
    /\ Chars.isPC g3 = true
    /\ forallb Chars.isDigit g4 = true /\ g4 <> [].
Proof.
  split; [apply execSymbol_inv|].
  intros (g1 & ws & g2 & g3 & g4 & E & -> & W1 & N1 & W2 & W3 & L3 & W4 & W5 & N5).
  assert (Hin : In (mkSymbolMatch (str g1) (str g2) (str [g3]) (str g4), [])
                   (symbolPattern (chars s))).
  { rewrite E. unfold symbolPattern.
    apply bind_In. exists g1, (ws ++ g2 ++ g3 :: g4).
    split; [apply plus_In; auto|].
    apply bind_In. exists ws, (g2 ++ g3 :: g4). split; [apply star_In; auto|].
    apply bind_In. exists g2, (g3 :: g4). split; [apply rep_In; auto|].
    apply bind_In. exists g3, g4. split; [apply cls_In; auto|].
    apply bind_In. exists g4, []. split.
    { apply plus_In. rewrite app_nil_r. auto. }
    apply bind_In. exists tt, []. split; [apply eos_In; auto|].
    apply ret_In; auto. }
  destruct (execSymbol s) as [m'|] eqn:Em.
  - apply execSymbol_inv in Em
      as (h1 & vs & h2 & h3 & h4 & E' & -> & V1 & M1 & V2 & V3 & K3 & V4 & V5 & M5).
    rewrite E in E'.
    replace (g1 ++ ws ++ g2 ++ g3 :: g4)
      with (((g1 ++ ws) ++ g2) ++ g3 :: g4) in E'
      by (rewrite <- !app_assoc; reflexivity).
    replace (h1 ++ vs ++ h2 ++ h3 :: h4)
      with (((h1 ++ vs) ++ h2) ++ h3 :: h4) in E'
      by (rewrite <- !app_assoc; reflexivity).
    apply last_nondigit_unique in E' as (Ea & -> & ->);
      auto using isPC_not_digit.
    apply app_inj_length in Ea as [Ea ->]; [|congruence].
    apply word_space_unique in Ea as [-> _]; auto.
  - unfold execSymbol, matchAtStart in Em.
    destruct (symbolPattern (chars s)) as [|[a r] rest]; [destruct Hin|].
    discriminate.
Qed.

(** A symbol that carries the P marker matches the put pattern, with the
    same expiry code and the same strike digits. *)
Lemma execPut_of_put s m :
  execSymbol s = Some m -> sm_putCall m = "P"%string ->
  execPut s = Some (mkPutMatch (sm_expiry m) (sm_strike m)).
Proof.
  intros H HP.
  apply execSymbol_inv in H
    as (g1 & ws & g2 & g3 & g4 & E & -> & W1 & N1 & W2 & W3 & L3 & W4 & W5 & N5).
  simpl in *. inversion HP; subst g3. clear HP.
  unfold execPut. apply search_unique.
  - intros pre t r a' Et Hin.
    apply putPattern_In in Hin as (h1 & h2 & -> & _ & -> & V1 & K1 & V2 & M2).
    rewrite E in Et.
    replace (g1 ++ ws ++ g2 ++ "P"%char :: g4)
      with ((g1 ++ ws ++ g2) ++ "P"%char :: g4) in Et
      by (rewrite <- !app_assoc; reflexivity).
    rewrite (app_assoc pre h1) in Et.
    apply last_nondigit_unique in Et as (Ea & _ & Ed); auto.
    subst h2. rewrite (app_assoc g1 ws g2) in Ea.
    apply app_inj_length in Ea as [_ Ea]; [|congruence]. subst; auto.
  - exists (g1 ++ ws), (g2 ++ "P"%char :: g4), []. split.
    + rewrite E, <- app_assoc. reflexivity.
    + apply putPattern_In. exists g2, g4. auto 10.
Qed.

(** A symbol that carries the C marker does not match the put pattern,
    whatever its ticker is. *)
Lemma execPut_of_call s m :
  execSymbol s = Some m -> sm_putCall m = "C"%string -> execPut s = None.
Proof.
  intros H HC.
  apply execSymbol_inv in H
    as (g1 & ws & g2 & g3 & g4 & E & -> & W1 & N1 & W2 & W3 & L3 & W4 & W5 & N5).
  simpl in *. inversion HC; subst g3. clear HC.
  destruct (execPut s) as [pm|] eqn:HP; [exfalso | reflexivity].
  apply execPut_inv in HP as (pre & h1 & h2 & E' & _ & V1 & K1 & V2 & M2).
  rewrite E in E'.
  replace (g1 ++ ws ++ g2 ++ "C"%char :: g4)
    with ((g1 ++ ws ++ g2) ++ "C"%char :: g4) in E'
    by (rewrite <- !app_assoc; reflexivity).
  rewrite (app_assoc pre h1) in E'.
  apply last_nondigit_unique in E' as (_ & Ec & _); auto.
  discriminate.
Qed.

(** The marker of a matched symbol is P or C. *)
Lemma putCall_cases s m :
  execSymbol s = Some m ->
  sm_putCall m = "P"%string \/ sm_putCall m = "C"%string.
Proof.
  intros H.
  apply execSymbol_inv in H
    as (g1 & ws & g2 & g3 & g4 & E & -> & W1 & N1 & W2 & W3 & L3 & W4 & W5 & N5).
  simpl. destruct (isPC_cases g3 W4); subst; auto.
Qed.

(** A symbol matched by both patterns carries the P marker. *)
Lemma putCall_of_execPut s m pm :
  execSymbol s = Some m -> execPut s = Some pm ->
  sm_putCall m = "P"%string
  /\ pm = mkPutMatch (sm_expiry m) (sm_strike m).
Proof.
  intros H HP. destruct (putCall_cases s m H) as [E|E].
  - split; auto. rewrite (execPut_of_put s m H E) in HP. congruence.
  - rewrite (execPut_of_call s m H E) in HP. discriminate.
Qed.

Lemma includesP_of_put s m :
  execSymbol s = Some m -> sm_putCall m = "P"%string -> includesP s = true.
Proof.
  intros H HP.
  apply execSymbol_inv in H
    as (g1 & ws & g2 & g3 & g4 & E & -> & W1 & N1 & W2 & W3 & L3 & W4 & W5 & N5).
  simpl in HP. inversion HP; subst g3.
  unfold includesP. rewrite E, !existsb_app. simpl.
  rewrite !orb_true_r. reflexivity.
Qed.

Lemma str_nonempty l : l <> [] -> String.eqb (str l) EmptyString = false.
Proof. destruct l; [congruence | reflexivity]. Qed.

(** The expiry code and the strike digits of a match are not empty. *)
Lemma sm_expiry_nonempty s m :
  execSymbol s = Some m -> String.eqb (sm_expiry m) EmptyString = false.
Proof.
  intros H.
  apply execSymbol_inv in H
    as (g1 & ws & g2 & g3 & g4 & E & -> & W1 & N1 & W2 & W3 & L3 & W4 & W5 & N5).
  simpl. apply str_nonempty. destruct g2; [discriminate | congruence].
Qed.

Lemma sm_strike_nonempty s m :
  execSymbol s = Some m -> String.eqb (sm_strike m) EmptyString = false.
Proof.
  intros H.
  apply execSymbol_inv in H
    as (g1 & ws & g2 & g3 & g4 & E & -> & W1 & N1 & W2 & W3 & L3 & W4 & W5 & N5).
  simpl. apply str_nonempty. auto.
Qed.

End SymbolFacts.

(* ===================================================================== *)
(** ** Facts about [Map] *)
(* ===================================================================== *)

Module JSMapFacts.
Import JSMap.

Lemma get_set_eq V k (v : V) m : get k (set k v m) = Some v.
Proof.
  induction m as [|[k' v'] m IH]; simpl.
  - rewrite String.eqb_refl. reflexivity.
  - destruct (String.eqb k k') eqn:E; simpl; rewrite E; auto.
Qed.

Lemma get_set_ne V k k' (v : V) m :
  k <> k' -> get k' (set k v m) = get k' m.
Proof.
  intros Hne. induction m as [|[k0 v0] m IH]; simpl.
  - destruct (String.eqb k' k) eqn:E; auto.
    apply String.eqb_eq in E. congruence.
  - destruct (String.eqb k k0) eqn:E; simpl.
    + apply String.eqb_eq in E. subst k0.
      destruct (String.eqb k' k) eqn:E'; [|reflexivity].
      apply String.eqb_eq in E'. congruence.
    + rewrite IH. reflexivity.
Qed.

Lemma get_None V k (m : t V) : get k m = None <-> ~ In k (keys m).
Proof.
  induction m as [|[k' v'] m IH]; simpl.
  - tauto.
  - destruct (String.eqb k k') eqn:E.
    + apply String.eqb_eq in E. subst. split; [discriminate | tauto].
    + apply String.eqb_neq in E. rewrite IH. split.
      * intros H [H'|H']; [congruence | tauto].
      * tauto.
Qed.

Lemma get_Some_In V k (v : V) m : get k m = Some v -> In (k, v) m.
Proof.
  induction m as [|[k' v'] m IH]; simpl; [discriminate|].
  destruct (String.eqb k k') eqn:E.
  - apply String.eqb_eq in E. intros H; inversion H; subst. auto.
  - auto.
Qed.

Lemma In_get V k (v : V) m :
  NoDup (keys m) -> In (k, v) m -> get k m = Some v.
Proof.
  induction m as [|[k' v'] m IH]; simpl; [tauto|].
  intros Hnd [H|H].
  - inversion H; subst. rewrite String.eqb_refl. reflexivity.
  - inversion Hnd; subst. destruct (String.eqb k k') eqn:E.
    + apply String.eqb_eq in E. subst. exfalso. apply H2.
      change k' with (fst (k', v)). apply in_map. exact H.
    + auto.
Qed.

Lemma keys_set V k (v : V) m :
  keys (set k v m) =
  match get k m with Some _ => keys m | None => keys m ++ [k] end.
Proof.
  induction m as [|[k' v'] m IH]; simpl; [reflexivity|].
  destruct (String.eqb k k') eqn:E; simpl; [reflexivity|].
  change (map fst (set k v m)) with (keys (set k v m)).
  rewrite IH. destruct (get k m); reflexivity.
Qed.

Lemma NoDup_keys_set V k (v : V) m :
  NoDup (keys m) -> NoDup (keys (set k v m)).
Proof.
  intros Hnd. rewrite keys_set. destruct (get k m) eqn:E; [exact Hnd|].
  apply get_None in E. apply NoDup_app; auto.
  - repeat constructor. simpl. tauto.
  - intros x Hx [<-|[]]. tauto.
Qed.

Lemma get_mapValues V W (h : V -> W) k m :
  get k (mapValues h m) = option_map h (get k m).
Proof.
  induction m as [|[k' v'] m IH]; simpl; [reflexivity|].
  destruct (String.eqb k k'); [reflexivity | exact IH].
Qed.

Lemma set_mapValues V W (h : V -> W) k v m :
  set k (h v) (mapValues h m) = mapValues h (set k v m).
Proof.
  induction m as [|[k' v'] m IH]; simpl; [reflexivity|].
  destruct (String.eqb k k'); simpl; [reflexivity|].
  f_equal. exact IH.
Qed.

End JSMapFacts.

(* ===================================================================== *)
(** ** Facts about lists *)
(* ===================================================================== *)

Module ListFacts.

Lemma NoDup_flat_map {X Y} (f : X -> list Y) (l : list X) :
  NoDup l ->
  (forall x, In x l -> NoDup (f x)) ->
  (forall x x' y, In x l -> In x' l -> In y (f x) -> In y (f x') -> x = x') ->
  NoDup (flat_map f l).
Proof.
  induction l as [|a l IH]; simpl; intros Hnd Hf Hsep.
  - constructor.
  - inversion Hnd; subst. apply NoDup_app.
    + apply Hf. auto.
    + apply IH; auto. intros x x' y Hx Hx'. apply Hsep; auto.
    + intros y Hy Hy'. apply in_flat_map in Hy' as (x & Hx & Hy').
      assert (a = x) by (apply (Hsep a x y); auto). subst. tauto.
Qed.

(** A loop that only pushes is a [flat_map]. *)
Lemma fold_left_push {X Y} (step : list Y -> X -> list Y) (g : X -> list Y) :
  (forall acc x, step acc x = acc ++ g x) ->
  forall l acc, fold_left step l acc = acc ++ flat_map g l.
Proof.
  intros Hstep. induction l as [|x l IH]; intros acc; simpl.
  - rewrite app_nil_r. reflexivity.
  - rewrite IH, Hstep, <- app_assoc. reflexivity.
Qed.

Lemma map_flat_map {X Y Z} (f : Y -> Z) (g : X -> list Y) (l : list X) :
  map f (flat_map g l) = flat_map (fun x => map f (g x)) l.
Proof.
  induction l as [|x l IH]; simpl; [reflexivity|].
  rewrite map_app, IH. reflexivity.
Qed.

Lemma flat_map_map {X Y Z} (f : X -> Y) (g : Y -> list Z) (l : list X) :
  flat_map g (map f l) = flat_map (fun x => g (f x)) l.
Proof.
  induction l as [|x l IH]; simpl; [reflexivity|].
  rewrite IH. reflexivity.
Qed.

Lemma indexed_from_In {X} (l : list X) start i x :
  In (i, x) (combine (seq start (List.length l)) l) <->
  start <= i /\ nth_error l (i - start) = Some x.
Proof.
  revert start. induction l as [|y l IH]; intros start; simpl.
  - split; [tauto|]. intros [_ H]. destruct (i - start); discriminate.
  - rewrite IH. split.
    + intros [H|[H1 H2]].
      * inversion H; subst. rewrite Nat.sub_diag. auto.
      * split; [lia|]. replace (i - start) with (S (i - S start)) by lia.
        exact H2.
    + intros [H1 H2]. destruct (i - start) as [|n] eqn:E.
      * left. inversion H2; subst. f_equal. lia.
      * right. split; [lia|]. replace (i - S start) with n by lia. exact H2.
Qed.

Lemma indexed_In {X} (l : list X) i x :
  In (i, x) (indexed l) <-> nth_error l i = Some x.
Proof.
  unfold indexed. rewrite indexed_from_In, Nat.sub_0_r.
  split; [tauto | split; [lia | auto]].
Qed.

Lemma indexed_snd {X} (l : list X) : map snd (indexed l) = l.
Proof.
  unfold indexed. generalize 0. induction l as [|x l IH]; intros n; simpl.
  - reflexivity.
  - rewrite IH. reflexivity.
Qed.

Lemma indexed_fst {X} (l : list X) :
  map fst (indexed l) = seq 0 (List.length l).
Proof.
  unfold indexed. generalize 0. induction l as [|x l IH]; intros n; simpl.
  - reflexivity.
  - rewrite IH. reflexivity.
Qed.

Lemma indexed_NoDup {X} (l : list X) : NoDup (indexed l).
Proof.
  apply (NoDup_map_inv fst). rewrite indexed_fst. apply seq_NoDup.
Qed.

End ListFacts.

(* ===================================================================== *)
(** ** Facts about the grouping loop *)
(* ===================================================================== *)

Section GroupFacts.

Context {A : Type} (pos : A -> SchwabPosition.t).

Lemma groupStep_key (m : JSMap.t (list A)) (a : A) :
  groupStep pos m a =
  match expiryKeyOf pos a with
  | None => m
  | Some k =>
      JSMap.set k (match JSMap.get k m with Some l => l | None => [] end ++ [a]) m
  end.
Proof.
  unfold groupStep, expiryKeyOf.
  destruct (execSymbol (optionSymbolOf pos a)); [|reflexivity].
  destruct (String.eqb (sm_expiry s) EmptyString); reflexivity.
Qed.

(** After the loop, the group of a key holds what it held before followed
    by the elements of that key, in the order of the list. *)
Lemma group_get (L : list A) (m : JSMap.t (list A)) (k : string) :
  JSMap.get k (fold_left (groupStep pos) L m) =
  groupExtend (JSMap.get k m) (filter (hasKey pos k) L).
Proof.
  revert m. induction L as [|a L IH]; intros m; simpl.
  - destruct (JSMap.get k m); simpl; [rewrite app_nil_r|]; reflexivity.
  - rewrite IH, groupStep_key. unfold hasKey at 2.
    destruct (expiryKeyOf pos a) as [k'|]; [|reflexivity].
    destruct (String.eqb k' k) eqn:Ek.
    + apply String.eqb_eq in Ek. subst k'.
      rewrite JSMapFacts.get_set_eq.
      destruct (JSMap.get k m); simpl; [rewrite <- app_assoc|]; reflexivity.
    + apply String.eqb_neq in Ek. rewrite JSMapFacts.get_set_ne by exact Ek.
      reflexivity.
Qed.

Lemma group_NoDup (L : list A) (m : JSMap.t (list A)) :
  NoDup (JSMap.keys m) -> NoDup (JSMap.keys (fold_left (groupStep pos) L m)).
Proof.
  revert m. induction L as [|a L IH]; intros m Hnd; simpl; [exact Hnd|].
  apply IH. rewrite groupStep_key.
  destruct (expiryKeyOf pos a); [|exact Hnd].
  apply JSMapFacts.NoDup_keys_set. exact Hnd.
Qed.

Lemma groupByExpiry_NoDup (L : list A) :
  NoDup (JSMap.keys (groupByExpiry pos L)).
Proof. apply group_NoDup. constructor. Qed.

(** The entries of [byExpiry]: one per key that occurs, holding the
    elements of that key in the order of the list. *)
Lemma groupByExpiry_In (L : list A) (k : string) (g : list A) :
  In (k, g) (JSMap.entries (groupByExpiry pos L)) <->
  g = filter (hasKey pos k) L /\ g <> [].
Proof.
  unfold JSMap.entries. split.
  - intros H. apply JSMapFacts.In_get in H; [|apply groupByExpiry_NoDup].
    unfold groupByExpiry in H. rewrite group_get in H. simpl in H.
    destruct (filter (hasKey pos k) L); inversion H. split; congruence.
  - intros [-> Hne]. apply JSMapFacts.get_Some_In.
    unfold groupByExpiry. rewrite group_get. simpl.
    destruct (filter (hasKey pos k) L); congruence.
Qed.

Lemma groupByExpiry_entries_NoDup (L : list A) :
  NoDup (JSMap.entries (groupByExpiry pos L)).
Proof. apply (NoDup_map_inv fst). apply groupByExpiry_NoDup. Qed.

(** Elements that the pattern rejects leave no trace in [byExpiry]. *)
Lemma group_filter_matched (q : A -> bool) (L : list A) (m : JSMap.t (list A)) :
  (forall a, q a = false -> expiryKeyOf pos a = None) ->
  fold_left (groupStep pos) (filter q L) m = fold_left (groupStep pos) L m.
Proof.
  intros Hq. revert m. induction L as [|a L IH]; intros m; simpl.
  - reflexivity.
  - destruct (q a) eqn:E; simpl.
    + apply IH.
    + rewrite IH. f_equal. rewrite groupStep_key, (Hq a E). reflexivity.
Qed.

End GroupFacts.

(* ===================================================================== *)
(** ** Facts about the pairing loops *)
(* ===================================================================== *)

Section LegFacts.

Context {A : Type} (pos : A -> SchwabPosition.t).

Lemma hasKey_true (k : string) (a : A) :
  hasKey pos k a = true <-> expiryKeyOf pos a = Some k.
Proof.
  unfold hasKey. destruct (expiryKeyOf pos a) as [k'|].
  - rewrite String.eqb_eq. split; congruence.
  - split; discriminate.
Qed.

Lemma legsOfShort_In k longs s t :
  In t (legsOfShort pos k longs s) <->
  exists l, t = (k, s, l) /\ In l longs
            /\ exists ss ls, strikeOf pos s = Some ss
                             /\ strikeOf pos l = Some ls
                             /\ Num.ltb ls ss = true.
Proof.
  unfold legsOfShort. destruct (strikeOf pos s) as [ss|] eqn:Es.
  - rewrite in_flat_map. split.
    + intros (l & Hl & Ht).
      destruct (strikeOf pos l) as [ls|] eqn:El; [|destruct Ht].
      destruct (Num.ltb ls ss) eqn:Elt; [|destruct Ht].
      destruct Ht as [<-|[]]. exists l. eauto 10.
    + intros (l & -> & Hl & ss' & ls & Hss & Hls & Hlt).
      inversion Hss; subst ss'. exists l. split; auto.
      rewrite Hls, Hlt. left; auto.
  - split; [intros [] | intros (l & _ & _ & ss & ls & H & _); discriminate].
Qed.

Lemma legsOfEntry_In k g t :
  In t (legsOfEntry pos (k, g)) <->
  exists s l, t = (k, s, l) /\ In s g /\ In l g /\ pairs pos s l.
Proof.
  unfold legsOfEntry. rewrite in_flat_map. split.
  - intros (s & Hs & Ht). apply legsOfShort_In in Ht as (l & -> & Hl & Hstr).
    apply filter_In in Hs as [Hs Hshort]. apply filter_In in Hs as [Hs Hput].
    apply filter_In in Hl as [Hl Hlong]. apply filter_In in Hl as [Hl Hput'].
    exists s, l. unfold pairs. auto 10.
  - intros (s & l & -> & Hs & Hl & Hput & Hput' & Hshort & Hlong & Hstr).
    exists s. split; [rewrite !filter_In; auto|].
    apply legsOfShort_In. exists l. rewrite !filter_In. auto.
Qed.

(** The triples that the loops collect from a position list: every pair
    of elements of the list that pass the filter, share an expiry key and
    satisfy the pairing condition. *)
Lemma legsOf_In symbol L k s l :
  In (k, s, l) (legsOf pos symbol L) <->
  In s L /\ In l L
  /\ isOptionOn pos symbol s = true /\ isOptionOn pos symbol l = true
  /\ expiryKeyOf pos s = Some k /\ expiryKeyOf pos l = Some k
  /\ pairs pos s l.
Proof.
  unfold legsOf. rewrite in_flat_map. split.
  - intros ([k' g] & Hg & Ht).
    apply groupByExpiry_In in Hg as [-> _].
    apply legsOfEntry_In in Ht as (s' & l' & E & Hs & Hl & Hp).
    inversion E; subst k' s' l'.
    apply filter_In in Hs as [Hs Ks]. apply filter_In in Hs as [Hs Os].
    apply filter_In in Hl as [Hl Kl]. apply filter_In in Hl as [Hl Ol].
    apply hasKey_true in Ks. apply hasKey_true in Kl. auto 10.
  - intros (Hs & Hl & Os & Ol & Ks & Kl & Hp).
    exists (k, filter (hasKey pos k) (filter (isOptionOn pos symbol) L)).
    assert (Hs' : In s (filter (hasKey pos k) (filter (isOptionOn pos symbol) L))).
    { rewrite !filter_In. rewrite hasKey_true. auto. }
    split.
    + apply groupByExpiry_In. split; [reflexivity|].
      intros E. rewrite E in Hs'. destruct Hs'.
    + apply legsOfEntry_In. exists s, l.
      split; [reflexivity|]. split; [exact Hs'|]. split; [|exact Hp].
      rewrite !filter_In. rewrite hasKey_true. auto.
Qed.

Lemma legsOfShort_NoDup k longs s :
  NoDup longs -> NoDup (legsOfShort pos k longs s).
Proof.
  intros Hnd. unfold legsOfShort.
  destruct (strikeOf pos s) as [ss|]; [|constructor].
  apply ListFacts.NoDup_flat_map; auto.
  - intros l _. destruct (strikeOf pos l) as [ls|]; [|constructor].
    destruct (Num.ltb ls ss); repeat constructor. simpl; tauto.
  - intros l l' t _ _ Ht Ht'.
    destruct (strikeOf pos l) as [ls|]; [|destruct Ht].
    destruct (Num.ltb ls ss); [|destruct Ht].
    destruct (strikeOf pos l') as [ls'|]; [|destruct Ht'].
    destruct (Num.ltb ls' ss); [|destruct Ht'].
    destruct Ht as [<-|[]]. destruct Ht' as [E|[]]. congruence.
Qed.

Lemma legsOfEntry_NoDup k g : NoDup g -> NoDup (legsOfEntry pos (k, g)).
Proof.
  intros Hnd. unfold legsOfEntry.
  apply ListFacts.NoDup_flat_map.
  - repeat apply NoDup_filter. exact Hnd.
  - intros s _. apply legsOfShort_NoDup. repeat apply NoDup_filter. exact Hnd.
  - intros s s' t _ _ Ht Ht'.
    apply legsOfShort_In in Ht as (l & -> & _).
    apply legsOfShort_In in Ht' as (l' & E & _). congruence.
Qed.

(** No triple is collected twice from a list without repetition. *)
Lemma legsOf_NoDup symbol L : NoDup L -> NoDup (legsOf pos symbol L).
Proof.
  intros Hnd. unfold legsOf.
  apply ListFacts.NoDup_flat_map.
  - apply groupByExpiry_entries_NoDup.
  - intros [k g] Hg. apply groupByExpiry_In in Hg as [-> _].
    apply legsOfEntry_NoDup. repeat apply NoDup_filter. exact Hnd.
  - intros [k g] [k' g'] t Hg Hg' Ht Ht'.
    apply groupByExpiry_In in Hg as [-> _].
    apply groupByExpiry_In in Hg' as [-> _].
    apply legsOfEntry_In in Ht as (s & l & -> & _).
    apply legsOfEntry_In in Ht' as (s' & l' & E & _).
    inversion E; subst. reflexivity.
Qed.

(** *** The loops push the spreads of the collected triples *)

Lemma longPutStep_push symbol k s ss acc l :
  strikeOf pos s = Some ss ->
  longPutStep pos symbol k s ss acc l =
  acc ++ map (spreadOfLegs pos symbol)
             (match strikeOf pos l with
              | None => []
              | Some ls => if Num.ltb ls ss then [(k, s, l)] else []
              end).
Proof.
  intros Hs. unfold longPutStep.
  destruct (strikeOf pos l) as [ls|] eqn:El; simpl.
  - destruct (Num.ltb ls ss); simpl.
    + unfold strikeOrNaN. rewrite Hs, El. reflexivity.
    + rewrite app_nil_r. reflexivity.
  - rewrite app_nil_r. reflexivity.
Qed.

Lemma shortPutStep_push symbol k longs acc s :
  shortPutStep pos symbol k longs acc s =
  acc ++ map (spreadOfLegs pos symbol) (legsOfShort pos k longs s).
Proof.
  unfold shortPutStep, legsOfShort.
  destruct (strikeOf pos s) as [ss|] eqn:Es.
  - rewrite ListFacts.map_flat_map.
    apply ListFacts.fold_left_push.
    intros acc' l. apply longPutStep_push. exact Es.
  - simpl. rewrite app_nil_r. reflexivity.
Qed.

Lemma expiryStep_push symbol acc entry :
  expiryStep pos symbol acc entry =
  acc ++ map (spreadOfLegs pos symbol) (legsOfEntry pos entry).
Proof.
  destruct entry as [k g]. unfold expiryStep, legsOfEntry.
  rewrite ListFacts.map_flat_map.
  apply ListFacts.fold_left_push.
  intros acc' s. apply shortPutStep_push.
Qed.

Lemma positionsStep_push symbol acc L :
  positionsStep pos symbol acc L =
  acc ++ map (spreadOfLegs pos symbol) (legsOf pos symbol L).
Proof.
  unfold positionsStep, legsOf.
  rewrite ListFacts.map_flat_map.
  apply ListFacts.fold_left_push.
  intros acc' e. apply expiryStep_push.
Qed.

End LegFacts.

(** *** The loops commute with a change of carrier *)

Section Naturality.

Context {A B : Type} (pos : A -> SchwabPosition.t) (f : B -> A).

Let posf : B -> SchwabPosition.t := fun b => pos (f b).

Lemma group_map (L : list B) (m : JSMap.t (list B)) :
  fold_left (groupStep pos) (map f L) (mapValues (map f) m) =
  mapValues (map f) (fold_left (groupStep posf) L m).
Proof.
  revert m. induction L as [|b L IH]; intros m; simpl; [reflexivity|].
  rewrite <- IH. f_equal.
  rewrite !groupStep_key.
  change (expiryKeyOf pos (f b)) with (expiryKeyOf posf b).
  destruct (expiryKeyOf posf b) as [k|]; [|reflexivity].
  rewrite JSMapFacts.get_mapValues, <- JSMapFacts.set_mapValues.
  f_equal. destruct (JSMap.get k m); simpl; [rewrite map_app|]; reflexivity.
Qed.

Lemma legsOfShort_map k longs s :
  legsOfShort pos k (map f longs) (f s) =
  map (mapLegs f) (legsOfShort posf k longs s).
Proof.
  unfold legsOfShort.
  change (strikeOf pos (f s)) with (strikeOf posf s).
  destruct (strikeOf posf s) as [ss|]; [|reflexivity].
  rewrite ListFacts.flat_map_map, ListFacts.map_flat_map.
  apply flat_map_ext. intros l.
  change (strikeOf pos (f l)) with (strikeOf posf l).
  destruct (strikeOf posf l) as [ls|]; [|reflexivity].
  destruct (Num.ltb ls ss); reflexivity.
Qed.

Lemma legsOfEntry_map k g :
  legsOfEntry pos (k, map f g) = map (mapLegs f) (legsOfEntry posf (k, g)).
Proof.
  unfold legsOfEntry.
  rewrite !filter_map_swap, ListFacts.flat_map_map, ListFacts.map_flat_map.
  apply flat_map_ext. intros s. apply legsOfShort_map.
Qed.

Lemma legsOf_map symbol L :
  legsOf pos symbol (map f L) = map (mapLegs f) (legsOf posf symbol L).
Proof.
  unfold legsOf, groupByExpiry, JSMap.entries.
  rewrite filter_map_swap.
  change (@JSMap.empty (list A)) with (mapValues (map f) (@JSMap.empty (list B))).
  rewrite group_map. unfold mapValues.
  rewrite ListFacts.flat_map_map, ListFacts.map_flat_map.
  apply flat_map_ext. intros [k g]. apply legsOfEntry_map.
Qed.

End Naturality.

(* ===================================================================== *)
(** ** The output and the legs behind it *)
(* ===================================================================== *)

Module OutputFacts.

Lemma accountLegs_pos ai account :
  map legPos (accountLegs ai account) = positionsOf account.
Proof.
  unfold accountLegs. fold (positionsOf account). rewrite map_map.
  transitivity (map snd (indexed (positionsOf account))).
  - apply map_ext. intros [i p]. reflexivity.
  - apply ListFacts.indexed_snd.
Qed.

Lemma accountLegs_In ai account (t : Leg) :
  In t (accountLegs ai account) <->
  legAccount t = ai
  /\ nth_error (positionsOf account) (legIndex t) = Some (legPos t).
Proof.
  unfold accountLegs. fold (positionsOf account).
  rewrite in_map_iff. destruct t as [[a i] p].
  unfold legAccount, legIndex, legPos. simpl. split.
  - intros ([i' p'] & E & H). inversion E; subst.
    apply ListFacts.indexed_In in H. auto.
  - intros [-> H]. exists (i, p). split; [reflexivity|].
    apply ListFacts.indexed_In. exact H.
Qed.

(** Within an account, the place of a leg determines the leg. *)
Lemma accountLegs_inj ai account (t t' : Leg) :
  In t (accountLegs ai account) -> In t' (accountLegs ai account) ->
  legIndex t = legIndex t' -> t = t'.
Proof.
  intros H H' E. apply accountLegs_In in H as [Ha Hp].
  apply accountLegs_In in H' as [Ha' Hp'].
  destruct t as [[a i] p], t' as [[a' i'] p'].
  unfold legAccount, legIndex, legPos in *. simpl in *. subst.
  rewrite Hp in Hp'. congruence.
Qed.

Lemma accountLegs_NoDup ai account : NoDup (accountLegs ai account).
Proof.
  unfold accountLegs.
  apply NoDup_map_NoDup_ForallPairs; [|apply ListFacts.indexed_NoDup].
  intros [i p] [i' p'] _ _ E. inversion E; subst. reflexivity.
Qed.

Lemma spreadLegs_In accounts symbol t :
  In t (spreadLegs accounts symbol) <->
  exists ai account,
    nth_error accounts ai = Some account
    /\ In t (legsOf legPos symbol (accountLegs ai account)).
Proof.
  unfold spreadLegs. rewrite in_flat_map. split.
  - intros ([ai account] & H & Ht). apply ListFacts.indexed_In in H. eauto.
  - intros (ai & account & H & Ht). exists (ai, account).
    split; [apply ListFacts.indexed_In|]; auto.
Qed.

(** The legs of a collected triple stand in the account it was collected
    from. *)
Lemma legsOf_account ai account symbol k s l :
  In (k, s, l) (legsOf legPos symbol (accountLegs ai account)) ->
  legAccount s = ai /\ legAccount l = ai.
Proof.
  intros H. apply legsOf_In in H as (Hs & Hl & _).
  apply accountLegs_In in Hs as [Hs _]. apply accountLegs_In in Hl as [Hl _].
  auto.
Qed.

Lemma spreadOfLegs_mapLegs symbol (t : string * Leg * Leg) :
  spreadOfLegs (fun p => p) symbol (mapLegs legPos t) =
  spreadOfLegs legPos symbol t.
Proof. destruct t as [[k s] l]. reflexivity. Qed.

(** The output lists the spreads of [spreadLegs], in the same order. *)
Lemma output_spreadLegs accounts symbol :
  getPutCreditSpreads accounts symbol =
  map (spreadOfLegs legPos symbol) (spreadLegs accounts symbol).
Proof.
  unfold getPutCreditSpreads, spreadLegs.
  rewrite (ListFacts.fold_left_push
             (fun spreads account =>
                positionsStep (fun p => p) symbol spreads
                  (SecuritiesAccount.positions
                     (SchwabAccount.securitiesAccount account)))
             (fun account =>
                map (spreadOfLegs (fun p => p) symbol)
                    (legsOf (fun p => p) symbol (positionsOf account)))).
  2:{ intros acc account. apply positionsStep_push. }
  simpl. rewrite ListFacts.map_flat_map.
  rewrite <- (ListFacts.indexed_snd accounts) at 1.
  rewrite ListFacts.flat_map_map.
  apply flat_map_ext. intros [ai account]. simpl.
  rewrite <- (accountLegs_pos ai account).
  rewrite (legsOf_map (fun p => p) legPos), map_map.
  apply map_ext. intros t. apply spreadOfLegs_mapLegs.
Qed.

Lemma output_per_account accounts symbol :
  getPutCreditSpreads accounts symbol =
  flat_map (fun account =>
              map (spreadOfLegs (fun p => p) symbol)
                  (legsOf (fun p => p) symbol (positionsOf account)))
           accounts.
Proof.
  unfold getPutCreditSpreads.
  rewrite (ListFacts.fold_left_push
             (fun spreads account =>
                positionsStep (fun p => p) symbol spreads
                  (SecuritiesAccount.positions
                     (SchwabAccount.securitiesAccount account)))
             (fun account =>
                map (spreadOfLegs (fun p => p) symbol)
                    (legsOf (fun p => p) symbol (positionsOf account)))).
  - reflexivity.
  - intros acc account. apply positionsStep_push.
Qed.

Lemma spreadLegs_NoDup accounts symbol : NoDup (spreadLegs accounts symbol).
Proof.
  unfold spreadLegs. apply ListFacts.NoDup_flat_map.
  - apply ListFacts.indexed_NoDup.
  - intros [ai account] _. apply legsOf_NoDup, accountLegs_NoDup.
  - intros [ai account] [ai' account'] [[k s] l] H H' Ht Ht'.
    apply legsOf_account in Ht as [Ht _]. apply legsOf_account in Ht' as [Ht' _].
    apply ListFacts.indexed_In in H. apply ListFacts.indexed_In in H'.
    assert (E : ai = ai') by congruence. clear Ht Ht'. subst ai'.
    rewrite H in H'. inversion H'. reflexivity.
Qed.

(** What the loops have checked of a triple they collected. *)
Lemma spreadLegs_inv accounts symbol k s l :
  In (k, s, l) (spreadLegs accounts symbol) ->
  exists account ms ml,
    nth_error accounts (legAccount s) = Some account
    /\ legAccount l = legAccount s
    /\ nth_error (positionsOf account) (legIndex s) = Some (legPos s)
    /\ nth_error (positionsOf account) (legIndex l) = Some (legPos l)
    /\ putLeg symbol (legPos s) ms /\ putLeg symbol (legPos l) ml
    /\ sm_expiry ms = k /\ sm_expiry ml = k
    /\ Num.gtb (SchwabPosition.shortQuantity (legPos s)) (Num.ofZ 0) = true
    /\ Num.gtb (SchwabPosition.longQuantity (legPos l)) (Num.ofZ 0) = true
    /\ strikeOf legPos s = Some (strikeOfMatch ms)
    /\ strikeOf legPos l = Some (strikeOfMatch ml)
    /\ Num.ltb (strikeOfMatch ml) (strikeOfMatch ms) = true.
Proof.
  intros H. apply spreadLegs_In in H as (ai & account & Hacc & H).
  apply legsOf_In in H as (Hs & Hl & Os & Ol & Ks & Kl & Hp).
  apply accountLegs_In in Hs as [As Ps]. apply accountLegs_In in Hl as [Al Pl].
  destruct Hp as (_ & _ & Hshort & Hlong & ss & ls & Ss & Sl & Hlt).
  assert (Hleg : forall t k0 z,
             isOptionOn legPos symbol t = true ->
             expiryKeyOf legPos t = Some k0 ->
             strikeOf legPos t = Some z ->
             exists m, putLeg symbol (legPos t) m /\ sm_expiry m = k0
                       /\ z = strikeOfMatch m).
  { intros t k0 z Ot Kt St.
    unfold isOptionOn in Ot. apply andb_true_iff in Ot as [Ot1 Ot2].
    apply String.eqb_eq in Ot1.
    destruct (Instrument.underlyingSymbol
                (SchwabPosition.instrument (legPos t))) as [u|] eqn:Eu;
      [|discriminate].
    apply String.eqb_eq in Ot2. subst u.
    unfold expiryKeyOf in Kt. unfold strikeOf in St.
    change (optionSymbolOf legPos t) with (symbolOf (legPos t)) in *.
    destruct (execSymbol (symbolOf (legPos t))) as [m|] eqn:Em; [|discriminate].
    destruct (String.eqb (sm_expiry m) EmptyString); [discriminate|].
    inversion Kt; subst k0.
    destruct (execPut (symbolOf (legPos t))) as [pm|] eqn:Ep; [|discriminate].
    destruct (SymbolFacts.putCall_of_execPut _ _ _ Em Ep) as [HP ->].
    simpl in St. destruct (String.eqb (sm_strike m) EmptyString); [discriminate|].
    inversion St. exists m. unfold putLeg. auto 10. }
  destruct (Hleg s k ss Os Ks Ss) as (ms & Ls & Es & ->).
  destruct (Hleg l k ls Ol Kl Sl) as (ml & Ll & El & ->).
  exists account, ms, ml. subst ai. rewrite Al. auto 15.
Qed.

(** A pair of put legs of one account that share an expiry code, one
    short and one long at a lower strike, is collected. *)
Lemma spreadLegs_intro accounts symbol ai account i j s l ms ml :
  nth_error accounts ai = Some account ->
  nth_error (positionsOf account) i = Some s ->
  nth_error (positionsOf account) j = Some l ->
  putLeg symbol s ms -> putLeg symbol l ml ->
  sm_expiry ms = sm_expiry ml ->
  Num.gtb (SchwabPosition.shortQuantity s) (Num.ofZ 0) = true ->
  Num.gtb (SchwabPosition.longQuantity l) (Num.ofZ 0) = true ->
  Num.ltb (strikeOfMatch ml) (strikeOfMatch ms) = true ->
  In (sm_expiry ms, (ai, i, s), (ai, j, l)) (spreadLegs accounts symbol).
Proof.
  intros Hacc Hs Hl (As & Us & Es & Ps) (Al & Ul & El & Pl) Hk Hshort Hlong Hlt.
  apply spreadLegs_In. exists ai, account. split; [exact Hacc|].
  assert (Hleg : forall i0 p m,
             Instrument.assetType (SchwabPosition.instrument p) = "OPTION"%string ->
             Instrument.underlyingSymbol (SchwabPosition.instrument p) = Some symbol ->
             execSymbol (symbolOf p) = Some m ->
             sm_putCall m = "P"%string ->
             isOptionOn legPos symbol (ai, i0, p) = true
             /\ expiryKeyOf legPos (ai, i0, p) = Some (sm_expiry m)
             /\ isPut legPos (ai, i0, p) = true
             /\ strikeOf legPos (ai, i0, p) = Some (strikeOfMatch m)).
  { intros i0 p m Ha Hu He HP. repeat split.
    - unfold isOptionOn, legPos. simpl. rewrite Ha, Hu, !String.eqb_refl.
      reflexivity.
    - unfold expiryKeyOf, optionSymbolOf, legPos. simpl.
      fold (symbolOf p). rewrite He.
      rewrite (SymbolFacts.sm_expiry_nonempty _ _ He). reflexivity.
    - unfold isPut, optionSymbolOf, legPos. simpl. fold (symbolOf p).
      apply (SymbolFacts.includesP_of_put _ _ He HP).
    - unfold strikeOf, optionSymbolOf, legPos. simpl. fold (symbolOf p).
      rewrite (SymbolFacts.execPut_of_put _ _ He HP). simpl.
      rewrite (SymbolFacts.sm_strike_nonempty _ _ He). reflexivity. }
  destruct (Hleg i s ms As Us Es Ps) as (Os & Ks & Is & Ss).
  destruct (Hleg j l ml Al Ul El Pl) as (Ol & Kl & Il & Sl).
  apply legsOf_In. rewrite Kl, <- Hk.
  repeat split; auto.
  - apply accountLegs_In. auto.
  - apply accountLegs_In. auto.
  - exists (strikeOfMatch ms), (strikeOfMatch ml). auto.
Qed.

(** No pair of places is paired twice. *)
Lemma spreadOrigins_NoDup accounts symbol :
  NoDup (spreadOrigins accounts symbol).
Proof.
  unfold spreadOrigins.
  apply NoDup_map_NoDup_ForallPairs; [|apply spreadLegs_NoDup].
  intros [[k s] l] [[k' s'] l'] H H' E. inversion E as [[Es El]].
  apply spreadLegs_inv in H
    as (account & ms & ml & Hacc & Al & Ps & Pl & Ls & Ll & Ks & _).
  apply spreadLegs_inv in H'
    as (account' & ms' & ml' & Hacc' & Al' & Ps' & Pl' & Ls' & Ll' & Ks' & _).
  destruct s as [[a i] p], s' as [[a' i'] p'],
           l as [[b j] q], l' as [[b' j'] q'].
  unfold legAccount, legIndex, legPos in *. simpl in *.
  inversion Es; inversion El; subst.
  rewrite Hacc in Hacc'. inversion Hacc'; subst account'.
  rewrite Ps in Ps'. inversion Ps'; subst p'.
  rewrite Pl in Pl'. inversion Pl'; subst q'.
  destruct Ls as (_ & _ & E1 & _), Ls' as (_ & _ & E2 & _).
  rewrite E1 in E2. inversion E2; subst. reflexivity.
Qed.

Lemma spreadOrigins_nth accounts symbol n o :
  nth_error (spreadOrigins accounts symbol) n = Some o ->
  exists k s l,
    nth_error (spreadLegs accounts symbol) n = Some (k, s, l)
    /\ o = (fst s, fst l)
    /\ nth_error (getPutCreditSpreads accounts symbol) n
       = Some (spreadOfLegs legPos symbol (k, s, l)).
Proof.
  unfold spreadOrigins. rewrite nth_error_map. intros H.
  match type of H with
  | option_map _ ?x = _ => destruct x as [[[k s] l]|] eqn:E
  end; simpl in H; [|discriminate H].
  inversion H; subst. exists k, s, l.
  split; [exact E|]. split; [reflexivity|].
  rewrite output_spreadLegs. apply map_nth_error. exact E.
Qed.

End OutputFacts.

(* ===================================================================== *)
(** ** Facts about two-digit fields *)
(* ===================================================================== *)

Module DigitFacts.

Lemma digit_cases c :
  Chars.isDigit c = true -> exists n, n < 10 /\ c = ascii_of_nat (48 + n).
Proof.
  unfold Chars.isDigit, Chars.code. intros H.
  apply andb_true_iff in H as [H1 H2].
  apply Nat.leb_le in H1. apply Nat.leb_le in H2.
  exists (nat_of_ascii c - 48). split; [lia|].
  replace (48 + (nat_of_ascii c - 48)) with (nat_of_ascii c) by lia.
  symmetry. apply ascii_nat_embedding.
Qed.

(** The three fields of the date, for digits given by their values. *)
Lemma two_digits_nat a b :
  a < 10 -> b < 10 ->
  let c1 := ascii_of_nat (48 + a) in
  let c2 := ascii_of_nat (48 + b) in
  let v := (10 * Chars.digitValue c1 + Chars.digitValue c2)%Z in
  parseInt (str [c1; c2]) = Num.ofZ v
  /\ Num.add (Num.ofZ 2000) (Num.ofZ v) = Num.ofZ (2000 + v)
  /\ Num.sub (Num.ofZ v) (Num.ofZ 1) = Num.ofZ (v - 1).
Proof.
  intros Ha Hb.
  assert (Ea : a = 0 \/ a = 1 \/ a = 2 \/ a = 3 \/ a = 4 \/ a = 5
               \/ a = 6 \/ a = 7 \/ a = 8 \/ a = 9) by lia.
  assert (Eb : b = 0 \/ b = 1 \/ b = 2 \/ b = 3 \/ b = 4 \/ b = 5
               \/ b = 6 \/ b = 7 \/ b = 8 \/ b = 9) by lia.
  clear Ha Hb.
  repeat match goal with H : _ \/ _ |- _ => destruct H end;
    subst a b; vm_compute; repeat split; reflexivity.
Qed.

Lemma two_digits c1 c2 :
  Chars.isDigit c1 = true -> Chars.isDigit c2 = true ->
  let v := (10 * Chars.digitValue c1 + Chars.digitValue c2)%Z in
  parseInt (str [c1; c2]) = Num.ofZ v
  /\ Num.add (Num.ofZ 2000) (Num.ofZ v) = Num.ofZ (2000 + v)
  /\ Num.sub (Num.ofZ v) (Num.ofZ 1) = Num.ofZ (v - 1).
Proof.
  intros H1 H2.
  apply digit_cases in H1 as (a & Ha & ->).
  apply digit_cases in H2 as (b & Hb & ->).
  apply two_digits_nat; assumption.
Qed.

(** The date decoded from an expiry code of six digits: the year is 2000
    plus the first two digits, the month index the next two minus one, the
    day the last two. *)
Lemma expiryDate_digits c1 c2 c3 c4 c5 c6 :
  forallb Chars.isDigit [c1; c2; c3; c4; c5; c6] = true ->
  expiryDate (str [c1; c2; c3; c4; c5; c6]) =
  LocalDate.mk
    (Num.ofZ (2000 + (10 * Chars.digitValue c1 + Chars.digitValue c2)))
    (Num.ofZ (10 * Chars.digitValue c3 + Chars.digitValue c4 - 1))
    (Num.ofZ (10 * Chars.digitValue c5 + Chars.digitValue c6)).
Proof.
  intros H. simpl in H.
  repeat (apply andb_true_iff in H as [? H]).
  unfold expiryDate.
  change (slice (str [c1; c2; c3; c4; c5; c6]) 0 2) with (str [c1; c2]).
  change (slice (str [c1; c2; c3; c4; c5; c6]) 2 4) with (str [c3; c4]).
  change (slice (str [c1; c2; c3; c4; c5; c6]) 4 6) with (str [c5; c6]).
  destruct (two_digits c1 c2) as (E1 & E2 & _); auto.
  destruct (two_digits c3 c4) as (E3 & _ & E4); auto.
  destruct (two_digits c5 c6) as (E5 & _ & _); auto.
  rewrite E1, E3, E5, E2, E4. reflexivity.
Qed.

End DigitFacts.

(* ===================================================================== *)
(** ** Well-formedness filter and empty inputs *)
(* ===================================================================== *)

Module FilterFacts.

Lemma unmatched_no_key (p : SchwabPosition.t) :
  match execSymbol (symbolOf p) with Some _ => true | None => false end = false ->
  expiryKeyOf (fun q => q) p = None.
Proof.
  unfold expiryKeyOf, optionSymbolOf. fold (symbolOf p).
  destruct (execSymbol (symbolOf p)); [discriminate | reflexivity].
Qed.

Lemma filter_option_wellformed symbol (L : list SchwabPosition.t) :
  filter (isOptionOn (fun q => q) symbol) (filter isWellFormedOption L) =
  filter (fun p => match execSymbol (symbolOf p) with
                   | Some _ => true
                   | None => false
                   end)
         (filter (isOptionOn (fun q => q) symbol) L).
Proof.
  induction L as [|p L IH]; simpl; [reflexivity|].
  unfold isWellFormedOption at 1. unfold isOptionOn at 2 4.
  destruct (String.eqb (Instrument.assetType (SchwabPosition.instrument p))
                       "OPTION") eqn:Ea; simpl; [|exact IH].
  destruct (execSymbol (symbolOf p)) eqn:Em; simpl.
  - unfold isOptionOn at 1. rewrite Ea. simpl.
    destruct (Instrument.underlyingSymbol (SchwabPosition.instrument p))
      as [u|]; [|exact IH].
    destruct (String.eqb u symbol); simpl; [rewrite Em, IH; reflexivity | exact IH].
  - destruct (Instrument.underlyingSymbol (SchwabPosition.instrument p))
      as [u|]; [|exact IH].
    destruct (String.eqb u symbol); simpl; [rewrite Em; exact IH | exact IH].
Qed.

(** Dropping the excluded positions of a list changes no collected
    triple. *)
Lemma legsOf_wellformed symbol (L : list SchwabPosition.t) :
  legsOf (fun q => q) symbol (filter isWellFormedOption L) =
  legsOf (fun q => q) symbol L.
Proof.
  unfold legsOf, groupByExpiry.
  rewrite filter_option_wellformed, group_filter_matched; [reflexivity|].
  intros p. apply unmatched_no_key.
Qed.

(** A list without options yields no triple. *)
Lemma legsOf_no_option symbol (L : list SchwabPosition.t) :
  (forall p, In p L ->
             Instrument.assetType (SchwabPosition.instrument p)
             <> "OPTION"%string) ->
  legsOf (fun q => q) symbol L = [].
Proof.
  intros H. unfold legsOf.
  replace (filter (isOptionOn (fun q => q) symbol) L) with (@nil SchwabPosition.t);
    [reflexivity|].
  symmetry. induction L as [|p L IH]; simpl; [reflexivity|].
  unfold isOptionOn at 1.
  destruct (String.eqb (Instrument.assetType (SchwabPosition.instrument p))
                       "OPTION") eqn:Ea.
  - apply String.eqb_eq in Ea. exfalso. apply (H p); simpl; auto.
  - simpl. apply IH. intros q Hq. apply H. simpl; auto.
Qed.

(** Each account is reconstructed on its own. *)
Lemma getPutCreditSpreads_app xs ys symbol :
  getPutCreditSpreads (xs ++ ys) symbol =
  getPutCreditSpreads xs symbol ++ getPutCreditSpreads ys symbol.
Proof.
  rewrite !OutputFacts.output_per_account. apply flat_map_app.
Qed.

End FilterFacts.

(* ===================================================================== *)
(** ** Put legs *)
(* ===================================================================== *)

Module PutLegFacts.

(** What the loops compute on a put leg. *)
Lemma putLeg_facts symbol p m :
  putLeg symbol p m ->
  isOptionOn (fun q => q) symbol p = true
  /\ expiryKeyOf (fun q => q) p = Some (sm_expiry m)
  /\ isPut (fun q => q) p = true
  /\ strikeOf (fun q => q) p = Some (strikeOfMatch m).
Proof.
  intros (Ha & Hu & He & HP). repeat split.
  - unfold isOptionOn. rewrite Ha, Hu, !String.eqb_refl. reflexivity.
  - unfold expiryKeyOf, optionSymbolOf. fold (symbolOf p). rewrite He.
    rewrite (SymbolFacts.sm_expiry_nonempty _ _ He). reflexivity.
  - unfold isPut, optionSymbolOf. fold (symbolOf p).
    apply (SymbolFacts.includesP_of_put _ _ He HP).
  - unfold strikeOf, optionSymbolOf. fold (symbolOf p).
    rewrite (SymbolFacts.execPut_of_put _ _ He HP). simpl.
    rewrite (SymbolFacts.sm_strike_nonempty _ _ He). reflexivity.
Qed.

Lemma putLeg_unique symbol p m m' :
  putLeg symbol p m -> putLeg symbol p m' -> m = m'.
Proof. intros (_ & _ & E & _) (_ & _ & E' & _). congruence. Qed.

(** A put leg is no call. *)
Lemma putLeg_not_call symbol p m :
  putLeg symbol p m -> isCallSymbol (symbolOf p) = false.
Proof.
  intros (_ & _ & E & HP). unfold isCallSymbol. rewrite E, HP. reflexivity.
Qed.

(** The origin of a triple of [spreadLegs] names its legs. *)
Lemma origin_legs accounts symbol k (s l : Leg) ai account i j p q :
  In (k, s, l) (spreadLegs accounts symbol) ->
  (fst s, fst l) = ((ai, i), (ai, j)) ->
  nth_error accounts ai = Some account ->
  nth_error (positionsOf account) i = Some p ->
  nth_error (positionsOf account) j = Some q ->
  s = (ai, i, p) /\ l = (ai, j, q).
Proof.
  intros Hin Eo Hacc Hp Hq.
  apply OutputFacts.spreadLegs_inv in Hin
    as (account' & ms & ml & Hacc' & Al & Ps & Pl & _).
  destruct s as [[a' i'] p'], l as [[b' j'] q'].
  unfold legAccount, legIndex, legPos in *. simpl in *.
  inversion Eo; subst a' i' b' j'.
  rewrite Hacc in Hacc'. inversion Hacc'; subst account'.
  rewrite Hp in Ps. rewrite Hq in Pl. split; congruence.
Qed.

End PutLegFacts.

(* ===================================================================== *)
(** ** Erasing elements that cannot be legs *)
(* ===================================================================== *)

Module PermFacts.

Lemma filter_swap {X} (p q : X -> bool) (l : list X) :
  filter p (filter q l) = filter q (filter p l).
Proof.
  induction l as [|x l IH]; simpl; [reflexivity|].
  destruct (q x) eqn:Eq; destruct (p x) eqn:Ep; simpl;
    rewrite ?Eq, ?Ep, IH; reflexivity.
Qed.

Lemma flat_map_nil {X Y} (f : X -> list Y) (l : list X) :
  (forall x, In x l -> f x = []) -> flat_map f l = [].
Proof.
  induction l as [|x l IH]; simpl; intros H; [reflexivity|].
  rewrite (H x) by (left; reflexivity). apply IH. intros y Hy. apply H.
  right. exact Hy.
Qed.

Lemma flat_map_agree {X Y} (f g : X -> list Y) (l : list X) :
  (forall x, In x l -> f x = g x) -> flat_map f l = flat_map g l.
Proof.
  induction l as [|x l IH]; simpl; intros H; [reflexivity|].
  rewrite (H x) by (left; reflexivity). f_equal. apply IH. intros y Hy.
  apply H. right. exact Hy.
Qed.

(** Leaving out of a list without repetition elements that yield nothing
    changes the yield only in its order. *)
Lemma flat_map_sublist {X Y} (f : X -> list Y) (l' : list X) :
  forall l,
    NoDup l' -> NoDup l -> incl l' l ->
    (forall x, In x l -> ~ In x l' -> f x = []) ->
    Permutation (flat_map f l') (flat_map f l).
Proof.
  induction l' as [|a r IH]; intros l Hnd' Hnd Hincl Hnil.
  - simpl. rewrite flat_map_nil; [constructor|].
    intros x Hx. apply Hnil; [exact Hx|]. intros [].
  - assert (Ha : In a l) by (apply Hincl; left; reflexivity).
    apply in_split in Ha as (l1 & l2 & ->).
    inversion Hnd' as [|? ? Har Hr]; subst.
    assert (Hnd12 : NoDup (l1 ++ l2)) by (eapply NoDup_remove_1; exact Hnd).
    assert (Ha12 : ~ In a (l1 ++ l2)) by (eapply NoDup_remove_2; exact Hnd).
    assert (P : Permutation (flat_map f r) (flat_map f (l1 ++ l2))).
    { apply IH; [exact Hr|exact Hnd12| |].
      - intros x Hx.
        assert (Hx' : In x (l1 ++ a :: l2)) by (apply Hincl; right; exact Hx).
        apply in_app_iff in Hx' as [Hx'|[Hx'|Hx']].
        + apply in_app_iff. left. exact Hx'.
        + subst x. contradiction.
        + apply in_app_iff. right. exact Hx'.
      - intros x Hx Hnx. apply Hnil.
        + apply in_app_iff in Hx as [Hx|Hx]; apply in_app_iff;
            [left|right; right]; exact Hx.
        + intros [E|Hr']; [|contradiction]. subst x. contradiction. }
    simpl. rewrite !flat_map_app. simpl.
    rewrite flat_map_app in P.
    eapply Permutation_trans; [apply Permutation_app_head; exact P|].
    rewrite app_assoc.
    eapply Permutation_trans;
      [apply Permutation_app_tail, Permutation_app_comm|].
    rewrite <- app_assoc. apply Permutation_refl.
Qed.

Lemma flat_map_pointwise {X Y} (f g : X -> list Y) (l : list X) :
  (forall x, In x l -> Permutation (f x) (g x)) ->
  Permutation (flat_map f l) (flat_map g l).
Proof.
  induction l as [|x l IH]; simpl; intros H; [constructor|].
  apply Permutation_app.
  - apply H. left. reflexivity.
  - apply IH. intros y Hy. apply H. right. exact Hy.
Qed.

End PermFacts.

Section ErasureFacts.

Context {A : Type} (pos : A -> SchwabPosition.t).

Variable q : A -> bool.
Hypothesis q_strike : forall a, q a = false -> strikeOf pos a = None.

Lemma legsOfShort_erase k longs s :
  legsOfShort pos k (filter q longs) s = legsOfShort pos k longs s.
Proof.
  unfold legsOfShort. destruct (strikeOf pos s) as [ss|]; [|reflexivity].
  induction longs as [|l longs IH]; simpl; [reflexivity|].
  destruct (q l) eqn:E; simpl.
  - rewrite IH. reflexivity.
  - rewrite (q_strike l E). exact IH.
Qed.

Lemma legsOfEntry_erase k g :
  legsOfEntry pos (k, filter q g) = legsOfEntry pos (k, g).
Proof.
  unfold legsOfEntry.
  rewrite !(PermFacts.filter_swap (isPut pos) q).
  rewrite (PermFacts.filter_swap (isShort pos) q).
  rewrite (PermFacts.filter_swap (isLong pos) q).
  generalize (filter (isShort pos) (filter (isPut pos) g)) as shorts.
  generalize (filter (isLong pos) (filter (isPut pos) g)) as longs.
  intros longs shorts.
  induction shorts as [|s shorts IH]; simpl; [reflexivity|].
  destruct (q s) eqn:E; simpl.
  - rewrite IH, legsOfShort_erase. reflexivity.
  - rewrite IH. unfold legsOfShort at 2. rewrite (q_strike s E). reflexivity.
Qed.

(** The triples of a map of groups, key by key. *)
Lemma legs_by_key (M : list A) :
  flat_map (legsOfEntry pos) (JSMap.entries (groupByExpiry pos M))
  = flat_map (fun k => legsOfEntry pos (k, filter (hasKey pos k) M))
             (JSMap.keys (groupByExpiry pos M)).
Proof.
  unfold JSMap.keys. rewrite ListFacts.flat_map_map.
  apply PermFacts.flat_map_agree. intros [k g] H.
  apply groupByExpiry_In in H as [-> _]. reflexivity.
Qed.

Lemma key_In (M : list A) k :
  In k (JSMap.keys (groupByExpiry pos M)) <-> filter (hasKey pos k) M <> [].
Proof.
  unfold JSMap.keys. rewrite in_map_iff. split.
  - intros ([k' g] & E & H). simpl in E. subst k'.
    apply groupByExpiry_In in H as [<- Hne]. exact Hne.
  - intros Hne. exists (k, filter (hasKey pos k) M). split; [reflexivity|].
    apply groupByExpiry_In. split; [reflexivity|exact Hne].
Qed.

(** Erasing elements that have no strike changes the collected triples
    only in their order. *)
Lemma legsOf_erase symbol (L : list A) :
  Permutation (legsOf pos symbol (filter q L)) (legsOf pos symbol L).
Proof.
  unfold legsOf.
  rewrite (PermFacts.filter_swap (isOptionOn pos symbol) q).
  generalize (filter (isOptionOn pos symbol) L) as O. intros O.
  rewrite !legs_by_key.
  rewrite (PermFacts.flat_map_agree
             (fun k => legsOfEntry pos (k, filter (hasKey pos k) (filter q O)))
             (fun k => legsOfEntry pos (k, filter (hasKey pos k) O))).
  - apply PermFacts.flat_map_sublist.
    + apply groupByExpiry_NoDup.
    + apply groupByExpiry_NoDup.
    + intros k Hk. apply key_In in Hk. apply key_In.
      intros E. apply Hk.
      rewrite (PermFacts.filter_swap (hasKey pos k) q), E. reflexivity.
    + intros k Hk Hnk.
      assert (E : filter (hasKey pos k) (filter q O) = []).
      { destruct (filter (hasKey pos k) (filter q O)) eqn:E; [reflexivity|].
        exfalso. apply Hnk. apply key_In. rewrite E. discriminate. }
      rewrite (PermFacts.filter_swap (hasKey pos k) q) in E.
      rewrite <- legsOfEntry_erase, E. reflexivity.
  - intros k _.
    rewrite (PermFacts.filter_swap (hasKey pos k) q).
    apply legsOfEntry_erase.
Qed.

End ErasureFacts.

(* ===================================================================== *)
(** ** From a spread of the output back to its legs *)
(* ===================================================================== *)

Module TraceFacts.

Lemma output_length accounts symbol :
  List.length (getPutCreditSpreads accounts symbol)
  = List.length (spreadLegs accounts symbol).
Proof. rewrite OutputFacts.output_spreadLegs. apply length_map. Qed.

(** The n-th spread of the output is built from the n-th triple of
    legs. *)
Lemma output_nth accounts symbol n sp :
  nth_error (getPutCreditSpreads accounts symbol) n = Some sp ->
  exists k s l,
    nth_error (spreadLegs accounts symbol) n = Some (k, s, l)
    /\ sp = spreadOfLegs legPos symbol (k, s, l).
Proof.
  rewrite OutputFacts.output_spreadLegs, nth_error_map. intros H.
  match type of H with
  | option_map _ ?x = _ => destruct x as [[[k s] l]|] eqn:E
  end; simpl in H; [|discriminate H].
  inversion H; subst. exists k, s, l. split; reflexivity.
Qed.

(** A call has no strike in the sense of the pairing loops. *)
Lemma call_no_strike (p : SchwabPosition.t) :
  negb (isCallSymbol (symbolOf p)) = false ->
  strikeOf (fun x => x) p = None.
Proof.
  intros H. apply negb_false_iff in H. unfold isCallSymbol in H.
  destruct (execSymbol (symbolOf p)) as [m|] eqn:E; [|discriminate].
  apply String.eqb_eq in H.
  unfold strikeOf, optionSymbolOf. fold (symbolOf p).
  rewrite (SymbolFacts.execPut_of_call _ _ E H). reflexivity.
Qed.

(** Erasing the calls of every account changes the output only in its
    order. *)
Lemma output_without_calls accounts symbol :
  Permutation (getPutCreditSpreads (map dropCalls accounts) symbol)
              (getPutCreditSpreads accounts symbol).
Proof.
  rewrite !OutputFacts.output_per_account, ListFacts.flat_map_map.
  apply PermFacts.flat_map_pointwise. intros account _.
  apply Permutation_map.
  change (positionsOf (dropCalls account))
    with (filter (fun p => negb (isCallSymbol (symbolOf p)))
                 (positionsOf account)).
  apply (legsOf_erase (fun x => x)
           (fun p => negb (isCallSymbol (symbolOf p))) call_no_strike).
Qed.

End TraceFacts.

Ltac by_computation := vm_compute; reflexivity.

Ltac put_leg :=
  unfold putLeg;
  repeat match goal with |- _ /\ _ => split end;
  by_computation.

(* ===================================================================== *)
(** ** The numbers of the scenarios *)
(* ===================================================================== *)

(** The decimal literals of the scenarios are dyadic and hence exact:
    12.50 = 25/2, 7.00 = 7, 5.50 = 11/2 and 94.50 = 189/2. *)
Example scenario_literals :
  Num.dec 1250 2 = binary_normalize Num.prec Num.emax 25 (-1) false
  /\ Num.dec 700 2 = Num.ofZ 7
  /\ Num.dec 550 2 = binary_normalize Num.prec Num.emax 11 (-1) false
  /\ Num.dec 9450 2 = binary_normalize Num.prec Num.emax 189 (-1) false.
Proof. repeat split; by_computation. Qed.

(** The strike digits 05900000 decode to 5900, and the symbol of the
    scenario matches both patterns. *)
Example scenario_symbol :
  execSymbol "SPX   241220P05900000" = Some Sample.match5900
  /\ execPut "SPX   241220P05900000"
     = Some (mkPutMatch "241220" "05900000")
  /\ strikeOfMatch Sample.match5900 = Num.ofZ 5900.
Proof. repeat split; by_computation. Qed.

(* ===================================================================== *)
(** ** The documented scenarios *)
(* ===================================================================== *)

(** C5. For the underlying SPX, a short leg SPX   241220P05900000
    (shortQuantity 1, averagePrice 12.50) and a long leg
    SPX   241220P05800000 (longQuantity 1, averagePrice 7.00) yield exactly
    one spread: short strike 5900, long strike 5800, credit 5.50,
    quantity 1 and theoretical maximal loss 94.50 (expiry 20 December
    2024, month index 11). *)
Theorem C5_spx_scenario :
  getPutCreditSpreads [Sample.account [Sample.short5900; Sample.long5800]]
                      "SPX"
  = [ PutCreditSpread.mk "SPX"
        (LocalDate.mk (Num.ofZ 2024) (Num.ofZ 11) (Num.ofZ 20))
        (Num.ofZ 5900) (Num.ofZ 5800) (Num.dec 550 2) (Num.ofZ 1)
        (Num.dec 9450 2) ].
Proof. vm_compute. reflexivity. Qed.

(* ===================================================================== *)
(** ** Pairing of short and long put legs *)
(* ===================================================================== *)

(** C1 as stated, for every pair of legs of the input, fails: a short put
    and a lower long put of the same expiry that stand in two different
    accounts are both put legs in the sense of the pairing rule, and no
    spread is emitted for them, the output is empty. *)
Lemma C1_cross_account_counterexample :
  let accounts := [Sample.account [Sample.short5900];
                   Sample.account [Sample.long5800]] in
  putLeg "SPX" Sample.short5900 Sample.match5900
  /\ putLeg "SPX" Sample.long5800 Sample.match5800
  /\ sm_expiry Sample.match5900 = sm_expiry Sample.match5800
  /\ Num.gtb (SchwabPosition.shortQuantity Sample.short5900) (Num.ofZ 0) = true
  /\ Num.gtb (SchwabPosition.longQuantity Sample.long5800) (Num.ofZ 0) = true
  /\ Num.ltb (strikeOfMatch Sample.match5800) (strikeOfMatch Sample.match5900)
     = true
  /\ getPutCreditSpreads accounts "SPX" = [].
Proof.
  cbv zeta. split; [put_leg|]. split; [put_leg|].
  repeat split; by_computation.
Qed.

(** C1 (amended). For every short put leg (shortQuantity > 0) and long put
    leg (longQuantity > 0) of the position list of one account, both option
    positions on the requested underlying, whose option symbols parse to
    the same 6-digit expiry code and whose strikes satisfy
    longStrike < shortStrike, the output holds exactly one spread for that
    pair, with quantity = min(short.shortQuantity, long.longQuantity),
    credit = short.averagePrice - long.averagePrice and
    theoreticalMaxLossPts = (shortStrike - longStrike) - credit. *)
Theorem C1_one_spread_per_pair
        accounts symbol ai account i j s l ms ml :
  nth_error accounts ai = Some account ->
  nth_error (positionsOf account) i = Some s ->
  nth_error (positionsOf account) j = Some l ->
  putLeg symbol s ms -> putLeg symbol l ml ->
  sm_expiry ms = sm_expiry ml ->
  Num.gtb (SchwabPosition.shortQuantity s) (Num.ofZ 0) = true ->
  Num.gtb (SchwabPosition.longQuantity l) (Num.ofZ 0) = true ->
  Num.ltb (strikeOfMatch ml) (strikeOfMatch ms) = true ->
  count_occ origin_eq_dec (spreadOrigins accounts symbol) ((ai, i), (ai, j)) = 1
  /\ forall n,
      nth_error (spreadOrigins accounts symbol) n = Some ((ai, i), (ai, j)) ->
      exists sp,
        nth_error (getPutCreditSpreads accounts symbol) n = Some sp
        /\ PutCreditSpread.quantity sp
           = Num.min (SchwabPosition.shortQuantity s)
                     (SchwabPosition.longQuantity l)
        /\ PutCreditSpread.credit sp
           = Num.sub (SchwabPosition.averagePrice s)
                     (SchwabPosition.averagePrice l)
        /\ PutCreditSpread.theoreticalMaxLossPts sp
           = Num.sub (Num.sub (strikeOfMatch ms) (strikeOfMatch ml))
                     (PutCreditSpread.credit sp)
        /\ PutCreditSpread.shortStrike sp = strikeOfMatch ms
        /\ PutCreditSpread.longStrike sp = strikeOfMatch ml.
Proof.
  intros Hacc Hs Hl Ls Ll Hk Hshort Hlong Hlt.
  pose proof (OutputFacts.spreadLegs_intro accounts symbol ai account i j
                s l ms ml Hacc Hs Hl Ls Ll Hk Hshort Hlong Hlt) as Hin.
  split.
  - apply NoDup_count_occ'; [apply OutputFacts.spreadOrigins_NoDup|].
    unfold spreadOrigins. apply in_map_iff.
    exists (sm_expiry ms, (ai, i, s), (ai, j, l)). split; [reflexivity | exact Hin].
  - intros n Hn.
    apply OutputFacts.spreadOrigins_nth in Hn
      as (k & s' & l' & Hnth & Eo & Hout).
    apply nth_error_In in Hnth.
    destruct (PutLegFacts.origin_legs accounts symbol k s' l' ai account i j s l
                Hnth (eq_sym Eo) Hacc Hs Hl) as [-> ->].
    apply OutputFacts.spreadLegs_inv in Hnth
      as (account' & ms' & ml' & _ & _ & _ & _ & Ls' & Ll' & _ & _ & _ & _
          & Ss & Sl & _).
    unfold legPos in Ls', Ll'. simpl in Ls', Ll'.
    rewrite <- (PutLegFacts.putLeg_unique symbol s ms ms' Ls Ls') in Ss.
    rewrite <- (PutLegFacts.putLeg_unique symbol l ml ml' Ll Ll') in Sl.
    eexists. split; [exact Hout|].
    unfold spreadOfLegs, makeSpread, strikeOrNaN. rewrite Ss, Sl.
    simpl. repeat split; reflexivity.
Qed.

Lemma C1_one_spread_per_pair_witness :
  let accounts := [Sample.account [Sample.short5900; Sample.long5800]] in
  count_occ origin_eq_dec (spreadOrigins accounts "SPX") ((0, 0), (0, 1)) = 1
  /\ forall n,
      nth_error (spreadOrigins accounts "SPX") n = Some ((0, 0), (0, 1)) ->
      exists sp,
        nth_error (getPutCreditSpreads accounts "SPX") n = Some sp
        /\ PutCreditSpread.quantity sp
           = Num.min (SchwabPosition.shortQuantity Sample.short5900)
                     (SchwabPosition.longQuantity Sample.long5800)
        /\ PutCreditSpread.credit sp
           = Num.sub (SchwabPosition.averagePrice Sample.short5900)
                     (SchwabPosition.averagePrice Sample.long5800)
        /\ PutCreditSpread.theoreticalMaxLossPts sp
           = Num.sub (Num.sub (strikeOfMatch Sample.match5900)
                              (strikeOfMatch Sample.match5800))
                     (PutCreditSpread.credit sp)
        /\ PutCreditSpread.shortStrike sp = strikeOfMatch Sample.match5900
        /\ PutCreditSpread.longStrike sp = strikeOfMatch Sample.match5800.
Proof.
  cbv zeta.
  apply (C1_one_spread_per_pair
           [Sample.account [Sample.short5900; Sample.long5800]] "SPX"
           0 (Sample.account [Sample.short5900; Sample.long5800]) 0 1
           Sample.short5900 Sample.long5800 Sample.match5900 Sample.match5800);
    first [reflexivity | put_leg | by_computation].
Defined.

(** C2. A pair of a short put and a long put whose decoded strike is
    greater than or equal to that of the short put yields no spread,
    wherever the two stand in the input, and every spread of the output
    has its long strike strictly below its short strike. *)
Theorem C2_strict_strike accounts symbol :
  (forall a1 account1 i s a2 account2 j l ss ls,
      nth_error accounts a1 = Some account1 ->
      nth_error (positionsOf account1) i = Some s ->
      nth_error accounts a2 = Some account2 ->
      nth_error (positionsOf account2) j = Some l ->
      strikeOf (fun p => p) s = Some ss ->
      strikeOf (fun p => p) l = Some ls ->
      Num.geb ls ss = true ->
      ~ In ((a1, i), (a2, j)) (spreadOrigins accounts symbol))
  /\ (forall sp,
         In sp (getPutCreditSpreads accounts symbol) ->
         Num.ltb (PutCreditSpread.longStrike sp)
                 (PutCreditSpread.shortStrike sp) = true).
Proof.
  split.
  - intros a1 account1 i s a2 account2 j l ss ls Hacc1 Hs Hacc2 Hl Ss Sl Hge Hin.
    unfold spreadOrigins in Hin.
    apply in_map_iff in Hin as ([[k s'] l'] & Eo & Hin).
    assert (Ea : a2 = a1).
    { apply OutputFacts.spreadLegs_inv in Hin
        as (account' & ms & ml & _ & Al & _).
      destruct s' as [[a i'] p], l' as [[b j'] q].
      unfold legAccount in Al. simpl in *. inversion Eo. congruence. }
    subst a2. rewrite Hacc1 in Hacc2. inversion Hacc2; subst account2.
    destruct (PutLegFacts.origin_legs accounts symbol k s' l' a1 account1 i j s l
                Hin Eo Hacc1 Hs Hl) as [-> ->].
    apply OutputFacts.spreadLegs_inv in Hin
      as (account' & ms & ml & _ & _ & _ & _ & _ & _ & _ & _ & _ & _
          & Ss' & Sl' & Hlt).
    change (strikeOf legPos (a1, i, s)) with (strikeOf (fun p => p) s) in Ss'.
    change (strikeOf legPos (a1, j, l)) with (strikeOf (fun p => p) l) in Sl'.
    rewrite Ss in Ss'. rewrite Sl in Sl'.
    inversion Ss'; inversion Sl'; subst.
    rewrite (NumFacts.geb_not_ltb _ _ Hge) in Hlt. discriminate.
  - intros sp Hsp. rewrite OutputFacts.output_spreadLegs in Hsp.
    apply in_map_iff in Hsp as ([[k s] l] & <- & Hin).
    apply OutputFacts.spreadLegs_inv in Hin
      as (account' & ms & ml & _ & _ & _ & _ & _ & _ & _ & _ & _ & _
          & Ss & Sl & Hlt).
    unfold spreadOfLegs, makeSpread, strikeOrNaN. rewrite Ss, Sl.
    simpl. exact Hlt.
Qed.

(** On an account that holds a short put at 5900, a put held both ways at
    5850 and a long put at 6000: the long put at 6000 is not paired with
    the short put at 5900, the put at 5850 is not paired with itself, and
    the spread that is emitted (5900 over 5850) has its long strike below
    its short strike. *)
Lemma C2_strict_strike_witness :
  let accounts :=
    [Sample.account [Sample.short5900; Sample.both5850; Sample.long6000]] in
  ~ In ((0, 0), (0, 2)) (spreadOrigins accounts "SPX")
  /\ ~ In ((0, 1), (0, 1)) (spreadOrigins accounts "SPX")
  /\ Forall (fun sp => Num.ltb (PutCreditSpread.longStrike sp)
                               (PutCreditSpread.shortStrike sp) = true)
            (getPutCreditSpreads accounts "SPX").
Proof.
  cbv zeta.
  destruct (C2_strict_strike
              [Sample.account
                 [Sample.short5900; Sample.both5850; Sample.long6000]] "SPX")
    as [Hno Hlt].
  split; [|split].
  - apply (Hno 0 (Sample.account
                    [Sample.short5900; Sample.both5850; Sample.long6000])
               0 Sample.short5900
               0 (Sample.account
                    [Sample.short5900; Sample.both5850; Sample.long6000])
               2 Sample.long6000
               (Num.ofZ 5900) (Num.ofZ 6000)); by_computation.
  - apply (Hno 0 (Sample.account
                    [Sample.short5900; Sample.both5850; Sample.long6000])
               1 Sample.both5850
               0 (Sample.account
                    [Sample.short5900; Sample.both5850; Sample.long6000])
               1 Sample.both5850
               (Num.ofZ 5850) (Num.ofZ 5850)); by_computation.
  - apply Forall_forall. exact Hlt.
Defined.

(** C3. No spread of the output has a call as its short or as its long
    leg, whatever the calls of the input are.  The output has one spread
    per pair of legs that the loops pair; every spread of the output is
    built from two positions of one account of the input, neither of which
    carries the C marker, also when the ticker of a call contains the
    letter P.  Hence an input whose positions are all calls yields no
    spread, and erasing the calls of the input changes the output at most
    in the order of its spreads. *)
Theorem C3_no_call_leg accounts symbol :
  List.length (getPutCreditSpreads accounts symbol)
  = List.length (spreadLegs accounts symbol)
  /\ (forall n sp,
         nth_error (getPutCreditSpreads accounts symbol) n = Some sp ->
         exists k s l account,
           nth_error (spreadLegs accounts symbol) n = Some (k, s, l)
           /\ sp = spreadOfLegs legPos symbol (k, s, l)
           /\ nth_error accounts (legAccount s) = Some account
           /\ legAccount l = legAccount s
           /\ nth_error (positionsOf account) (legIndex s) = Some (legPos s)
           /\ nth_error (positionsOf account) (legIndex l) = Some (legPos l)
           /\ isCallSymbol (symbolOf (legPos s)) = false
           /\ isCallSymbol (symbolOf (legPos l)) = false)
  /\ ((forall account p,
          In account accounts -> In p (positionsOf account) ->
          isCallSymbol (symbolOf p) = true) ->
      getPutCreditSpreads accounts symbol = [])
  /\ Permutation (getPutCreditSpreads (map dropCalls accounts) symbol)
                 (getPutCreditSpreads accounts symbol).
Proof.
  assert (Legs : forall n sp,
             nth_error (getPutCreditSpreads accounts symbol) n = Some sp ->
             exists k s l account,
               nth_error (spreadLegs accounts symbol) n = Some (k, s, l)
               /\ sp = spreadOfLegs legPos symbol (k, s, l)
               /\ nth_error accounts (legAccount s) = Some account
               /\ legAccount l = legAccount s
               /\ nth_error (positionsOf account) (legIndex s)
                  = Some (legPos s)
               /\ nth_error (positionsOf account) (legIndex l)
                  = Some (legPos l)
               /\ isCallSymbol (symbolOf (legPos s)) = false
               /\ isCallSymbol (symbolOf (legPos l)) = false).
  { intros n sp Hn.
    apply TraceFacts.output_nth in Hn as (k & s & l & Hnth & ->).
    pose proof (nth_error_In _ _ Hnth) as Hin.
    apply OutputFacts.spreadLegs_inv in Hin
      as (account & ms & ml & Ha & Hl & Ps & Pl & Ls & Ll & _).
    exists k, s, l, account.
    repeat split; auto; eapply PutLegFacts.putLeg_not_call; eassumption. }
  split; [apply TraceFacts.output_length|].
  split; [exact Legs|].
  split; [|apply TraceFacts.output_without_calls].
  intros Hcalls.
  destruct (getPutCreditSpreads accounts symbol) as [|sp rest] eqn:E;
    [reflexivity|exfalso].
  destruct (Legs 0 sp eq_refl)
    as (k & s & l & account & _ & _ & Ha & _ & Ps & _ & Cs & _).
  apply nth_error_In in Ha, Ps.
  rewrite (Hcalls account (legPos s) Ha Ps) in Cs. discriminate.
Qed.

(** Two calls next to two puts: the only spread of the output is built
    from the two puts, which stand second and fourth in the account. *)
Lemma C3_no_call_leg_witness :
  let accounts :=
    [Sample.account [Sample.shortCall5900; Sample.short5900;
                     Sample.longCall5800; Sample.long5800]] in
  exists k s l account,
    nth_error (spreadLegs accounts "SPX") 0 = Some (k, s, l)
    /\ spreadOfLegs (fun p => p) "SPX"
         ("241220"%string, Sample.short5900, Sample.long5800)
       = spreadOfLegs legPos "SPX" (k, s, l)
    /\ nth_error accounts (legAccount s) = Some account
    /\ legAccount l = legAccount s
    /\ nth_error (positionsOf account) (legIndex s) = Some (legPos s)
    /\ nth_error (positionsOf account) (legIndex l) = Some (legPos l)
    /\ isCallSymbol (symbolOf (legPos s)) = false
    /\ isCallSymbol (symbolOf (legPos l)) = false.
Proof.
  cbv zeta.
  apply (proj1 (proj2 (C3_no_call_leg
                         [Sample.account
                            [Sample.shortCall5900; Sample.short5900;
                             Sample.longCall5800; Sample.long5800]] "SPX"))
               0).
  by_computation.
Defined.

(** Calls alone, short above long, on a ticker that contains the letter P:
    they pass the test on the letter P and yield no spread. *)
Example calls_yield_no_spread :
  isPut (fun p => p) Sample.shortCall5900 = true
  /\ getPutCreditSpreads
       [Sample.account [Sample.shortCall5900; Sample.longCall5800]] "SPX" = [].
Proof. split; by_computation. Qed.

(** The calls of the input show in the order of the output all the same:
    a call can open the group of its expiry before the puts of another
    expiry are met. *)
Example calls_can_reorder_output :
  let putA (s : string) := Sample.optionPosition "SPX" s (Num.ofZ 1) Sample.zero
                                      (Num.ofZ 9) in
  let putB (s : string) := Sample.optionPosition "SPX" s Sample.zero (Num.ofZ 1)
                                      (Num.ofZ 4) in
  let legs := [putA "SPX   241220P05900000"%string;
               putB "SPX   241220P05800000"%string;
               putA "SPX   250117P05900000"%string;
               putB "SPX   250117P05800000"%string] in
  let call := Sample.optionPosition "SPX" "SPX   250117C06000000"
                                    (Num.ofZ 1) Sample.zero (Num.ofZ 2) in
  map PutCreditSpread.expiry
      (getPutCreditSpreads [Sample.account legs] "SPX")
  = rev (map PutCreditSpread.expiry
             (getPutCreditSpreads [Sample.account (call :: legs)] "SPX")).
Proof. by_computation. Qed.

(* ===================================================================== *)
(** ** Excluded positions *)
(* ===================================================================== *)

Module ThrowFacts.

Lemma forOf_resolve {X S} (body : S -> X -> Js.Outcome S) (f : S -> X -> S) :
  (forall state x, body state x = Js.Resolve (f state x)) ->
  forall l state, Throwing.forOf body l state = Js.Resolve (fold_left f l state).
Proof.
  intros H. induction l as [|x l IH]; intros state; simpl; [reflexivity|].
  rewrite H. simpl. apply IH.
Qed.

Lemma groupStep_resolves byExpiry p :
  Throwing.groupStep byExpiry p
  = Js.Resolve (groupStep (fun x => x) byExpiry p).
Proof.
  unfold Throwing.groupStep, groupStep, optionSymbolOf. fold (symbolOf p).
  destruct (execSymbol (symbolOf p)) as [m|]; simpl; [|reflexivity].
  unfold Js.truthyString.
  destruct (String.eqb (sm_expiry m) EmptyString); reflexivity.
Qed.

Lemma longPutStep_resolves symbol k s ss spreads l :
  Throwing.longPutStep symbol k s ss spreads l
  = Js.Resolve (longPutStep (fun x => x) symbol k s ss spreads l).
Proof.
  unfold Throwing.longPutStep, longPutStep, strikeOf, optionSymbolOf.
  fold (symbolOf l).
  destruct (execPut (symbolOf l)) as [m|]; simpl; [|reflexivity].
  unfold Js.truthyString.
  destruct (String.eqb (pm_strike m) EmptyString); simpl; [reflexivity|].
  match goal with
  | |- (if ?c then _ else _) = _ => destruct c; reflexivity
  end.
Qed.

Lemma shortPutStep_resolves symbol k longs spreads s :
  Throwing.shortPutStep symbol k longs spreads s
  = Js.Resolve (shortPutStep (fun x => x) symbol k longs spreads s).
Proof.
  unfold Throwing.shortPutStep, shortPutStep, strikeOf, optionSymbolOf.
  fold (symbolOf s).
  destruct (execPut (symbolOf s)) as [m|]; simpl; [|reflexivity].
  unfold Js.truthyString.
  destruct (String.eqb (pm_strike m) EmptyString); simpl; [reflexivity|].
  apply forOf_resolve. intros state l. apply longPutStep_resolves.
Qed.

Lemma expiryStep_resolves symbol spreads entry :
  Throwing.expiryStep symbol spreads entry
  = Js.Resolve (expiryStep (fun x => x) symbol spreads entry).
Proof.
  destruct entry as [k g]. unfold Throwing.expiryStep, expiryStep.
  apply forOf_resolve. intros state s. apply shortPutStep_resolves.
Qed.

Lemma accountStep_resolves symbol spreads account :
  Throwing.accountStep symbol spreads account
  = Js.Resolve
      (positionsStep (fun x => x) symbol spreads
         (SecuritiesAccount.positions
            (SchwabAccount.securitiesAccount account))).
Proof.
  unfold Throwing.accountStep, positionsStep, groupByExpiry.
  rewrite (forOf_resolve Throwing.groupStep (groupStep (fun x => x))
             groupStep_resolves).
  simpl. apply forOf_resolve. intros state e. apply expiryStep_resolves.
Qed.

(** The guards of the loops cover every read off a match that may be
    missing: the promise is never rejected. *)
Lemma getPutCreditSpreads_resolves accounts symbol :
  Throwing.getPutCreditSpreads accounts symbol
  = Js.Resolve (getPutCreditSpreads accounts symbol).
Proof.
  unfold Throwing.getPutCreditSpreads, getPutCreditSpreads.
  apply forOf_resolve. intros state account. apply accountStep_resolves.
Qed.

End ThrowFacts.

Module PatternFacts.

Lemma str_length (l : list ascii) : String.length (str l) = List.length l.
Proof. induction l as [|c l IH]; simpl; [reflexivity|]. rewrite IH. reflexivity. Qed.

(** The pattern of the code accepts what the wording of the pattern
    describes. *)
Lemma pattern_exec s :
  matchesSymbolPattern s <-> exists m, execSymbol s = Some m.
Proof.
  split.
  - intros (g1 & ws & g2 & g3 & g4 & E & N1 & W1 & W2 & L3 & W3 & W4 & N5 & W5).
    exists (mkSymbolMatch (str g1) (str g2) (str [g3]) (str g4)).
    apply SymbolFacts.execSymbol_iff.
    exists g1, ws, g2, g3, g4. repeat split; assumption.
  - intros [m H]. apply SymbolFacts.execSymbol_iff in H
      as (g1 & ws & g2 & g3 & g4 & E & _ & W1 & N1 & W2 & W3 & L3 & W4 & W5 & N5).
    exists g1, ws, g2, g3, g4. repeat split; assumption.
Qed.

(** A symbol of the fixed encoding ends with 8 digits. *)
Lemma fixed_strike s :
  matchesFixedEncoding s ->
  forallb Chars.isDigit (skipn (List.length (chars s) - 8) (chars s)) = true.
Proof.
  intros (g1 & ws & g2 & g3 & g4 & E & _ & _ & _ & _ & _ & L5 & W5).
  assert (E' : chars s = (g1 ++ ws ++ g2 ++ [g3]) ++ g4).
  { rewrite E, <- !app_assoc. reflexivity. }
  rewrite E'. rewrite length_app, L5, Nat.add_sub.
  rewrite skipn_app, skipn_all, Nat.sub_diag. exact W5.
Qed.

Lemma no_marker s :
  (forall c, In c (chars s) -> Chars.isPC c = false) ->
  ~ matchesSymbolPattern s.
Proof.
  intros H (g1 & ws & g2 & g3 & g4 & E & _ & _ & _ & _ & _ & W4 & _).
  rewrite (H g3) in W4; [discriminate|].
  rewrite E, !in_app_iff. right. right. right. left. reflexivity.
Qed.

Lemma filter_all {X} (f : X -> bool) (l : list X) :
  forallb f l = true -> filter f l = l.
Proof.
  induction l as [|x l IH]; simpl; [reflexivity|].
  intros H. apply andb_true_iff in H as [H1 H2].
  rewrite H1, IH by exact H2. reflexivity.
Qed.

Lemma no_date s :
  List.length (filter Chars.isDigit (chars s)) < 7 ->
  ~ matchesSymbolPattern s.
Proof.
  intros H (g1 & ws & g2 & g3 & g4 & E & _ & _ & _ & L3 & W3 & _ & N5 & W5).
  rewrite E in H.
  rewrite !filter_app, !length_app in H. simpl in H.
  rewrite (filter_all _ _ W3), L3 in H.
  destruct (Chars.isDigit g3); simpl in H;
    rewrite (filter_all _ _ W5) in H;
    destruct g4; [congruence|simpl in H; lia|congruence|simpl in H; lia].
Qed.

(** What [isWellFormedOption] rejects is no option or has a symbol that
    the pattern does not describe. *)
Lemma not_wellformed p :
  isWellFormedOption p = false ->
  Instrument.assetType (SchwabPosition.instrument p) <> "OPTION"%string
  \/ ~ matchesSymbolPattern (symbolOf p).
Proof.
  unfold isWellFormedOption. intros H.
  apply andb_false_iff in H as [H|H].
  - left. apply String.eqb_neq. exact H.
  - right. intros M. apply pattern_exec in M as [m M].
    rewrite M in H. discriminate.
Qed.

(** Erasing positions that are no options or that the pattern does not
    describe changes no collected triple. *)
Lemma legsOf_keep symbol (keep : SchwabPosition.t -> bool)
      (L : list SchwabPosition.t) :
  (forall p, keep p = false ->
             Instrument.assetType (SchwabPosition.instrument p)
             <> "OPTION"%string
             \/ ~ matchesSymbolPattern (symbolOf p)) ->
  legsOf (fun x => x) symbol (filter keep L) = legsOf (fun x => x) symbol L.
Proof.
  intros H.
  rewrite <- (FilterFacts.legsOf_wellformed symbol (filter keep L)).
  rewrite <- (FilterFacts.legsOf_wellformed symbol L).
  f_equal. rewrite PermFacts.filter_swap.
  induction L as [|p L IH]; simpl; [reflexivity|].
  destruct (isWellFormedOption p) eqn:W; simpl; [|exact IH].
  destruct (keep p) eqn:K; [rewrite IH; reflexivity|exfalso].
  unfold isWellFormedOption in W. apply andb_true_iff in W as [W1 W2].
  destruct (H p K) as [N|N].
  - apply N. apply String.eqb_eq. exact W1.
  - apply N. apply pattern_exec.
    destruct (execSymbol (symbolOf p)) as [m|]; [eauto|discriminate].
Qed.

End PatternFacts.

(** C4 as stated, with the fixed encoding of the specification, fails: a
    symbol whose strike is written with four digits is not of the fixed
    encoding, whatever is taken for its underlying, and the two positions
    that carry such symbols are paired into a spread with the strikes 5.9
    and 5.8, where the output without them is empty. *)
Lemma C4_short_strike_counterexample :
  ~ matchesFixedEncoding (symbolOf short5900of4)
  /\ ~ matchesFixedEncoding (symbolOf long5800of4)
  /\ map (fun sp => (PutCreditSpread.shortStrike sp,
                     PutCreditSpread.longStrike sp))
         (getPutCreditSpreads [Sample.account [short5900of4; long5800of4]]
                              "SPX")
     = [(Num.dec 59 1, Num.dec 58 1)]
  /\ getPutCreditSpreads [Sample.account []] "SPX" = [].
Proof.
  split; [|split; [|split; by_computation]].
  - intros H. apply PatternFacts.fixed_strike in H.
    vm_compute in H. discriminate.
  - intros H. apply PatternFacts.fixed_strike in H.
    vm_compute in H. discriminate.
Qed.

(** C4 (amended). The reconstruction never raises an error: with the
    errors of the platform in the model, its promise resolves on every
    account list, since a symbol that the pattern rejects takes the
    [continue] of its loop.  Positions that are not options and positions
    whose symbol is not of the pattern of the code (word characters,
    white space, six digits, P or C, one or more digits) contribute
    nothing: the output is the one obtained after erasing any of them.
    The pattern is the one that [exec] decides, and a symbol without P
    and C or with fewer than seven digits is not of it. *)
Theorem C4_excluded_positions accounts symbol
        (keep : SchwabPosition.t -> bool) :
  (forall p, keep p = false ->
             Instrument.assetType (SchwabPosition.instrument p)
             <> "OPTION"%string
             \/ ~ matchesSymbolPattern (symbolOf p)) ->
  Throwing.getPutCreditSpreads accounts symbol
  = Js.Resolve (getPutCreditSpreads accounts symbol)
  /\ getPutCreditSpreads (map (keepPositions keep) accounts) symbol
     = getPutCreditSpreads accounts symbol
  /\ (forall s, matchesSymbolPattern s <-> exists m, execSymbol s = Some m)
  /\ (forall s, (forall c, In c (chars s) -> Chars.isPC c = false) ->
                ~ matchesSymbolPattern s)
  /\ (forall s, List.length (filter Chars.isDigit (chars s)) < 7 ->
                ~ matchesSymbolPattern s).
Proof.
  intros H.
  split; [apply ThrowFacts.getPutCreditSpreads_resolves|].
  split; [|split; [exact PatternFacts.pattern_exec|
                   split; [exact PatternFacts.no_marker
                          |exact PatternFacts.no_date]]].
  rewrite !OutputFacts.output_per_account, ListFacts.flat_map_map.
  apply flat_map_ext. intros account.
  change (positionsOf (keepPositions keep account))
    with (filter keep (positionsOf account)).
  rewrite (PatternFacts.legsOf_keep symbol keep _ H). reflexivity.
Qed.

(** An account with a symbol that lacks the date, an equity and a spread,
    from which everything but the options of the pattern is erased. *)
Lemma C4_excluded_positions_witness :
  let accounts :=
    [Sample.account [Sample.malformed; Sample.short5900; Sample.equity;
                     Sample.long5800]] in
  Throwing.getPutCreditSpreads accounts "SPX"
  = Js.Resolve (getPutCreditSpreads accounts "SPX")
  /\ getPutCreditSpreads (map (keepPositions isWellFormedOption) accounts)
                         "SPX"
     = getPutCreditSpreads accounts "SPX"
  /\ (forall s, matchesSymbolPattern s <-> exists m, execSymbol s = Some m)
  /\ (forall s, (forall c, In c (chars s) -> Chars.isPC c = false) ->
                ~ matchesSymbolPattern s)
  /\ (forall s, List.length (filter Chars.isDigit (chars s)) < 7 ->
                ~ matchesSymbolPattern s).
Proof.
  cbv zeta.
  apply (C4_excluded_positions
           [Sample.account [Sample.malformed; Sample.short5900; Sample.equity;
                            Sample.long5800]] "SPX" isWellFormedOption).
  exact PatternFacts.not_wellformed.
Defined.

(** A malformed symbol and an equity next to a spread: the output is that
    of the spread alone. *)
Example malformed_and_equity_are_skipped :
  execSymbol (symbolOf Sample.malformed) = None
  /\ getPutCreditSpreads
       [Sample.account [Sample.malformed; Sample.short5900; Sample.equity;
                        Sample.long5800]] "SPX"
     = getPutCreditSpreads
         [Sample.account [Sample.short5900; Sample.long5800]] "SPX".
Proof. split; by_computation. Qed.

(** C7. When no position of the input has the asset type OPTION, the
    output is empty, whatever the requested underlying is. *)
Theorem C7_no_options accounts symbol :
  (forall account p,
      In account accounts -> In p (positionsOf account) ->
      Instrument.assetType (SchwabPosition.instrument p) <> "OPTION"%string) ->
  getPutCreditSpreads accounts symbol = [].
Proof.
  intros H. rewrite OutputFacts.output_per_account.
  induction accounts as [|account accounts IH]; simpl; [reflexivity|].
  rewrite FilterFacts.legsOf_no_option.
  - simpl. apply IH. intros a p Ha. apply H. simpl; auto.
  - intros p Hp. apply (H account); simpl; auto.
Qed.

Lemma C7_no_options_witness :
  getPutCreditSpreads [Sample.account [Sample.equity]; Sample.account []] "SPY"
  = [].
Proof.
  apply (C7_no_options [Sample.account [Sample.equity]; Sample.account []]
                       "SPY").
  intros account p [<-|[<-|[]]] Hp; simpl in Hp.
  - destruct Hp as [<-|[]]. vm_compute. discriminate.
  - destruct Hp.
Defined.

(* ===================================================================== *)
(** ** A leg on both sides *)
(* ===================================================================== *)

Module BothSidesFacts.

Lemma ltb_irrefl (x : number) : Num.ltb x x = false.
Proof.
  unfold Num.ltb, SFltb, SFcompare.
  destruct x as [[]|[]| |[] m e]; try reflexivity;
    rewrite Z.compare_refl, Pos.compare_cont_refl; reflexivity.
Qed.

(** The spread that the loops build from two put legs. *)
Lemma spread_of_put_legs symbol k (s l : Leg) ms ml :
  putLeg symbol (legPos s) ms -> putLeg symbol (legPos l) ml ->
  spreadOfLegs legPos symbol (k, s, l)
  = makeSpread (fun p => p) symbol k (legPos s) (strikeOfMatch ms)
               (legPos l) (strikeOfMatch ml).
Proof.
  intros Ls Ll.
  destruct (PutLegFacts.putLeg_facts symbol _ ms Ls) as (_ & _ & _ & Ss).
  destruct (PutLegFacts.putLeg_facts symbol _ ml Ll) as (_ & _ & _ & Sl).
  unfold spreadOfLegs, strikeOrNaN.
  change (strikeOf legPos s) with (strikeOf (fun p => p) (legPos s)).
  change (strikeOf legPos l) with (strikeOf (fun p => p) (legPos l)).
  rewrite Ss, Sl. reflexivity.
Qed.

(** A pair of put legs of one group is paired by the body of the loop
    over the groups. *)
Lemma expiryStep_pairs symbol k g s l ms ml :
  In s g -> In l g ->
  putLeg symbol s ms -> putLeg symbol l ml ->
  Num.gtb (SchwabPosition.shortQuantity s) (Num.ofZ 0) = true ->
  Num.gtb (SchwabPosition.longQuantity l) (Num.ofZ 0) = true ->
  Num.ltb (strikeOfMatch ml) (strikeOfMatch ms) = true ->
  In (makeSpread (fun p => p) symbol k s (strikeOfMatch ms)
                 l (strikeOfMatch ml))
     (expiryStep (fun p => p) symbol [] (k, g)).
Proof.
  intros Hs Hl Ls Ll Qs Ql Hlt.
  destruct (PutLegFacts.putLeg_facts symbol s ms Ls) as (_ & _ & Ps & Ss).
  destruct (PutLegFacts.putLeg_facts symbol l ml Ll) as (_ & _ & Pl & Sl).
  rewrite expiryStep_push. simpl. apply in_map_iff.
  exists (k, s, l). split.
  - unfold spreadOfLegs, strikeOrNaN. rewrite Ss, Sl. reflexivity.
  - apply legsOfEntry_In. exists s, l. split; [reflexivity|].
    split; [exact Hs|]. split; [exact Hl|].
    unfold pairs. repeat split; try assumption.
    exists (strikeOfMatch ms), (strikeOfMatch ml). auto.
Qed.

End BothSidesFacts.

(** C8. A put with shortQuantity > 0 and longQuantity > 0 is in the short
    puts and in the long puts of its expiry group: in one call it is the
    long leg of the spread with a short put above it and the short leg of
    the spread with a long put below it.  Both spreads are in the output,
    at two different indices, with the put at its place as long leg of the
    one and as short leg of the other, and both are pushed by the one run
    of the loop body on the group of the put. *)
Theorem C8_leg_on_both_sides
        accounts symbol ai account ia ib ic a b c ma mb mc :
  nth_error accounts ai = Some account ->
  nth_error (positionsOf account) ia = Some a ->
  nth_error (positionsOf account) ib = Some b ->
  nth_error (positionsOf account) ic = Some c ->
  putLeg symbol a ma -> putLeg symbol b mb -> putLeg symbol c mc ->
  sm_expiry ma = sm_expiry mb -> sm_expiry mb = sm_expiry mc ->
  Num.gtb (SchwabPosition.shortQuantity a) (Num.ofZ 0) = true ->
  Num.gtb (SchwabPosition.shortQuantity b) (Num.ofZ 0) = true ->
  Num.gtb (SchwabPosition.longQuantity b) (Num.ofZ 0) = true ->
  Num.gtb (SchwabPosition.longQuantity c) (Num.ofZ 0) = true ->
  Num.ltb (strikeOfMatch mb) (strikeOfMatch ma) = true ->
  Num.ltb (strikeOfMatch mc) (strikeOfMatch mb) = true ->
  let above :=
    makeSpread (fun p => p) symbol (sm_expiry mb)
               a (strikeOfMatch ma) b (strikeOfMatch mb) in
  let below :=
    makeSpread (fun p => p) symbol (sm_expiry mb)
               b (strikeOfMatch mb) c (strikeOfMatch mc) in
  (exists n1 n2,
      n1 <> n2
      /\ nth_error (getPutCreditSpreads accounts symbol) n1 = Some above
      /\ nth_error (spreadOrigins accounts symbol) n1
         = Some ((ai, ia), (ai, ib))
      /\ nth_error (getPutCreditSpreads accounts symbol) n2 = Some below
      /\ nth_error (spreadOrigins accounts symbol) n2
         = Some ((ai, ib), (ai, ic)))
  /\ exists expiryPositions,
      In (sm_expiry mb, expiryPositions)
         (JSMap.entries
            (groupByExpiry (fun p => p)
               (filter (isOptionOn (fun p => p) symbol)
                       (positionsOf account))))
      /\ In b expiryPositions
      /\ In above (expiryStep (fun p => p) symbol []
                              (sm_expiry mb, expiryPositions))
      /\ In below (expiryStep (fun p => p) symbol []
                              (sm_expiry mb, expiryPositions)).
Proof.
  intros Hacc Ha Hb Hc La Lb Lc Kab Kbc Sa Sb Qb Qc Hba Hcb above below.
  split.
  - pose proof (OutputFacts.spreadLegs_intro accounts symbol ai account ia ib
                  a b ma mb Hacc Ha Hb La Lb Kab Sa Qb Hba) as H1.
    pose proof (OutputFacts.spreadLegs_intro accounts symbol ai account ib ic
                  b c mb mc Hacc Hb Hc Lb Lc Kbc Sb Qc Hcb) as H2.
    apply In_nth_error in H1 as [n1 H1]. apply In_nth_error in H2 as [n2 H2].
    exists n1, n2. split; [|split; [|split; [|split]]].
    + intros E. subst n2. rewrite H1 in H2.
      assert (Eab : a = b) by congruence.
      rewrite Eab in La.
      rewrite (PutLegFacts.putLeg_unique symbol b ma mb La Lb) in Hba.
      rewrite BothSidesFacts.ltb_irrefl in Hba. discriminate.
    + rewrite OutputFacts.output_spreadLegs.
      rewrite (map_nth_error _ _ _ H1). f_equal. rewrite Kab.
      apply (BothSidesFacts.spread_of_put_legs symbol (sm_expiry mb)
               (ai, ia, a) (ai, ib, b) ma mb); assumption.
    + unfold spreadOrigins. rewrite (map_nth_error _ _ _ H1). reflexivity.
    + rewrite OutputFacts.output_spreadLegs.
      rewrite (map_nth_error _ _ _ H2). f_equal.
      apply (BothSidesFacts.spread_of_put_legs symbol (sm_expiry mb)
               (ai, ib, b) (ai, ic, c) mb mc); assumption.
    + unfold spreadOrigins. rewrite (map_nth_error _ _ _ H2). reflexivity.
  - destruct (PutLegFacts.putLeg_facts symbol a ma La) as (Oa & Ka & _).
    destruct (PutLegFacts.putLeg_facts symbol b mb Lb) as (Ob & Kb & _).
    destruct (PutLegFacts.putLeg_facts symbol c mc Lc) as (Oc & Kc & _).
    rewrite Kab in Ka. rewrite <- Kbc in Kc.
    assert (G : forall i p,
               nth_error (positionsOf account) i = Some p ->
               isOptionOn (fun q => q) symbol p = true ->
               expiryKeyOf (fun q => q) p = Some (sm_expiry mb) ->
               In p (filter (hasKey (fun q => q) (sm_expiry mb))
                            (filter (isOptionOn (fun q => q) symbol)
                                    (positionsOf account)))).
    { intros i p Hp Op Kp. rewrite !filter_In, hasKey_true.
      repeat split; auto. eapply nth_error_In; exact Hp. }
    exists (filter (hasKey (fun q => q) (sm_expiry mb))
                   (filter (isOptionOn (fun q => q) symbol)
                           (positionsOf account))).
    pose proof (G ia a Ha Oa Ka) as Ia.
    pose proof (G ib b Hb Ob Kb) as Ib.
    pose proof (G ic c Hc Oc Kc) as Ic.
    split; [|split; [exact Ib|split]].
    + apply groupByExpiry_In. split; [reflexivity|].
      intros E. rewrite E in Ib. destruct Ib.
    + apply (BothSidesFacts.expiryStep_pairs symbol (sm_expiry mb) _ a b ma mb);
        assumption.
    + apply (BothSidesFacts.expiryStep_pairs symbol (sm_expiry mb) _ b c mb mc);
        assumption.
Qed.

(** A short put at 5900, a put at 5850 held both short and long, and a
    long put at 5800. *)
Lemma C8_leg_on_both_sides_witness :
  let positions := [Sample.short5900; Sample.both5850; Sample.long5800] in
  let accounts := [Sample.account positions] in
  let above :=
    makeSpread (fun p => p) "SPX" "241220"
               Sample.short5900 (strikeOfMatch Sample.match5900)
               Sample.both5850 (strikeOfMatch Sample.match5850) in
  let below :=
    makeSpread (fun p => p) "SPX" "241220"
               Sample.both5850 (strikeOfMatch Sample.match5850)
               Sample.long5800 (strikeOfMatch Sample.match5800) in
  (exists n1 n2,
      n1 <> n2
      /\ nth_error (getPutCreditSpreads accounts "SPX") n1 = Some above
      /\ nth_error (spreadOrigins accounts "SPX") n1 = Some ((0, 0), (0, 1))
      /\ nth_error (getPutCreditSpreads accounts "SPX") n2 = Some below
      /\ nth_error (spreadOrigins accounts "SPX") n2 = Some ((0, 1), (0, 2)))
  /\ exists expiryPositions,
      In ("241220"%string, expiryPositions)
         (JSMap.entries
            (groupByExpiry (fun p => p)
               (filter (isOptionOn (fun p => p) "SPX") positions)))
      /\ In Sample.both5850 expiryPositions
      /\ In above (expiryStep (fun p => p) "SPX" []
                              ("241220"%string, expiryPositions))
      /\ In below (expiryStep (fun p => p) "SPX" []
                              ("241220"%string, expiryPositions)).
Proof.
  cbv zeta.
  apply (C8_leg_on_both_sides
           [Sample.account [Sample.short5900; Sample.both5850; Sample.long5800]]
           "SPX" 0
           (Sample.account [Sample.short5900; Sample.both5850; Sample.long5800])
           0 1 2 Sample.short5900 Sample.both5850 Sample.long5800
           Sample.match5900 Sample.match5850 Sample.match5800);
    first [reflexivity | put_leg | by_computation].
Defined.

(* ===================================================================== *)
(** ** The expiry date *)
(* ===================================================================== *)

Module DateFacts.

Lemma truncate_small :
  forallb (fun n =>
             match Date.truncate (Num.ofZ (Z.of_nat n - 1)) with
             | Some z => (z =? Z.of_nat n - 1)%Z
             | None => false
             end)
          (seq 0 2101) = true.
Proof. vm_compute. reflexivity. Qed.

(** The integers from -1 to 2099 are numbers, and truncation gives them
    back. *)
Lemma truncate_ofZ (z : Z) :
  (-1 <= z <= 2099)%Z -> Date.truncate (Num.ofZ z) = Some z.
Proof.
  intros H. pose proof truncate_small as T.
  rewrite forallb_forall in T.
  specialize (T (Z.to_nat (z + 1))).
  replace (Z.of_nat (Z.to_nat (z + 1)) - 1)%Z with z in T by lia.
  assert (Hin : In (Z.to_nat (z + 1)) (seq 0 2101)) by (apply in_seq; lia).
  specialize (T Hin).
  destruct (Date.truncate (Num.ofZ z)) as [z'|]; [|discriminate].
  apply Z.eqb_eq in T. subst. reflexivity.
Qed.

Lemma digitValue_range c :
  Chars.isDigit c = true -> (0 <= Chars.digitValue c <= 9)%Z.
Proof.
  unfold Chars.isDigit, Chars.digitValue. intros H.
  apply andb_true_iff in H as [H1 H2].
  apply Nat.leb_le in H1. apply Nat.leb_le in H2. lia.
Qed.

(** The time value of the date built from six digits. *)
Lemma getTime_digits localOffset c1 c2 c3 c4 c5 c6 :
  forallb Chars.isDigit [c1; c2; c3; c4; c5; c6] = true ->
  Date.getTime localOffset
    (LocalDate.mk
       (Num.ofZ (2000 + (10 * Chars.digitValue c1 + Chars.digitValue c2)))
       (Num.ofZ (10 * Chars.digitValue c3 + Chars.digitValue c4 - 1))
       (Num.ofZ (10 * Chars.digitValue c5 + Chars.digitValue c6)))
  = Date.ofLocal localOffset
      (2000 + (10 * Chars.digitValue c1 + Chars.digitValue c2))
      (10 * Chars.digitValue c3 + Chars.digitValue c4 - 1)
      (10 * Chars.digitValue c5 + Chars.digitValue c6).
Proof.
  intros H. simpl in H.
  repeat (apply andb_true_iff in H as [? H]).
  repeat match goal with
         | D : Chars.isDigit _ = true |- _ =>
             apply digitValue_range in D
         end.
  unfold Date.getTime. cbn [LocalDate.year LocalDate.monthIndex LocalDate.day].
  rewrite !truncate_ofZ by lia. reflexivity.
Qed.

End DateFacts.

(** C9. Every spread of the output has the date that the local-time
    constructor [new Date(year, monthIndex, day)] is called with on the
    expiry code of its legs.  The output has one spread per pair of legs;
    the two legs of a spread are positions of one account whose symbols
    carry the same code, a string of six digits, under which the group of
    the legs is filed in the map; and the date of the spread is built
    from the code with year 2000 plus the first two digits, month index
    the next two digits minus one and day the last two digits.  Its time
    value is that of the midnight of this day in the zone of the
    platform, whatever offsets that zone has, not that of midnight
    UTC. *)
Theorem C9_expiry_date accounts symbol :
  List.length (getPutCreditSpreads accounts symbol)
  = List.length (spreadLegs accounts symbol)
  /\ forall n sp,
      nth_error (getPutCreditSpreads accounts symbol) n = Some sp ->
      exists k s l account expiryPositions ms ml c1 c2 c3 c4 c5 c6,
        nth_error (spreadLegs accounts symbol) n = Some (k, s, l)
        /\ sp = spreadOfLegs legPos symbol (k, s, l)
        /\ nth_error accounts (legAccount s) = Some account
        /\ legAccount l = legAccount s
        /\ nth_error (positionsOf account) (legIndex s) = Some (legPos s)
        /\ nth_error (positionsOf account) (legIndex l) = Some (legPos l)
        /\ In (k, expiryPositions)
              (JSMap.entries
                 (groupByExpiry (fun p => p)
                    (filter (isOptionOn (fun p => p) symbol)
                            (positionsOf account))))
        /\ In (legPos s) expiryPositions /\ In (legPos l) expiryPositions
        /\ execSymbol (symbolOf (legPos s)) = Some ms /\ sm_expiry ms = k
        /\ execSymbol (symbolOf (legPos l)) = Some ml /\ sm_expiry ml = k
        /\ k = str [c1; c2; c3; c4; c5; c6]
        /\ forallb Chars.isDigit [c1; c2; c3; c4; c5; c6] = true
        /\ PutCreditSpread.expiry sp =
           LocalDate.mk
             (Num.ofZ (2000 + (10 * Chars.digitValue c1 + Chars.digitValue c2)))
             (Num.ofZ (10 * Chars.digitValue c3 + Chars.digitValue c4 - 1))
             (Num.ofZ (10 * Chars.digitValue c5 + Chars.digitValue c6))
        /\ forall localOffset,
            Date.getTime localOffset (PutCreditSpread.expiry sp)
            = Date.ofLocal localOffset
                (2000 + (10 * Chars.digitValue c1 + Chars.digitValue c2))
                (10 * Chars.digitValue c3 + Chars.digitValue c4 - 1)
                (10 * Chars.digitValue c5 + Chars.digitValue c6).
Proof.
  split; [apply TraceFacts.output_length|].
  intros n sp Hn.
  apply TraceFacts.output_nth in Hn as (k & s & l & Hnth & ->).
  pose proof (nth_error_In _ _ Hnth) as Hin.
  apply OutputFacts.spreadLegs_inv in Hin
    as (account & ms & ml & Ha & Hl & Ps & Pl & Ls & Ll & Ks & Kl & _).
  destruct (PutLegFacts.putLeg_facts symbol _ ms Ls) as (Os & Es & _).
  destruct (PutLegFacts.putLeg_facts symbol _ ml Ll) as (Ol & El & _).
  rewrite Ks in Es. rewrite Kl in El.
  assert (G : forall i p,
             nth_error (positionsOf account) i = Some p ->
             isOptionOn (fun q => q) symbol p = true ->
             expiryKeyOf (fun q => q) p = Some k ->
             In p (filter (hasKey (fun q => q) k)
                          (filter (isOptionOn (fun q => q) symbol)
                                  (positionsOf account)))).
  { intros i p Hp Op Kp. rewrite !filter_In, hasKey_true.
    repeat split; auto. eapply nth_error_In; exact Hp. }
  pose proof (G _ _ Ps Os Es) as Is. pose proof (G _ _ Pl Ol El) as Il.
  destruct Ls as (_ & _ & Xs & _). destruct Ll as (_ & _ & Xl & _).
  destruct (SymbolFacts.execSymbol_inv _ _ Xs)
    as (g1 & ws & g2 & g3 & g4 & _ & Em & _ & _ & _ & D2 & L2 & _).
  destruct g2 as [|c1 [|c2 [|c3 [|c4 [|c5 [|c6 [|c7 g2]]]]]]]; try discriminate.
  assert (Ek : k = str [c1; c2; c3; c4; c5; c6]).
  { rewrite <- Ks, Em. reflexivity. }
  exists k, s, l, account,
         (filter (hasKey (fun q => q) k)
                 (filter (isOptionOn (fun q => q) symbol)
                         (positionsOf account))),
         ms, ml, c1, c2, c3, c4, c5, c6.
  split; [exact Hnth|]. split; [reflexivity|].
  split; [exact Ha|]. split; [exact Hl|].
  split; [exact Ps|]. split; [exact Pl|].
  split.
  { apply groupByExpiry_In. split; [reflexivity|].
    intros E. rewrite E in Is. destruct Is. }
  split; [exact Is|]. split; [exact Il|].
  split; [exact Xs|]. split; [exact Ks|].
  split; [exact Xl|]. split; [exact Kl|].
  split; [exact Ek|]. split; [exact D2|].
  assert (Ed : PutCreditSpread.expiry (spreadOfLegs legPos symbol (k, s, l))
               = LocalDate.mk
                   (Num.ofZ (2000 + (10 * Chars.digitValue c1
                                     + Chars.digitValue c2)))
                   (Num.ofZ (10 * Chars.digitValue c3
                             + Chars.digitValue c4 - 1))
                   (Num.ofZ (10 * Chars.digitValue c5
                             + Chars.digitValue c6))).
  { unfold spreadOfLegs, makeSpread. simpl. rewrite Ek.
    apply DigitFacts.expiryDate_digits. exact D2. }
  split; [exact Ed|].
  intros localOffset. rewrite Ed.
  apply DateFacts.getTime_digits. exact D2.
Qed.

(** The spread of the scenario: its legs carry the code 241220, and its
    date is built from 2024, 11 and 20. *)
Lemma C9_expiry_date_witness :
  let accounts := [Sample.account [Sample.short5900; Sample.long5800]] in
  exists k s l account expiryPositions ms ml c1 c2 c3 c4 c5 c6,
    nth_error (spreadLegs accounts "SPX") 0 = Some (k, s, l)
    /\ PutCreditSpread.mk "SPX"
         (LocalDate.mk (Num.ofZ 2024) (Num.ofZ 11) (Num.ofZ 20))
         (Num.ofZ 5900) (Num.ofZ 5800) (Num.dec 550 2) (Num.ofZ 1)
         (Num.dec 9450 2)
       = spreadOfLegs legPos "SPX" (k, s, l)
    /\ nth_error accounts (legAccount s) = Some account
    /\ legAccount l = legAccount s
    /\ nth_error (positionsOf account) (legIndex s) = Some (legPos s)
    /\ nth_error (positionsOf account) (legIndex l) = Some (legPos l)
    /\ In (k, expiryPositions)
          (JSMap.entries
             (groupByExpiry (fun p => p)
                (filter (isOptionOn (fun p => p) "SPX")
                        (positionsOf account))))
    /\ In (legPos s) expiryPositions /\ In (legPos l) expiryPositions
    /\ execSymbol (symbolOf (legPos s)) = Some ms /\ sm_expiry ms = k
    /\ execSymbol (symbolOf (legPos l)) = Some ml /\ sm_expiry ml = k
    /\ k = str [c1; c2; c3; c4; c5; c6]
    /\ forallb Chars.isDigit [c1; c2; c3; c4; c5; c6] = true
    /\ PutCreditSpread.expiry
         (PutCreditSpread.mk "SPX"
            (LocalDate.mk (Num.ofZ 2024) (Num.ofZ 11) (Num.ofZ 20))
            (Num.ofZ 5900) (Num.ofZ 5800) (Num.dec 550 2) (Num.ofZ 1)
            (Num.dec 9450 2)) =
       LocalDate.mk
         (Num.ofZ (2000 + (10 * Chars.digitValue c1 + Chars.digitValue c2)))
         (Num.ofZ (10 * Chars.digitValue c3 + Chars.digitValue c4 - 1))
         (Num.ofZ (10 * Chars.digitValue c5 + Chars.digitValue c6))
    /\ forall localOffset,
        Date.getTime localOffset
          (PutCreditSpread.expiry
             (PutCreditSpread.mk "SPX"
                (LocalDate.mk (Num.ofZ 2024) (Num.ofZ 11) (Num.ofZ 20))
                (Num.ofZ 5900) (Num.ofZ 5800) (Num.dec 550 2) (Num.ofZ 1)
                (Num.dec 9450 2)))
        = Date.ofLocal localOffset
            (2000 + (10 * Chars.digitValue c1 + Chars.digitValue c2))
            (10 * Chars.digitValue c3 + Chars.digitValue c4 - 1)
            (10 * Chars.digitValue c5 + Chars.digitValue c6).
Proof.
  cbv zeta.
  apply (proj2 (C9_expiry_date
                  [Sample.account [Sample.short5900; Sample.long5800]] "SPX")
               0).
  by_computation.
Defined.

(** The date of the scenario on a platform five hours behind UTC, as New
    York is in December: the time value is 05:00 UTC of 20 December 2024,
    five hours after the value of [Date.UTC(2024, 11, 20)]. *)
Example expiry_time_value_depends_on_zone :
  Date.getTime (fun _ => (-18000000)%Z)
               (LocalDate.mk (Num.ofZ 2024) (Num.ofZ 11) (Num.ofZ 20))
  = Some 1734670800000%Z
  /\ Date.getTime (fun _ => 0%Z)
                  (LocalDate.mk (Num.ofZ 2024) (Num.ofZ 11) (Num.ofZ 20))
     = Date.UTC 2024 11 20
  /\ Date.UTC 2024 11 20 = Some 1734652800000%Z.
Proof. repeat split; by_computation. Qed.

(* ===================================================================== *)
(** ** Accounts *)
(* ===================================================================== *)

(** C10. Legs are paired within the position list of one account only: no
    spread of the output pairs a leg of one account with a leg of
    another, also when the two would qualify as a pair, and the output is
    the concatenation of the outputs of the accounts taken one by one. *)
Theorem C10_no_cross_account accounts symbol a1 i a2 j :
  a1 <> a2 ->
  ~ In ((a1, i), (a2, j)) (spreadOrigins accounts symbol)
  /\ getPutCreditSpreads accounts symbol
     = flat_map (fun account => getPutCreditSpreads [account] symbol) accounts.
Proof.
  intros Hne. split.
  - intros Hin. unfold spreadOrigins in Hin.
    apply in_map_iff in Hin as ([[k s] l] & Eo & Hin).
    apply OutputFacts.spreadLegs_inv in Hin
      as (account & ms & ml & _ & Al & _).
    destruct s as [[a i'] p], l as [[b j'] q].
    unfold legAccount in Al. simpl in *. inversion Eo; subst. congruence.
  - rewrite OutputFacts.output_per_account.
    apply flat_map_ext. intros account.
    rewrite OutputFacts.output_per_account. simpl.
    rewrite app_nil_r. reflexivity.
Qed.

Lemma C10_no_cross_account_witness :
  let accounts := [Sample.account [Sample.short5900];
                   Sample.account [Sample.long5800]] in
  ~ In ((0, 0), (1, 0)) (spreadOrigins accounts "SPX")
  /\ getPutCreditSpreads accounts "SPX"
     = flat_map (fun account => getPutCreditSpreads [account] "SPX") accounts.
Proof.
  cbv zeta.
  apply (C10_no_cross_account
           [Sample.account [Sample.short5900];
            Sample.account [Sample.long5800]] "SPX" 0 0 1 0).
  discriminate.
Defined.

(** The same two legs are paired when they stand in one account and are
    not when they stand in two. *)
Example accounts_are_not_merged :
  getPutCreditSpreads [Sample.account [Sample.short5900];
                       Sample.account [Sample.long5800]] "SPX" = []
  /\ List.length (getPutCreditSpreads
                    [Sample.account [Sample.short5900; Sample.long5800]] "SPX")
     = 1.
Proof. split; by_computation. Qed.

(* ===================================================================== *)
(** ** Two short legs over one long leg *)
(* ===================================================================== *)

(** The triples collected from two short puts at 5900 and 5950 and one
    long put at 5800. *)
Lemma cartesian_legs (q1 q2 ql a1 a2 al : number) :
  Num.gtb q1 (Num.ofZ 0) = true ->
  Num.gtb q2 (Num.ofZ 0) = true ->
  Num.gtb ql (Num.ofZ 0) = true ->
  spreadLegs
    [Sample.account
       [Sample.optionPosition "SPX" "SPX   241220P05900000" q1 Sample.zero a1;
        Sample.optionPosition "SPX" "SPX   241220P05950000" q2 Sample.zero a2;
        Sample.optionPosition "SPX" "SPX   241220P05800000" Sample.zero ql al]]
    "SPX"
  = [ ("241220"%string,
       (0, 0, Sample.optionPosition "SPX" "SPX   241220P05900000"
                                    q1 Sample.zero a1),
       (0, 2, Sample.optionPosition "SPX" "SPX   241220P05800000"
                                    Sample.zero ql al));
      ("241220"%string,
       (0, 1, Sample.optionPosition "SPX" "SPX   241220P05950000"
                                    q2 Sample.zero a2),
       (0, 2, Sample.optionPosition "SPX" "SPX   241220P05800000"
                                    Sample.zero ql al)) ].
Proof.
  intros H1 H2 Hl.
  destruct q1 as [b1|b1| |b1 m1 e1]; try destruct b1;
    try (vm_compute in H1; discriminate H1);
    destruct q2 as [b2|b2| |b2 m2 e2]; try destruct b2;
    try (vm_compute in H2; discriminate H2);
    destruct ql as [bl|bl| |bl ml el]; try destruct bl;
    try (vm_compute in Hl; discriminate Hl);
    clear H1 H2 Hl; by_computation.
Qed.

(** C6. Two short puts at 5900 and 5950 and one long put at 5800, on the
    same underlying and with the same expiry code, whatever their
    quantities and prices are: the output holds exactly two spreads, one
    per short leg in the order of the input, both with the same long leg
    and each with its quantity taken against the longQuantity of that
    leg. *)
Theorem C6_cartesian_pairing (q1 q2 ql a1 a2 al : number) :
  Num.gtb q1 (Num.ofZ 0) = true ->
  Num.gtb q2 (Num.ofZ 0) = true ->
  Num.gtb ql (Num.ofZ 0) = true ->
  let s1 := Sample.optionPosition "SPX" "SPX   241220P05900000"
                                  q1 Sample.zero a1 in
  let s2 := Sample.optionPosition "SPX" "SPX   241220P05950000"
                                  q2 Sample.zero a2 in
  let l := Sample.optionPosition "SPX" "SPX   241220P05800000"
                                 Sample.zero ql al in
  let accounts := [Sample.account [s1; s2; l]] in
  spreadOrigins accounts "SPX" = [((0, 0), (0, 2)); ((0, 1), (0, 2))]
  /\ getPutCreditSpreads accounts "SPX" =
     [ PutCreditSpread.mk "SPX" Sample.dec20 (Num.ofZ 5900) (Num.ofZ 5800)
         (Num.sub a1 al) (Num.min q1 ql)
         (Num.sub (Num.ofZ 100) (Num.sub a1 al));
       PutCreditSpread.mk "SPX" Sample.dec20 (Num.ofZ 5950) (Num.ofZ 5800)
         (Num.sub a2 al) (Num.min q2 ql)
         (Num.sub (Num.ofZ 150) (Num.sub a2 al)) ].
Proof.
  intros H1 H2 Hl. cbv zeta.
  pose proof (cartesian_legs q1 q2 ql a1 a2 al H1 H2 Hl) as E.
  split.
  - unfold spreadOrigins. rewrite E. reflexivity.
  - rewrite OutputFacts.output_spreadLegs, E.
    assert (D : expiryDate "241220" = Sample.dec20) by by_computation.
    assert (W1 : Num.sub (Num.ofZ 5900) (Num.ofZ 5800) = Num.ofZ 100)
      by by_computation.
    assert (W2 : Num.sub (Num.ofZ 5950) (Num.ofZ 5800) = Num.ofZ 150)
      by by_computation.
    assert (K1 : forall i p q a,
               strikeOrNaN legPos
                 (0, i, Sample.optionPosition "SPX" "SPX   241220P05900000" p q a)
               = Num.ofZ 5900) by (intros; by_computation).
    assert (K2 : forall i p q a,
               strikeOrNaN legPos
                 (0, i, Sample.optionPosition "SPX" "SPX   241220P05950000" p q a)
               = Num.ofZ 5950) by (intros; by_computation).
    assert (K3 : forall i p q a,
               strikeOrNaN legPos
                 (0, i, Sample.optionPosition "SPX" "SPX   241220P05800000" p q a)
               = Num.ofZ 5800) by (intros; by_computation).
    simpl map. unfold spreadOfLegs, makeSpread.
    rewrite !K1, !K2, !K3, D, W1, W2. reflexivity.
Qed.

Lemma C6_cartesian_pairing_witness :
  let s1 := Sample.optionPosition "SPX" "SPX   241220P05900000"
                                  (Num.ofZ 3) Sample.zero (Num.dec 1250 2) in
  let s2 := Sample.optionPosition "SPX" "SPX   241220P05950000"
                                  (Num.ofZ 1) Sample.zero (Num.dec 1500 2) in
  let l := Sample.optionPosition "SPX" "SPX   241220P05800000"
                                 Sample.zero (Num.ofZ 2) (Num.dec 700 2) in
  let accounts := [Sample.account [s1; s2; l]] in
  spreadOrigins accounts "SPX" = [((0, 0), (0, 2)); ((0, 1), (0, 2))]
  /\ getPutCreditSpreads accounts "SPX" =
     [ PutCreditSpread.mk "SPX" Sample.dec20 (Num.ofZ 5900) (Num.ofZ 5800)
         (Num.sub (Num.dec 1250 2) (Num.dec 700 2))
         (Num.min (Num.ofZ 3) (Num.ofZ 2))
         (Num.sub (Num.ofZ 100) (Num.sub (Num.dec 1250 2) (Num.dec 700 2)));
       PutCreditSpread.mk "SPX" Sample.dec20 (Num.ofZ 5950) (Num.ofZ 5800)
         (Num.sub (Num.dec 1500 2) (Num.dec 700 2))
         (Num.min (Num.ofZ 1) (Num.ofZ 2))
         (Num.sub (Num.ofZ 150) (Num.sub (Num.dec 1500 2) (Num.dec 700 2))) ].
Proof.
  apply (C6_cartesian_pairing (Num.ofZ 3) (Num.ofZ 1) (Num.ofZ 2)
                              (Num.dec 1250 2) (Num.dec 1500 2) (Num.dec 700 2));
    by_computation.
Defined.

(** In that sample the two quantities are min(3, 2) = 2 and min(1, 2) = 1
    and the two credits 5.50 and 8.00. *)
Example cartesian_sample_values :
  (Num.min (Num.ofZ 3) (Num.ofZ 2), Num.min (Num.ofZ 1) (Num.ofZ 2),
   Num.sub (Num.dec 1250 2) (Num.dec 700 2),
   Num.sub (Num.dec 1500 2) (Num.dec 700 2))
  = (Num.ofZ 2, Num.ofZ 1, Num.dec 550 2, Num.ofZ 8).
Proof. by_computation. Qed.

(* ===================================================================== *)
(** ** Further facts about numbers *)
(* ===================================================================== *)

Module OrderFacts.

(** Comparison is antisymmetric. *)
Lemma compare_antisym (x y : number) :
  SFcompare y x = option_map CompOpp (SFcompare x y).
Proof.
  unfold SFcompare.
  destruct x as [sx|sx| |sx mx ex], y as [sy|sy| |sy my ey];
    try destruct sx; try destruct sy; simpl; try reflexivity.
  - rewrite (Z.compare_antisym ex ey).
    change (Pos.compare_cont Eq my mx) with (Pos.compare my mx).
    change (Pos.compare_cont Eq mx my) with (Pos.compare mx my).
    rewrite (Pos.compare_antisym mx my).
    destruct (ex ?= ey)%Z; simpl; try reflexivity;
      destruct (mx ?= my)%positive; reflexivity.
  - rewrite (Z.compare_antisym ex ey).
    change (Pos.compare_cont Eq my mx) with (Pos.compare my mx).
    change (Pos.compare_cont Eq mx my) with (Pos.compare mx my).
    rewrite (Pos.compare_antisym mx my).
    destruct (ex ?= ey)%Z; simpl; try reflexivity;
      destruct (mx ?= my)%positive; reflexivity.
Qed.

(** Between two numbers that are not [NaN], what is not greater is less
    or equal. *)
Lemma not_gtb_leb (x y : number) :
  Js.isNaN x = false -> Js.isNaN y = false ->
  Num.gtb x y = false -> Num.leb x y = true.
Proof.
  unfold Num.gtb, Num.leb, SFltb, SFleb. rewrite (compare_antisym x y).
  intros Hx Hy.
  destruct (SFcompare x y) as [[| |]|] eqn:E; simpl; try congruence.
  destruct x, y; simpl in *; try discriminate;
    repeat match goal with b : bool |- _ => destruct b end; discriminate.
Qed.

(** The smaller of two positive numbers is positive. *)
Lemma min_positive (x y : number) :
  Num.gtb x (Num.ofZ 0) = true -> Num.gtb y (Num.ofZ 0) = true ->
  Num.gtb (Num.min x y) (Num.ofZ 0) = true.
Proof.
  intros Hx Hy. unfold Num.min.
  destruct (SFcompare x y) as [[| |]|] eqn:E; auto.
  - destruct (Num.isNegZero y); auto.
  - destruct x, y; simpl in *; try discriminate;
      repeat match goal with b : bool |- _ => destruct b end; discriminate.
Qed.

End OrderFacts.

(* ===================================================================== *)
(** ** Further properties of the spread reconstruction *)
(* ===================================================================== *)

Module GroupOrderFacts.

Lemma get_is_Some_existsb V k (m : JSMap.t V) :
  match JSMap.get k m with Some _ => true | None => false end
  = existsb (String.eqb k) (JSMap.keys m).
Proof.
  induction m as [|[k' v] m IH]; simpl; [reflexivity|].
  destruct (String.eqb k k'); simpl; [reflexivity | exact IH].
Qed.

Lemma group_keys {A} (pos : A -> SchwabPosition.t) (L : list A)
      (m : JSMap.t (list A)) :
  JSMap.keys (fold_left (groupStep pos) L m)
  = addKeys (JSMap.keys m) (expiryKeysOf pos L).
Proof.
  revert m. induction L as [|a L IH]; intros m; simpl; [reflexivity|].
  rewrite IH, groupStep_key. unfold expiryKeysOf at 2. simpl.
  fold (expiryKeysOf pos L).
  destruct (expiryKeyOf pos a) as [k|]; simpl; [|reflexivity].
  rewrite JSMapFacts.keys_set, <- get_is_Some_existsb.
  destruct (JSMap.get k m); reflexivity.
Qed.

Lemma existsb_filter_ne k k0 (l : list string) :
  String.eqb k k0 = false ->
  existsb (String.eqb k) (filter (fun k' => negb (String.eqb k' k0)) l)
  = existsb (String.eqb k) l.
Proof.
  intros Hne. induction l as [|x l IH]; simpl; [reflexivity|].
  destruct (String.eqb x k0) eqn:E; simpl.
  - apply String.eqb_eq in E. subst x. rewrite Hne. exact IH.
  - rewrite IH. reflexivity.
Qed.

Lemma filter_unseen_drop k seen (l : list string) :
  existsb (String.eqb k) seen = true ->
  filter (fun x => negb (existsb (String.eqb x) seen)) l
  = filter (fun x => negb (existsb (String.eqb x) seen))
           (filter (fun x => negb (String.eqb x k)) l).
Proof.
  intros E. induction l as [|x l IHl]; simpl; [reflexivity|].
  destruct (String.eqb x k) eqn:Ex; simpl.
  - apply String.eqb_eq in Ex. subst x. rewrite E. simpl. exact IHl.
  - destruct (existsb (String.eqb x) seen); simpl; [exact IHl|].
    rewrite IHl. reflexivity.
Qed.

Lemma filter_unseen_add k seen (l : list string) :
  filter (fun x => negb (existsb (String.eqb x) (seen ++ [k]))) l
  = filter (fun x => negb (existsb (String.eqb x) seen))
           (filter (fun x => negb (String.eqb x k)) l).
Proof.
  induction l as [|x l IHl]; simpl; [reflexivity|].
  rewrite existsb_app. simpl. rewrite orb_false_r.
  destruct (String.eqb x k) eqn:Ex; simpl.
  - rewrite orb_true_r. simpl. exact IHl.
  - rewrite orb_false_r.
    destruct (existsb (String.eqb x) seen); simpl; [exact IHl|].
    rewrite IHl. reflexivity.
Qed.

(** The keys added are the new ones, each once, in the order of their
    first occurrence. *)
Lemma addKeys_distinct seen ks :
  addKeys seen ks
  = seen ++ filter (fun k => negb (existsb (String.eqb k) seen))
                   (Obj.distinct ks).
Proof.
  revert seen. induction ks as [|k r IH]; intros seen; simpl.
  - rewrite app_nil_r. reflexivity.
  - destruct (existsb (String.eqb k) seen) eqn:E; simpl.
    + rewrite IH. f_equal. apply filter_unseen_drop. exact E.
    + rewrite IH, <- app_assoc. simpl. f_equal. f_equal.
      apply filter_unseen_add.
Qed.

End GroupOrderFacts.

(** X1. The grouping loop leaves one entry per expiry code that occurs, in the
    order in which the codes first occur in the list, and the entry of a
    code holds the elements of that code in the order of the list. *)
Theorem byExpiry_groups {A : Type} (pos : A -> SchwabPosition.t) (L : list A) :
  JSMap.keys (groupByExpiry pos L) = Obj.distinct (expiryKeysOf pos L)
  /\ forall k,
      JSMap.get k (groupByExpiry pos L)
      = match filter (hasKey pos k) L with
        | [] => None
        | a :: g => Some (a :: g)
        end.
Proof.
  split.
  - unfold groupByExpiry. rewrite GroupOrderFacts.group_keys.
    rewrite GroupOrderFacts.addKeys_distinct. simpl.
    induction (Obj.distinct (expiryKeysOf pos L)) as [|k l IH]; simpl;
      [reflexivity | rewrite IH; reflexivity].
  - intros k. unfold groupByExpiry. rewrite group_get. simpl.
    destruct (filter (hasKey pos k) L); reflexivity.
Qed.

(** X2. Every spread of the output has a quantity that is strictly positive:
    it is never zero, negative or [NaN]. *)
Theorem spread_quantity_positive accounts symbol :
  Forall (fun sp => Num.gtb (PutCreditSpread.quantity sp) (Num.ofZ 0) = true)
         (getPutCreditSpreads accounts symbol).
Proof.
  apply Forall_forall. intros sp Hsp.
  rewrite OutputFacts.output_spreadLegs in Hsp.
  apply in_map_iff in Hsp as ([[k s] l] & <- & Hin).
  apply OutputFacts.spreadLegs_inv in Hin
    as (account & ms & ml & _ & _ & _ & _ & _ & _ & _ & _ & Hs & Hl & _).
  unfold spreadOfLegs, makeSpread. simpl.
  apply OrderFacts.min_positive; assumption.
Qed.

Lemma legsOf_other_underlyings symbol (L : list SchwabPosition.t) :
  legsOf (fun q => q) symbol
         (filter (fun p =>
                    match Instrument.underlyingSymbol
                            (SchwabPosition.instrument p) with
                    | Some u => String.eqb u symbol
                    | None => false
                    end) L)
  = legsOf (fun q => q) symbol L.
Proof.
  unfold legsOf. f_equal. f_equal. f_equal.
  induction L as [|p L IH]; simpl; [reflexivity|].
  unfold isOptionOn at 2 3.
  destruct (Instrument.underlyingSymbol (SchwabPosition.instrument p))
    as [u|] eqn:Eu; simpl.
  - destruct (String.eqb u symbol) eqn:Es; simpl.
    + unfold isOptionOn at 1. rewrite Eu, Es.
      destruct (String.eqb (Instrument.assetType (SchwabPosition.instrument p))
                           "OPTION"); simpl; rewrite IH; reflexivity.
    + rewrite andb_false_r. exact IH.
  - rewrite andb_false_r. exact IH.
Qed.

(** X3. The positions whose underlying is not the requested one, compared
    exactly and with its case, contribute nothing: the output is the one
    obtained after erasing them from every account. *)
Theorem other_underlyings_ignored accounts symbol :
  getPutCreditSpreads (map (dropOtherUnderlyings symbol) accounts) symbol
  = getPutCreditSpreads accounts symbol.
Proof.
  rewrite !OutputFacts.output_per_account, ListFacts.flat_map_map.
  apply flat_map_ext. intros account.
  unfold dropOtherUnderlyings.
  change (positionsOf (withPositions account ?l)) with l.
  rewrite legsOf_other_underlyings. reflexivity.
Qed.

(* ===================================================================== *)
(** ** Facts about [split], [join] and percent-encoding *)
(* ===================================================================== *)

Module TextFacts.

Lemma chars_append (a b : string) :
  chars (a ++ b)%string = chars a ++ chars b.
Proof.
  induction a as [|c a IH]; simpl; [reflexivity|].
  unfold chars in *. simpl. rewrite IH. reflexivity.
Qed.

Lemma str_app (a b : list ascii) : str (a ++ b) = (str a ++ str b)%string.
Proof.
  induction a as [|c a IH]; simpl; [reflexivity|].
  unfold str in *. simpl. rewrite IH. reflexivity.
Qed.

Lemma splitChars_nonempty sep s : Js.splitChars sep s <> [].
Proof.
  destruct s as [|c r]; simpl; [discriminate|].
  destruct (Ascii.eqb c sep); [discriminate|].
  destruct (Js.splitChars sep r); discriminate.
Qed.

(** No segment of a split holds the separator. *)
Lemma splitChars_no_sep sep s :
  Forall (fun seg => ~ In sep seg) (Js.splitChars sep s).
Proof.
  induction s as [|c r IH]; simpl.
  - repeat constructor. simpl; tauto.
  - destruct (Ascii.eqb c sep) eqn:E.
    + constructor; [simpl; tauto | exact IH].
    + destruct (Js.splitChars sep r) as [|seg segs].
      * repeat constructor. simpl. intros [H|[]]. subst.
        rewrite Ascii.eqb_refl in E. discriminate.
      * inversion IH; subst. constructor; [|assumption].
        simpl. intros [H|H]; [|tauto]. subst.
        rewrite Ascii.eqb_refl in E. discriminate.
Qed.

(** The last segment of a split is the text after the last separator. *)
Lemma splitChars_last sep s :
  exists pre,
    s = pre ++ last (Js.splitChars sep s) []
    /\ match Js.splitChars sep s with
       | [_] => pre = []
       | _ => exists pre', pre = pre' ++ [sep]
       end.
Proof.
  induction s as [|c r IH]; simpl.
  - exists []. auto.
  - destruct IH as (pre & Er & Hpre).
    pose proof (splitChars_nonempty sep r) as Hne.
    destruct (Ascii.eqb c sep) eqn:E.
    + apply Ascii.eqb_eq in E. subst c.
      destruct (Js.splitChars sep r) as [|seg segs] eqn:Es; [congruence|].
      exists (sep :: pre). split.
      * simpl. f_equal. exact Er.
      * destruct segs as [|seg' segs'].
        -- subst pre. exists []. reflexivity.
        -- destruct Hpre as [pre' ->]. exists (sep :: pre'). reflexivity.
    + destruct (Js.splitChars sep r) as [|seg segs] eqn:Es; [congruence|].
      destruct segs as [|seg' segs'].
      * subst pre. exists []. simpl in *. split; [f_equal; exact Er | reflexivity].
      * destruct Hpre as [pre' ->]. exists (c :: pre' ++ [sep]). split.
        -- simpl in *. f_equal. exact Er.
        -- exists (c :: pre'). reflexivity.
Qed.

Lemma last_In {X} (l : list X) d : l <> [] -> In (last l d) l.
Proof.
  induction l as [|x l IH]; [congruence|]. intros _.
  destruct l as [|y l]; [left; reflexivity|].
  right. apply IH. discriminate.
Qed.

Lemma splitChars_app sep (a b : list ascii) :
  ~ In sep a ->
  Js.splitChars sep (a ++ b)
  = match Js.splitChars sep b with
    | s0 :: segs => (a ++ s0) :: segs
    | [] => [a]
    end.
Proof.
  induction a as [|c a IHa]; intros Ha; simpl.
  - destruct (Js.splitChars sep b) eqn:Eb; [|reflexivity].
    exfalso. exact (splitChars_nonempty sep b Eb).
  - destruct (Ascii.eqb c sep) eqn:E.
    + apply Ascii.eqb_eq in E. subst. exfalso. apply Ha. left; reflexivity.
    + rewrite IHa by (intros H; apply Ha; right; exact H).
      destruct (Js.splitChars sep b); reflexivity.
Qed.

(** Splitting a text that was joined from segments without separator
    gives the segments back. *)
Lemma splitChars_join sep (l : list (list ascii)) :
  l <> [] -> Forall (fun seg => ~ In sep seg) l ->
  Js.splitChars sep
    (chars (Js.join (String sep EmptyString) (map str l))) = l.
Proof.
  induction l as [|seg l IH]; [congruence|]. intros _ Hall.
  inversion Hall as [|? ? Hseg Hl]; subst.
  destruct l as [|seg' l'].
  - simpl. unfold Js.join. simpl. rewrite SymbolFacts.chars_str.
    rewrite <- (app_nil_r seg) at 1. rewrite splitChars_app by assumption.
    simpl. rewrite app_nil_r. reflexivity.
  - unfold Js.join in *. simpl map. simpl String.concat.
    rewrite !chars_append, SymbolFacts.chars_str.
    rewrite splitChars_app by assumption.
    change (chars (String sep EmptyString)) with [sep]. simpl app.
    simpl Js.splitChars. rewrite Ascii.eqb_refl.
    rewrite app_nil_r. f_equal.
    apply IH; [discriminate | assumption].
Qed.

(** The code of a character is below 256. *)
Lemma code_bound c : Chars.code c < 256.
Proof. unfold Chars.code. apply nat_ascii_bounded. Qed.

Lemma hexDigit_encoded n : n < 16 -> isEncodedChar (Js.hexDigit n) = true.
Proof.
  intros H.
  do 16 (destruct n as [|n]; [reflexivity|]).
  exfalso. lia.
Qed.

Lemma percent_encoded b :
  b < 256 -> forallb isEncodedChar (Js.percent b) = true.
Proof.
  intros H.
  assert (H1 : b / 16 < 16) by (apply Nat.Div0.div_lt_upper_bound; lia).
  assert (H2 : b mod 16 < 16) by (apply Nat.mod_upper_bound; discriminate).
  pose proof (hexDigit_encoded (b / 16) H1) as E1.
  pose proof (hexDigit_encoded (b mod 16) H2) as E2.
  unfold Js.percent. cbn [forallb]. rewrite E1, E2. reflexivity.
Qed.

Lemma percentUtf8_encoded c : forallb isEncodedChar (Js.percentUtf8 c) = true.
Proof.
  unfold Js.percentUtf8. pose proof (code_bound c) as H.
  destruct (Chars.code c <? 128) eqn:E.
  - apply percent_encoded. exact H.
  - rewrite forallb_app, !percent_encoded; [reflexivity | |].
    + pose proof (Nat.mod_upper_bound (Chars.code c) 64). lia.
    + assert (Chars.code c / 64 < 4)
        by (apply Nat.Div0.div_lt_upper_bound; lia).
      lia.
Qed.

(** [encodeURIComponent] yields unreserved characters, percent signs and
    hexadecimal digits only. *)
Lemma encodeURIComponent_chars s :
  forallb isEncodedChar (chars (Js.encodeURIComponent s)) = true.
Proof.
  unfold Js.encodeURIComponent. rewrite SymbolFacts.chars_str.
  induction (chars s) as [|c l IH]; simpl; [reflexivity|].
  rewrite forallb_app, IH, andb_true_r.
  destruct (Js.isUnreserved c) eqn:E.
  - simpl. unfold isEncodedChar. rewrite E. reflexivity.
  - apply percentUtf8_encoded.
Qed.

Lemma encoded_no_comma l :
  forallb isEncodedChar l = true -> ~ In ","%char l.
Proof.
  intros H Hin. rewrite forallb_forall in H.
  specialize (H _ Hin). discriminate.
Qed.

End TextFacts.

(* ===================================================================== *)
(** ** Endpoints *)
(* ===================================================================== *)

Module EndpointFacts.

Lemma join_chars (P : ascii -> bool) sep (l : list string) :
  forallb P (chars sep) = true ->
  Forall (fun s => forallb P (chars s) = true) l ->
  forallb P (chars (Js.join sep l)) = true.
Proof.
  intros Hsep Hl. unfold Js.join.
  induction l as [|s l IH]; simpl; [reflexivity|].
  inversion Hl; subst. destruct l as [|s' l']; [assumption|].
  rewrite !TextFacts.chars_append, !forallb_app.
  rewrite Hsep. rewrite IH by assumption.
  match goal with H : forallb P (chars s) = true |- _ => rewrite H end.
  reflexivity.
Qed.

Lemma substring_all (s : string) : substring 0 (String.length s) s = s.
Proof. induction s as [|c s IH]; simpl; [reflexivity | rewrite IH; reflexivity]. Qed.

Lemma last_map {X Y} (f : X -> Y) (l : list X) d :
  last (map f l) (f d) = f (last l d).
Proof.
  induction l as [|x l IH]; simpl; [reflexivity|].
  destruct l as [|y l]; [reflexivity | exact IH].
Qed.

Lemma orderIdOfLocation_Some h :
  orderIdOfLocation (Some h) = str (last (Js.splitChars "/" (chars h)) []).
Proof.
  unfold orderIdOfLocation, Js.split, pop.
  pose proof (TextFacts.splitChars_nonempty "/" (chars h)) as Hne.
  destruct (Js.splitChars "/" (chars h)) as [|seg segs] eqn:E; [congruence|].
  change (map str (seg :: segs)) with (str seg :: map str segs).
  change (str seg :: map str segs) with (map str (seg :: segs)).
  change EmptyString with (str []).
  rewrite last_map. reflexivity.
Qed.

End EndpointFacts.

(** X4. The symbols of [getQuotes] cannot run into each other: for a list that
    is not empty, the value of the [symbols] parameter holds only
    unreserved characters, percent signs, hexadecimal digits and commas,
    and splitting it at the commas gives back the encoded symbols, one per
    symbol asked for. *)
Theorem getQuotes_symbols_roundtrip (symbols : list string) :
  symbols <> [] ->
  exists symbolsStr,
    getQuotesEndpoint symbols
    = ("/marketdata/v1/quotes?symbols=" ++ symbolsStr)%string
    /\ Js.split "," symbolsStr = map Js.encodeURIComponent symbols
    /\ forallb (fun c => isEncodedChar c || Ascii.eqb c ",")
               (chars symbolsStr) = true.
Proof.
  intros Hne.
  exists (Js.join "," (map Js.encodeURIComponent symbols)).
  split; [reflexivity|]. split.
  - unfold Js.split.
    assert (E : map Js.encodeURIComponent symbols
                = map str (map (fun s => chars (Js.encodeURIComponent s)) symbols)).
    { rewrite map_map. apply map_ext. intros s.
      symmetry. apply SymbolFacts.str_chars. }
    rewrite E at 1. rewrite TextFacts.splitChars_join.
    + symmetry. exact E.
    + destruct symbols; [congruence | discriminate].
    + apply Forall_forall. intros seg Hseg.
      apply in_map_iff in Hseg as (s & <- & _).
      apply TextFacts.encoded_no_comma, TextFacts.encodeURIComponent_chars.
  - apply EndpointFacts.join_chars; [reflexivity|].
    apply Forall_forall. intros e He.
    apply in_map_iff in He as (s & <- & _).
    pose proof (TextFacts.encodeURIComponent_chars s) as H.
    rewrite forallb_forall in H. apply forallb_forall.
    intros c Hc. rewrite (H c Hc). reflexivity.
Qed.

Lemma getQuotes_symbols_roundtrip_witness :
  exists symbolsStr,
    getQuotesEndpoint ["$IRX"; "BRK/B"; "A,B"]%string
    = ("/marketdata/v1/quotes?symbols=" ++ symbolsStr)%string
    /\ Js.split "," symbolsStr
       = map Js.encodeURIComponent ["$IRX"; "BRK/B"; "A,B"]%string
    /\ forallb (fun c => isEncodedChar c || Ascii.eqb c ",")
               (chars symbolsStr) = true.
Proof.
  apply (getQuotes_symbols_roundtrip ["$IRX"; "BRK/B"; "A,B"]%string).
  discriminate.
Defined.

(** The endpoint of the sample: the dollar sign, the slash and the comma
    of the symbols are percent-encoded. *)
Example getQuotes_sample_endpoint :
  getQuotesEndpoint ["$IRX"; "BRK/B"; "A,B"]%string
  = "/marketdata/v1/quotes?symbols=%24IRX,BRK%2FB,A%2CB"%string.
Proof. by_computation. Qed.

(** X5. An endpoint may be given with or without its leading slash: for an
    endpoint that does not start with a slash, both writings give the URL
    made of the base, one slash and the endpoint.  One slash only is
    removed. *)
Theorem requestUrl_leading_slash (endpoint : string) :
  Js.startsWith endpoint "/" = false ->
  requestUrl ("/" ++ endpoint) = requestUrl endpoint
  /\ requestUrl endpoint = (SCHWAB_API_BASE_URL ++ "/" ++ endpoint)%string
  /\ requestUrl ("//" ++ endpoint)
     = (SCHWAB_API_BASE_URL ++ "//" ++ endpoint)%string.
Proof.
  intros H. unfold requestUrl. rewrite H.
  assert (P : forall s, Js.startsWith ("/" ++ s) "/" = true).
  { intros s. unfold Js.startsWith. simpl. destruct s; reflexivity. }
  assert (E : forall s, Js.sliceFrom ("/" ++ s) 1 = s).
  { intros s. unfold Js.sliceFrom. simpl. rewrite Nat.sub_0_r.
    apply EndpointFacts.substring_all. }
  change ("//" ++ endpoint)%string with ("/" ++ ("/" ++ endpoint))%string.
  rewrite !P, !E. repeat split; reflexivity.
Qed.

Lemma requestUrl_leading_slash_witness :
  requestUrl "/trader/v1/userPreference" = requestUrl "trader/v1/userPreference"
  /\ requestUrl "trader/v1/userPreference"
     = "https://api.schwabapi.com/trader/v1/userPreference"%string
  /\ requestUrl "//trader/v1/userPreference"
     = "https://api.schwabapi.com//trader/v1/userPreference"%string.
Proof.
  apply (requestUrl_leading_slash "trader/v1/userPreference").
  reflexivity.
Defined.

(** X6. The order id of [placeOrder]: when the method resolves, the account
    hash was not empty and the response was ok; without [Location] header
    the id is the text unknown, and with one it is the text after the last
    slash of the header, which holds no slash and is empty when the header
    ends with a slash. *)
Theorem placeOrder_order_id
        (numberToString : number -> string) (Order : Type)
        (stringify : Order -> string) accessToken fetch accountHash
        (order : Order) orderId :
  placeOrder numberToString Order stringify accessToken fetch accountHash order
  = Js.Resolve orderId ->
  accountHash <> EmptyString
  /\ exists url headers response,
      fetch url headers (stringify order) = Js.Resolve response
      /\ url = (SCHWAB_API_BASE_URL ++ "/trader/v1/accounts/" ++ accountHash
                ++ "/orders")%string
      /\ Obj.get "Authorization" headers = Some ("Bearer " ++ accessToken)%string
      /\ or_ok response = true
      /\ match or_location response with
         | None => orderId = "unknown"%string
         | Some h =>
             ~ In "/"%char (chars orderId)
             /\ exists pre, h = (pre ++ orderId)%string /\ endsSegment pre
         end.
Proof.
  unfold placeOrder. intros H.
  destruct (Js.truthyString accountHash) eqn:Eh; simpl in H; [|discriminate].
  split.
  { intros ->. discriminate. }
  match type of H with
  | match fetch ?u ?h ?b with _ => _ end = _ =>
      exists u, h; destruct (fetch u h b) as [response|msg] eqn:Ef;
        [|discriminate]
  end.
  exists response. destruct (or_ok response) eqn:Eok; simpl in H; [|discriminate].
  inversion H; subst orderId. clear H.
  split; [reflexivity|]. split; [reflexivity|]. split; [reflexivity|].
  split; [reflexivity|].
  destruct (or_location response) as [h|]; [|reflexivity].
  rewrite EndpointFacts.orderIdOfLocation_Some, SymbolFacts.chars_str.
  split.
  - pose proof (TextFacts.splitChars_no_sep "/" (chars h)) as Hall.
    rewrite Forall_forall in Hall. apply Hall.
    apply TextFacts.last_In. apply TextFacts.splitChars_nonempty.
  - destruct (TextFacts.splitChars_last "/" (chars h)) as (pre & E & Hpre).
    exists (str pre). split.
    + rewrite <- TextFacts.str_app, <- E. symmetry. apply SymbolFacts.str_chars.
    + destruct (Js.splitChars "/" (chars h)) as [|seg [|seg' segs]].
      * destruct Hpre as [pre' ->]. right. exists (str pre').
        apply TextFacts.str_app.
      * subst pre. left. reflexivity.
      * destruct Hpre as [pre' ->]. right. exists (str pre').
        apply TextFacts.str_app.
Qed.

Lemma placeOrder_order_id_witness :
  let fetch :=
    fun (url : string) (headers : Obj.t string) (body : string) =>
      Js.Resolve
        (mkOrderResponse true (Num.ofZ 201) "Created" EmptyString
           (Some "https://api.schwabapi.com/trader/v1/accounts/HASH/orders/1004055538123"%string)) in
  "HASH"%string <> EmptyString
  /\ exists url headers response,
      fetch url headers "{}"%string = Js.Resolve response
      /\ url = (SCHWAB_API_BASE_URL ++ "/trader/v1/accounts/" ++ "HASH"
                ++ "/orders")%string
      /\ Obj.get "Authorization" headers = Some ("Bearer " ++ "token")%string
      /\ or_ok response = true
      /\ match or_location response with
         | None => "1004055538123"%string = "unknown"%string
         | Some h =>
             ~ In "/"%char (chars "1004055538123")
             /\ exists pre,
                 h = (pre ++ "1004055538123")%string /\ endsSegment pre
         end.
Proof.
  cbv zeta.
  apply (placeOrder_order_id
           (fun _ => EmptyString) unit (fun _ => "{}"%string) "token"
           (fun (url : string) (headers : Obj.t string) (body : string) =>
              Js.Resolve
                (mkOrderResponse true (Num.ofZ 201) "Created" EmptyString
                   (Some "https://api.schwabapi.com/trader/v1/accounts/HASH/orders/1004055538123"%string)))
           "HASH" tt "1004055538123").
  by_computation.
Defined.

(** A [Location] header that ends with a slash gives the empty order id,
    and one without slash is the order id. *)
Example orderId_edge_cases :
  orderIdOfLocation (Some "https://api.schwabapi.com/orders/"%string)
  = EmptyString
  /\ orderIdOfLocation (Some "12345"%string) = "12345"%string
  /\ orderIdOfLocation None = "unknown"%string.
Proof. repeat split; by_computation. Qed.

(* ===================================================================== *)
(** ** Facts about objects *)
(* ===================================================================== *)

Module ObjFacts.

Lemma distinct_In k (l : list string) : In k (Obj.distinct l) <-> In k l.
Proof.
  induction l as [|x l IH]; simpl; [tauto|].
  rewrite filter_In, IH. split.
  - intros [H|[H _]]; auto.
  - intros [H|H]; auto.
    destruct (String.eqb k x) eqn:E.
    + apply String.eqb_eq in E. auto.
    + right. split; [exact H | reflexivity].
Qed.

Lemma distinct_NoDup (l : list string) : NoDup l -> Obj.distinct l = l.
Proof.
  induction l as [|x l IH]; simpl; intros Hnd; [reflexivity|].
  inversion Hnd; subst. rewrite IH by assumption. f_equal.
  clear IH Hnd H2. induction l as [|y l IHl]; simpl; [reflexivity|].
  destruct (String.eqb y x) eqn:E.
  - apply String.eqb_eq in E. subst. exfalso. apply H1. left; reflexivity.
  - simpl. f_equal. apply IHl. intros H. apply H1. right; exact H.
Qed.

Lemma insertIndex_In x y l : In y (Obj.insertIndex x l) <-> y = x \/ In y l.
Proof.
  induction l as [|z l IH]; simpl.
  - split; intros [H|H]; auto.
  - destruct (fst x <=? fst z)%N; simpl; [split; intros [H|H]; auto|].
    rewrite IH. tauto.
Qed.

Lemma sortIndex_In y l : In y (Obj.sortIndex l) <-> In y l.
Proof.
  induction l as [|x l IH]; simpl; [tauto|].
  rewrite insertIndex_In, IH. split; intros [H|H]; auto.
Qed.

Lemma insertIndex_length x l :
  List.length (Obj.insertIndex x l) = S (List.length l).
Proof.
  induction l as [|z l IH]; simpl; [reflexivity|].
  destruct (fst x <=? fst z)%N; simpl; [reflexivity | rewrite IH; reflexivity].
Qed.

Lemma sortIndex_length l : List.length (Obj.sortIndex l) = List.length l.
Proof.
  induction l as [|x l IH]; simpl; [reflexivity|].
  rewrite insertIndex_length, IH. reflexivity.
Qed.

(** [Object.keys] lists the keys of the object. *)
Lemma keys_In V (o : Obj.t V) k : In k (Obj.keys o) <-> In k (JSMap.keys o).
Proof.
  unfold Obj.keys. rewrite in_app_iff, in_map_iff.
  rewrite <- (distinct_In k (JSMap.keys o)).
  generalize (Obj.distinct (JSMap.keys o)). intros ks. split.
  - intros [([n k'] & E & H)|H].
    + simpl in E. subst k'. rewrite sortIndex_In in H.
      unfold Obj.indexKeys in H. apply in_flat_map in H as (k0 & H0 & H).
      destruct (Obj.arrayIndex k0); [|destruct H].
      destruct H as [H|[]]. inversion H; subst. exact H0.
    + unfold Obj.nameKeys in H. apply filter_In in H. tauto.
  - intros H. destruct (Obj.arrayIndex k) as [n|] eqn:E.
    + left. exists (n, k). split; [reflexivity|]. apply sortIndex_In.
      unfold Obj.indexKeys. apply in_flat_map. exists k. split; [exact H|].
      rewrite E. left; reflexivity.
    + right. unfold Obj.nameKeys. apply filter_In. rewrite E. auto.
Qed.

(** [Object.keys] has one key per property. *)
Lemma keys_length V (o : Obj.t V) :
  List.length (Obj.keys o) = List.length (Obj.distinct (JSMap.keys o)).
Proof.
  unfold Obj.keys. rewrite length_app, length_map, sortIndex_length.
  generalize (Obj.distinct (JSMap.keys o)). intros ks.
  induction ks as [|k ks IH]; simpl; [reflexivity|].
  unfold Obj.indexKeys, Obj.nameKeys in *. simpl.
  destruct (Obj.arrayIndex k); simpl.
  - rewrite IH. reflexivity.
  - rewrite Nat.add_succ_r, IH. reflexivity.
Qed.

(** A key is listed exactly when the object has the property. *)
Lemma keys_get V (o : Obj.t V) k :
  In k (Obj.keys o) <-> exists v, Obj.get k o = Some v.
Proof.
  rewrite keys_In. unfold Obj.get. split.
  - intros H. destruct (JSMap.get k o) as [v|] eqn:E; [eauto|].
    apply JSMapFacts.get_None in E. tauto.
  - intros [v E] . destruct (in_dec string_dec k (JSMap.keys o)) as [H|H];
      [exact H|].
    apply JSMapFacts.get_None in H. congruence.
Qed.

(** The keys and the values of an object with one property. *)
Lemma keys_single V k (v : V) : Obj.keys [(k, v)] = [k].
Proof.
  unfold Obj.keys, Obj.indexKeys, Obj.nameKeys. simpl.
  destruct (Obj.arrayIndex k); reflexivity.
Qed.

Lemma values_single V k (v : V) : Obj.values [(k, v)] = [v].
Proof.
  unfold Obj.values. rewrite keys_single. simpl.
  unfold Obj.get. simpl. rewrite String.eqb_refl. reflexivity.
Qed.

End ObjFacts.

(* ===================================================================== *)
(** ** Request headers *)
(* ===================================================================== *)

Module HeaderFacts.

Lemma get_assignString k k' v (o : Obj.t string) :
  Obj.get k (Obj.assignString k' v o)
  = if String.eqb k k' && negb (String.eqb k' "__proto__") then Some v
    else Obj.get k o.
Proof.
  unfold Obj.assignString, Obj.get.
  destruct (String.eqb k' "__proto__"); simpl.
  - rewrite andb_false_r. reflexivity.
  - rewrite andb_true_r. destruct (String.eqb k k') eqn:E.
    + apply String.eqb_eq in E. subst. apply JSMapFacts.get_set_eq.
    + apply String.eqb_neq in E. apply JSMapFacts.get_set_ne. congruence.
Qed.

(** Copying the listed properties of [o] onto [acc]. *)
Lemma get_copy (o : Obj.t string) k (ks : list string) (acc : Obj.t string) :
  Obj.get k
    (fold_left (fun result k' =>
                  match Obj.get k' o with
                  | Some v => Obj.assignString k' v result
                  | None => result
                  end) ks acc)
  = if existsb (String.eqb k) ks && negb (String.eqb k "__proto__")
       && match Obj.get k o with Some _ => true | None => false end
    then Obj.get k o else Obj.get k acc.
Proof.
  revert acc. induction ks as [|k' ks IH]; intros acc; simpl; [reflexivity|].
  rewrite IH.
  destruct (existsb (String.eqb k) ks && negb (String.eqb k "__proto__")
            && match Obj.get k o with Some _ => true | None => false end)
    eqn:E.
  - apply andb_true_iff in E as [E E3]. apply andb_true_iff in E as [E1 E2].
    rewrite E1, E2, E3, orb_true_r. reflexivity.
  - destruct (String.eqb k k') eqn:Ek; simpl.
    + apply String.eqb_eq in Ek. subst k'.
      destruct (Obj.get k o) as [v|] eqn:Eg.
      * rewrite get_assignString, String.eqb_refl. simpl.
        destruct (String.eqb k "__proto__"); simpl; reflexivity.
      * rewrite andb_false_r. reflexivity.
    + rewrite E.
      destruct (Obj.get k' o) as [v|]; [|reflexivity].
      rewrite get_assignString, Ek. reflexivity.
Qed.

(** A record of headers goes through [headersToRecord] unchanged, but for
    a property named [__proto__]. *)
Lemma headersToRecord_record (o : Obj.t string) k :
  Obj.get k (headersToRecord (HeadersRecord o))
  = if String.eqb k "__proto__" then None else Obj.get k o.
Proof.
  unfold headersToRecord. rewrite get_copy.
  destruct (String.eqb k "__proto__"); simpl.
  - rewrite andb_false_r. reflexivity.
  - rewrite andb_true_r. destruct (Obj.get k o) as [v|] eqn:Eg.
    + assert (H : In k (Obj.keys o)) by (apply ObjFacts.keys_get; eauto).
      assert (E : existsb (String.eqb k) (Obj.keys o) = true).
      { apply existsb_exists. exists k. split; [exact H|].
        apply String.eqb_refl. }
      rewrite E. reflexivity.
    + rewrite andb_false_r. reflexivity.
Qed.

End HeaderFacts.

(** X7. The headers of a request: whatever record of headers the caller
    passes, the header Authorization is Bearer followed by the access
    token, and every other header of the record is sent with the value
    the caller gave it; a request without headers of the caller has the
    header Authorization alone. *)
Theorem request_headers_authorization accessToken (o : Obj.t string) :
  Obj.get "Authorization" (requestHeaders accessToken (HeadersRecord o))
  = Some ("Bearer " ++ accessToken)%string
  /\ (forall k,
         k <> "Authorization"%string -> k <> "__proto__"%string ->
         Obj.get k (requestHeaders accessToken (HeadersRecord o)) = Obj.get k o)
  /\ requestHeaders accessToken NoHeaders
     = [("Authorization"%string, ("Bearer " ++ accessToken)%string)].
Proof.
  split; [|split].
  - unfold requestHeaders, Obj.get. apply JSMapFacts.get_set_eq.
  - intros k Hk Hp. unfold requestHeaders.
    unfold Obj.get at 1. rewrite JSMapFacts.get_set_ne by congruence.
    fold (Obj.get k (headersToRecord (HeadersRecord o))).
    rewrite HeaderFacts.headersToRecord_record.
    apply String.eqb_neq in Hp. rewrite Hp. reflexivity.
  - reflexivity.
Qed.

(** A caller that passes its own Authorization header and a Content-Type:
    the first is replaced, the second kept. *)
Lemma request_headers_authorization_witness :
  let o : Obj.t string :=
    [("Authorization"%string, "Basic abc"%string);
     ("Content-Type"%string, "application/json"%string)] in
  Obj.get "Authorization" (requestHeaders "token" (HeadersRecord o))
  = Some ("Bearer " ++ "token")%string
  /\ Obj.get "Content-Type" (requestHeaders "token" (HeadersRecord o))
     = Obj.get "Content-Type" o.
Proof.
  cbv zeta.
  destruct (request_headers_authorization "token"
              [("Authorization"%string, "Basic abc"%string);
               ("Content-Type"%string, "application/json"%string)])
    as (H1 & H2 & _).
  split; [exact H1|]. apply H2; discriminate.
Defined.

(** X8. The endpoint of [getMovers]: the dollar sign of an index symbol is
    sent as %24; the query is left out only when neither sort nor
    frequency is given; a frequency of 0 is sent like any other. *)
Theorem getMovers_endpoint_table symbolId sort frequency :
  getMoversEndpoint symbolId sort frequency
  = ("/marketdata/v1/movers/"
     ++ match symbolId with
        | DJI => "%24DJI" | COMPX => "%24COMPX" | SPX => "%24SPX"
        | other => moversIndexSymbol other
        end
     ++ match sort, frequency with
        | None, None => EmptyString
        | Some s, None => "?sort=" ++ moversSort s
        | None, Some f => "?frequency=" ++ moversFrequency f
        | Some s, Some f =>
            "?sort=" ++ moversSort s ++ "&frequency=" ++ moversFrequency f
        end)%string.
Proof.
  destruct symbolId; destruct sort as [[]|]; destruct frequency as [[]|];
    by_computation.
Qed.

(* ===================================================================== *)
(** ** Quotes and balances *)
(* ===================================================================== *)

(** X9. The quote of [$IRX] decides: when the record has a property [$IRX],
    the other properties are not read, also when that quote has no usable
    price.  Its mark is used when it is a value, also when the mark is
    [NaN] and the last price is not; a mark that is missing or [null]
    leaves the last price.  The rate is the hundredth of the number read;
    it is 0 when what is read is the [null] of the last price, and the
    method rejects when the last price is missing too. *)
Theorem getRiskFreeRate_irx_priority (quotes : Obj.t SchwabQuoteResponse.t) q :
  Obj.get "$IRX" quotes = Some q ->
  getRiskFreeRate quotes
  = match SchwabQuoteData.mark (SchwabQuoteResponse.quote q),
          SchwabQuoteData.lastPrice (SchwabQuoteResponse.quote q) with
    | Js.Value m, _ =>
        if Js.isNaN m
        then Js.Reject "Unable to fetch risk-free rate from $IRX quote data"
        else Js.Resolve (Num.div m (Num.ofZ 100))
    | (Js.Undefined | Js.Null), Js.Value p =>
        if Js.isNaN p
        then Js.Reject "Unable to fetch risk-free rate from $IRX quote data"
        else Js.Resolve (Num.div p (Num.ofZ 100))
    | (Js.Undefined | Js.Null), Js.Null => Js.Resolve (Num.ofZ 0)
    | (Js.Undefined | Js.Null), Js.Undefined =>
        Js.Reject "Unable to fetch risk-free rate from $IRX quote data"
    end.
Proof.
  intros H. unfold getRiskFreeRate. rewrite H. cbn [Js.orElse].
  destruct (SchwabQuoteData.mark (SchwabQuoteResponse.quote q)) as [| |m];
    destruct (SchwabQuoteData.lastPrice (SchwabQuoteResponse.quote q))
      as [| |p];
    cbn [Js.coalesce Js.isUndefined Js.numberIsNaN Js.toNumber orb];
    try reflexivity;
    try (destruct (Js.isNaN m); reflexivity);
    try (destruct (Js.isNaN p); reflexivity).
Qed.

(** X10. The last resort of [getRiskFreeRate]: when the record has none of the
    properties [$IRX], [IRX] and [$IRX.X], its only quote is read if it
    has exactly one property, under whatever name, and the method rejects
    if it has none or several. *)
Theorem getRiskFreeRate_single_quote (quotes : Obj.t SchwabQuoteResponse.t) :
  NoDup (JSMap.keys quotes) ->
  Obj.get "$IRX" quotes = None ->
  Obj.get "IRX" quotes = None ->
  Obj.get "$IRX.X" quotes = None ->
  getRiskFreeRate quotes
  = match quotes with
    | [(_, q)] => getRiskFreeRate [("$IRX"%string, q)]
    | _ => Js.Reject "Unable to fetch risk-free rate from $IRX quote data"
    end.
Proof.
  intros Hnd H1 H2 H3. unfold getRiskFreeRate at 1.
  rewrite H1, H2, H3. cbn [Js.orElse].
  rewrite ObjFacts.keys_length, ObjFacts.distinct_NoDup by exact Hnd.
  unfold JSMap.keys. rewrite length_map.
  destruct quotes as [|[k q] [|e rest]]; simpl List.length.
  - reflexivity.
  - change (1 =? 1) with true. cbv iota.
    rewrite ObjFacts.values_single. unfold getRiskFreeRate, Obj.get.
    simpl JSMap.get. reflexivity.
  - reflexivity.
Qed.

(** A record with the quotes of [$IRX] and of [IRX]: the first decides,
    and with its mark missing and its last price [null] the rate is 0. *)
Lemma getRiskFreeRate_irx_priority_witness :
  getRiskFreeRate
    [("IRX"%string, QuoteSample.index "IRX" (Some (Num.ofZ 4)) None);
     ("$IRX"%string, QuoteSample.indexWith "$IRX" Js.Undefined Js.Null)]
  = Js.Resolve (Num.ofZ 0).
Proof.
  exact (getRiskFreeRate_irx_priority
           [("IRX"%string, QuoteSample.index "IRX" (Some (Num.ofZ 4)) None);
            ("$IRX"%string,
             QuoteSample.indexWith "$IRX" Js.Undefined Js.Null)]
           (QuoteSample.indexWith "$IRX" Js.Undefined Js.Null)
           eq_refl).
Defined.

(** The mark of 5.25 gives the rate 0.0525, whatever the last price; two
    [null]s give 0; a mark that is [null] next to a missing last price
    rejects. *)
Example getRiskFreeRate_samples :
  getRiskFreeRate
    [("$IRX"%string,
      QuoteSample.index "$IRX" (Some (Num.dec 525 2)) (Some (Num.ofZ 7)))]
  = Js.Resolve (Num.div (Num.dec 525 2) (Num.ofZ 100))
  /\ getRiskFreeRate
       [("$IRX"%string, QuoteSample.indexWith "$IRX" Js.Null Js.Null)]
     = Js.Resolve (Num.ofZ 0)
  /\ getRiskFreeRate
       [("$IRX"%string, QuoteSample.indexWith "$IRX" Js.Null Js.Undefined)]
     = Js.Reject "Unable to fetch risk-free rate from $IRX quote data".
Proof. repeat split; by_computation. Qed.

(** A record whose only quote is filed under another name. *)
Lemma getRiskFreeRate_single_quote_witness :
  getRiskFreeRate
    [("$IRX:IND"%string, QuoteSample.index "$IRX:IND" None (Some (Num.ofZ 5)))]
  = getRiskFreeRate
      [("$IRX"%string, QuoteSample.index "$IRX:IND" None (Some (Num.ofZ 5)))].
Proof.
  apply (getRiskFreeRate_single_quote
           [("$IRX:IND"%string,
             QuoteSample.index "$IRX:IND" None (Some (Num.ofZ 5)))]).
  - repeat constructor. simpl. tauto.
  - reflexivity.
  - reflexivity.
  - reflexivity.
Defined.

(** X11. The equity that [getAccountEquity] resolves to is the liquidation
    value among the balances that [getAccountBalances] resolves to, the
    two reject on the same account lists, namely the empty one, and
    neither reads an account after the first. *)
Theorem account_equity_matches_balances (accounts : list SchwabAccount.t) :
  getAccountEquity accounts
  = match getAccountBalances accounts with
    | Js.Resolve balances => Js.Resolve (Balances.liquidationValue balances)
    | Js.Reject message => Js.Reject message
    end
  /\ ((exists message, getAccountBalances accounts = Js.Reject message)
      <-> accounts = [])
  /\ (forall account rest,
         accounts = account :: rest ->
         getAccountBalances accounts
         = Js.Resolve (SecuritiesAccount.currentBalances
                         (SchwabAccount.securitiesAccount account))).
Proof.
  destruct accounts as [|account rest]; simpl.
  - split; [reflexivity|]. split; [|discriminate].
    split; [reflexivity|]. intros _. eexists. reflexivity.
  - split; [reflexivity|]. split.
    + split; [intros [m H]; discriminate|discriminate].
    + intros a r E. inversion E; subst. f_equal.
      destruct (SecuritiesAccount.currentBalances
                  (SchwabAccount.securitiesAccount a)).
      reflexivity.
Qed.

(* ===================================================================== *)
(** ** Positions *)
(* ===================================================================== *)

Module PositionFacts.

Lemma allPositions_flat (accounts : list SchwabAccount.t) :
  fold_left
    (fun allPositions account =>
       allPositions
       ++ SecuritiesAccount.positions (SchwabAccount.securitiesAccount account))
    accounts []
  = allPositionsOf accounts.
Proof.
  rewrite (ListFacts.fold_left_push
             (fun allPositions account =>
                allPositions
                ++ SecuritiesAccount.positions
                     (SchwabAccount.securitiesAccount account))
             positionsOf); reflexivity.
Qed.

Lemma In_allPositions accounts account p :
  In account accounts -> In p (positionsOf account) ->
  In p (allPositionsOf accounts).
Proof.
  intros Ha Hp. unfold allPositionsOf. apply in_flat_map. eauto.
Qed.

(** A position whose underlying is [symbol] is among those that
    [getPositions] returns for [symbol]. *)
Lemma getPositions_underlying toUpperCase accounts symbol p :
  In p (allPositionsOf accounts) ->
  Instrument.underlyingSymbol (SchwabPosition.instrument p) = Some symbol ->
  In p (getPositions toUpperCase accounts (Some symbol)).
Proof.
  intros Hin Hu. unfold getPositions. rewrite allPositions_flat.
  destruct (Js.truthyString symbol); [|exact Hin].
  apply filter_In. split; [exact Hin|].
  unfold positionMatches. rewrite Hu. simpl.
  rewrite String.eqb_refl. apply orb_true_r.
Qed.

End PositionFacts.

(** X12. Without a symbol, or with the empty one, [getPositions] returns the
    positions of all accounts, account after account and each account in
    its own order, duplicates included. *)
Theorem getPositions_without_symbol toUpperCase accounts :
  getPositions toUpperCase accounts None = allPositionsOf accounts
  /\ getPositions toUpperCase accounts (Some EmptyString)
     = allPositionsOf accounts.
Proof.
  unfold getPositions. rewrite PositionFacts.allPositions_flat.
  split; reflexivity.
Qed.

(** X13. With a symbol that is not empty, [getPositions] returns exactly the
    positions of the accounts whose instrument symbol starts with the
    symbol or whose underlying symbol is the symbol, both compared in
    upper case: a position without underlying symbol is found by the
    prefix of its symbol alone. *)
Theorem getPositions_membership toUpperCase accounts symbol p :
  symbol <> EmptyString ->
  (In p (getPositions toUpperCase accounts (Some symbol))
   <-> (exists account, In account accounts /\ In p (positionsOf account))
       /\ (Js.startsWith
             (toUpperCase (Instrument.symbol (SchwabPosition.instrument p)))
             (toUpperCase symbol) = true
           \/ exists u,
               Instrument.underlyingSymbol (SchwabPosition.instrument p)
               = Some u
               /\ toUpperCase u = toUpperCase symbol)).
Proof.
  intros Hne. unfold getPositions. rewrite PositionFacts.allPositions_flat.
  assert (T : Js.truthyString symbol = true)
    by (destruct symbol; [congruence|reflexivity]).
  rewrite T. rewrite filter_In. unfold allPositionsOf. rewrite in_flat_map.
  unfold positionMatches.
  destruct (Instrument.underlyingSymbol (SchwabPosition.instrument p))
    as [u|]; simpl.
  - rewrite orb_true_iff, String.eqb_eq. split.
    + intros [H [H1|H1]]; (split; [exact H|]); [left; exact H1|].
      right. exists u. split; [reflexivity|exact H1].
    + intros [H [H1|(u' & E & H1)]]; (split; [exact H|]); [left; exact H1|].
      right. inversion E; subst. exact H1.
  - rewrite orb_false_r. split.
    + intros [H H1]. split; [exact H|]. left; exact H1.
    + intros [H [H1|(u' & E & _)]]; [|discriminate].
      split; [exact H|exact H1].
Qed.

(** The lower-case symbol spx finds the position filed under SPX. *)
Lemma getPositions_membership_witness :
  In Sample.short5900
     (getPositions asciiUpperCase
        [Sample.account [Sample.equity; Sample.short5900]] (Some "spx"%string)).
Proof.
  apply (getPositions_membership asciiUpperCase
           [Sample.account [Sample.equity; Sample.short5900]] "spx"
           Sample.short5900).
  - discriminate.
  - split.
    + exists (Sample.account [Sample.equity; Sample.short5900]).
      split; [left; reflexivity|right; left; reflexivity].
    + left. reflexivity.
Defined.

(** X14. The two functions agree on what belongs to a symbol: every
    spread that [getPutCreditSpreads] returns for [symbol] is built from
    two positions that [getPositions] returns for [symbol] on the same
    account list, whatever the conversion to upper case does: the spread
    is the record that the loops push for the two positions, with the
    strikes decoded from their symbols. *)
Theorem positions_contain_spread_legs toUpperCase accounts symbol sp :
  In sp (getPutCreditSpreads accounts symbol) ->
  exists expiryKey shortPut shortStrike longPut longStrike,
    In shortPut (getPositions toUpperCase accounts (Some symbol))
    /\ In longPut (getPositions toUpperCase accounts (Some symbol))
    /\ strikeOf (fun p => p) shortPut = Some shortStrike
    /\ strikeOf (fun p => p) longPut = Some longStrike
    /\ sp = makeSpread (fun p => p) symbol expiryKey
                       shortPut shortStrike longPut longStrike.
Proof.
  intros H. rewrite OutputFacts.output_spreadLegs in H.
  apply in_map_iff in H as ([[k s] l] & <- & H).
  apply OutputFacts.spreadLegs_inv in H
    as (account & ms & ml & Ha & Hl & Ps & Pl & Ls & Ll & _ & _ & _ & _
        & Ss & Sl & _).
  apply nth_error_In in Ha, Ps, Pl.
  exists k, (legPos s), (strikeOfMatch ms), (legPos l), (strikeOfMatch ml).
  destruct Ls as (_ & Us & _). destruct Ll as (_ & Ul & _).
  split; [|split; [|split; [exact Ss|split; [exact Sl|]]]].
  - apply PositionFacts.getPositions_underlying;
      eauto using PositionFacts.In_allPositions.
  - apply PositionFacts.getPositions_underlying;
      eauto using PositionFacts.In_allPositions.
  - unfold spreadOfLegs, strikeOrNaN. rewrite Ss, Sl. reflexivity.
Qed.

(** The spread of the account that holds the short put at 5900 and the
    long put at 5800. *)
Lemma positions_contain_spread_legs_witness :
  let accounts := [Sample.account [Sample.short5900; Sample.long5800]] in
  exists expiryKey shortPut shortStrike longPut longStrike,
    In shortPut (getPositions asciiUpperCase accounts (Some "SPX"%string))
    /\ In longPut (getPositions asciiUpperCase accounts (Some "SPX"%string))
    /\ strikeOf (fun p => p) shortPut = Some shortStrike
    /\ strikeOf (fun p => p) longPut = Some longStrike
    /\ PutCreditSpread.mk "SPX"
         (LocalDate.mk (Num.ofZ 2024) (Num.ofZ 11) (Num.ofZ 20))
         (Num.ofZ 5900) (Num.ofZ 5800) (Num.dec 550 2) (Num.ofZ 1)
         (Num.dec 9450 2)
       = makeSpread (fun p => p) "SPX" expiryKey
                    shortPut shortStrike longPut longStrike.
Proof.
  cbv zeta.
  apply (positions_contain_spread_legs asciiUpperCase
           [Sample.account [Sample.short5900; Sample.long5800]] "SPX").
  vm_compute. left. reflexivity.
Defined.

(* ===================================================================== *)
(** ** Option chains *)
(* ===================================================================== *)

Module ChainFacts.

Lemma push_each {X Y} (f : X -> Y) (l : list X) (acc : list Y) :
  fold_left (fun options x => options ++ [f x]) l acc = acc ++ map f l.
Proof.
  revert acc. induction l as [|x l IH]; intros acc; simpl.
  - rewrite app_nil_r. reflexivity.
  - rewrite IH, <- app_assoc. reflexivity.
Qed.

(** The three nested loops push the quotes of the contracts of the map,
    in the order of [contractsOf]. *)
Lemma processExpDateMap_flat m isCall options :
  processExpDateMap m isCall options
  = options ++ map (quoteOfContract isCall) (contractsOf m).
Proof.
  destruct m as [m|]; simpl; [|rewrite app_nil_r; reflexivity].
  rewrite (ListFacts.fold_left_push _
             (fun dateKey =>
                match Obj.get dateKey m with
                | None => []
                | Some strikeMap =>
                    flat_map
                      (fun strikeKey =>
                         match Obj.get strikeKey strikeMap with
                         | None => []
                         | Some contracts =>
                             map (quoteOfContract isCall) contracts
                         end)
                      (Obj.keys strikeMap)
                end)).
  - f_equal. induction (Obj.keys m) as [|dateKey ks IH]; simpl;
      [reflexivity|].
    rewrite map_app, IH. f_equal.
    destruct (Obj.get dateKey m) as [strikeMap|]; [|reflexivity].
    induction (Obj.keys strikeMap) as [|strikeKey ks' IH']; simpl;
      [reflexivity|].
    rewrite map_app, IH'. f_equal.
    destruct (Obj.get strikeKey strikeMap); reflexivity.
  - intros acc dateKey.
    destruct (Obj.get dateKey m) as [strikeMap|];
      [|rewrite app_nil_r; reflexivity].
    apply ListFacts.fold_left_push. intros acc' strikeKey.
    destruct (Obj.get strikeKey strikeMap) as [contracts|];
      [apply push_each|rewrite app_nil_r; reflexivity].
Qed.

Lemma getOptionChain_flat data :
  getOptionChain data
  = map (quoteOfContract true)
        (contractsOf (SchwabOptionChainResponse.callExpDateMap data))
    ++ map (quoteOfContract false)
           (contractsOf (SchwabOptionChainResponse.putExpDateMap data)).
Proof.
  unfold getOptionChain. rewrite !processExpDateMap_flat. reflexivity.
Qed.

Lemma contractsOf_In m c : In c (contractsOf m) <-> listedIn m c.
Proof.
  unfold listedIn. destruct m as [m|]; simpl.
  - rewrite in_flat_map. split.
    + intros (dateKey & Hk & H).
      destruct (Obj.get dateKey m) as [strikeMap|] eqn:Ed; [|destruct H].
      apply in_flat_map in H as (strikeKey & Hk' & H).
      destruct (Obj.get strikeKey strikeMap) as [contracts|] eqn:Es;
        [|destruct H].
      exists m, dateKey, strikeMap, strikeKey, contracts. auto.
    + intros (m' & dateKey & strikeMap & strikeKey & contracts
              & E & Ed & Es & H).
      inversion E; subst m'. exists dateKey. split.
      * apply ObjFacts.keys_get. eauto.
      * rewrite Ed. apply in_flat_map. exists strikeKey. split.
        -- apply ObjFacts.keys_get. eauto.
        -- rewrite Es. exact H.
  - split; [intros []|].
    intros (m' & _ & _ & _ & _ & E & _). discriminate.
Qed.

Lemma find_app {X} (f : X -> bool) (l1 l2 : list X) :
  find f (l1 ++ l2)
  = match find f l1 with Some x => Some x | None => find f l2 end.
Proof.
  induction l1 as [|x l1 IH]; simpl; [reflexivity|].
  destruct (f x); [reflexivity|exact IH].
Qed.

Lemma find_all_false {X} (f : X -> bool) (l : list X) :
  (forall x, In x l -> f x = false) -> find f l = None.
Proof.
  induction l as [|x l IH]; simpl; intros H; [reflexivity|].
  rewrite (H x) by (left; reflexivity). apply IH. intros y Hy. apply H.
  right. exact Hy.
Qed.

Lemma orElse_None {T} (o : option T) : Js.orElse o None = o.
Proof. destruct o; reflexivity. Qed.

(** The test of [getOptionQuote]. *)
Lemma getOptionQuote_find data strike type :
  getOptionQuote data strike type
  = find (fun o =>
            Js.strictEq (OptionQuote.strike o) strike
            && Bool.eqb (OptionQuote.isCall o)
                        match type with TypeCall => true | TypePut => false end)
         (getOptionChain data).
Proof. unfold getOptionQuote. apply orElse_None. Qed.

(** A lookup on one side goes through the quotes of that side alone. *)
Lemma getOptionQuote_side data strike type :
  getOptionQuote data strike type
  = find (fun o => Js.strictEq (OptionQuote.strike o) strike)
         (map (quoteOfContract
                 match type with TypeCall => true | TypePut => false end)
              (contractsOf
                 match type with
                 | TypeCall => SchwabOptionChainResponse.callExpDateMap data
                 | TypePut => SchwabOptionChainResponse.putExpDateMap data
                 end)).
Proof.
  rewrite getOptionQuote_find, getOptionChain_flat, find_app.
  assert (Same : forall b l,
             find (fun o => Js.strictEq (OptionQuote.strike o) strike
                            && Bool.eqb (OptionQuote.isCall o) b)
                  (map (quoteOfContract b) l)
             = find (fun o => Js.strictEq (OptionQuote.strike o) strike)
                    (map (quoteOfContract b) l)).
  { intros b l. induction l as [|c l IH]; simpl; [reflexivity|].
    rewrite Bool.eqb_reflx, andb_true_r, IH. reflexivity. }
  assert (Other : forall b l,
             find (fun o => Js.strictEq (OptionQuote.strike o) strike
                            && Bool.eqb (OptionQuote.isCall o) (negb b))
                  (map (quoteOfContract b) l) = None).
  { intros b l. apply find_all_false. intros x Hx.
    apply in_map_iff in Hx as (c & <- & _). simpl.
    destruct b; apply andb_false_r. }
  destruct type.
  - rewrite (Same true), (Other false).
    destruct (find _ _); reflexivity.
  - rewrite (Other true), (Same false). reflexivity.
Qed.

End ChainFacts.

(** X15. The chain that [getOptionChain] returns holds one quote for each
    contract that the call map or the put map of the response lists under
    some date and some strike, and nothing else; a contract of the call
    map is quoted as a call and one of the put map as a put, whatever its
    own [putCall] field says. *)
Theorem option_chain_membership data q :
  In q (getOptionChain data)
  <-> (exists c,
          listedIn (SchwabOptionChainResponse.callExpDateMap data) c
          /\ q = quoteOfContract true c)
      \/ (exists c,
             listedIn (SchwabOptionChainResponse.putExpDateMap data) c
             /\ q = quoteOfContract false c).
Proof.
  rewrite ChainFacts.getOptionChain_flat, in_app_iff, !in_map_iff.
  split; (intros [(c & H1 & H2)|(c & H1 & H2)]; [left|right]; exists c).
  - apply ChainFacts.contractsOf_In in H2. auto.
  - apply ChainFacts.contractsOf_In in H2. auto.
  - apply ChainFacts.contractsOf_In in H1. auto.
  - apply ChainFacts.contractsOf_In in H1. auto.
Qed.

(** X16. In the chain all calls come before all puts: the flags [isCall] of
    the chain are as many times true as the call map has contracts,
    followed by as many times false as the put map has. *)
Theorem option_chain_calls_first data :
  map OptionQuote.isCall (getOptionChain data)
  = repeat true
      (List.length
         (contractsOf (SchwabOptionChainResponse.callExpDateMap data)))
    ++ repeat false
         (List.length
            (contractsOf (SchwabOptionChainResponse.putExpDateMap data))).
Proof.
  rewrite ChainFacts.getOptionChain_flat, map_app, !map_map.
  assert (R : forall b l,
             map (fun c => OptionQuote.isCall (quoteOfContract b c)) l
             = repeat b (List.length l)).
  { intros b l. induction l as [|c l IH]; [reflexivity|].
    change (b :: map (fun c => OptionQuote.isCall (quoteOfContract b c)) l
            = b :: repeat b (List.length l)).
    f_equal. exact IH. }
  rewrite !R. reflexivity.
Qed.

(** X17. No quote of the chain carries a bid or an ask that is zero, negative
    or [NaN]: such a price is replaced by null. *)
Theorem option_chain_prices_positive data :
  Forall (fun q =>
            match OptionQuote.bid q with
            | Some bid =>
                Num.gtb bid (Num.ofZ 0) = true /\ Js.isNaN bid = false
            | None => True
            end
            /\ match OptionQuote.ask q with
               | Some ask =>
                   Num.gtb ask (Num.ofZ 0) = true /\ Js.isNaN ask = false
               | None => True
               end)
         (getOptionChain data).
Proof.
  assert (P : forall x, Num.gtb x (Num.ofZ 0) = true -> Js.isNaN x = false).
  { intros x. destruct x; simpl; try reflexivity. discriminate. }
  apply Forall_forall. intros q Hq.
  rewrite ChainFacts.getOptionChain_flat, in_app_iff, !in_map_iff in Hq.
  assert (Q : forall x,
             match (if Num.gtb x (Num.ofZ 0) then Some x else None) with
             | Some y => Num.gtb y (Num.ofZ 0) = true /\ Js.isNaN y = false
             | None => True
             end).
  { intros x. destruct (Num.gtb x (Num.ofZ 0)) eqn:E; auto. }
  destruct Hq as [(c & <- & _)|(c & <- & _)];
    (split; [exact (Q (SchwabOptionContract.bid c))
            |exact (Q (SchwabOptionContract.ask c))]).
Qed.

(** X18. What [getOptionQuote] returns is a quote of the chain, of the side
    asked for, whose strike equals the strike asked for, and it is the
    first such quote of the chain. *)
Theorem getOptionQuote_sound data strike type q :
  getOptionQuote data strike type = Some q ->
  exists before after,
    getOptionChain data = before ++ q :: after
    /\ Js.strictEq (OptionQuote.strike q) strike = true
    /\ OptionQuote.isCall q
       = match type with TypeCall => true | TypePut => false end
    /\ Forall (fun o =>
                 Js.strictEq (OptionQuote.strike o) strike = false
                 \/ OptionQuote.isCall o <> OptionQuote.isCall q)
              before.
Proof.
  rewrite ChainFacts.getOptionQuote_find.
  generalize (getOptionChain data). intros chain.
  induction chain as [|o chain IH]; simpl; [discriminate|].
  destruct (Js.strictEq (OptionQuote.strike o) strike
            && Bool.eqb (OptionQuote.isCall o)
                 match type with TypeCall => true | TypePut => false end)
    eqn:E.
  - intros H. inversion H; subst o. exists [], chain.
    apply andb_true_iff in E as [E1 E2]. apply Bool.eqb_prop in E2.
    repeat split; auto.
  - intros H. destruct (IH H) as (before & after & E1 & E2 & E3 & E4).
    exists (o :: before), after. rewrite E1. repeat split; auto.
    constructor; [|exact E4].
    apply andb_false_iff in E as [E|E]; [left; exact E|right].
    rewrite E3. apply Bool.eqb_false_iff. exact E.
Qed.

(** The put at 5900 of the sample chain, which comes after the call at
    the same strike. *)
Lemma getOptionQuote_sound_witness :
  exists before after,
    getOptionChain QuoteSample.chain
    = before
      ++ quoteOfContract false
           (QuoteSample.contract PUT "SPXW  241220P05900000" (Num.ofZ 5900)
                                 (Num.ofZ 12) (Num.ofZ 13))
      :: after
    /\ Js.strictEq (Num.ofZ 5900) (Num.ofZ 5900) = true
    /\ false = false
    /\ Forall (fun o =>
                 Js.strictEq (OptionQuote.strike o) (Num.ofZ 5900) = false
                 \/ OptionQuote.isCall o <> false)
              before.
Proof.
  exact (getOptionQuote_sound QuoteSample.chain (Num.ofZ 5900) TypePut
           (quoteOfContract false
              (QuoteSample.contract PUT "SPXW  241220P05900000"
                                    (Num.ofZ 5900) (Num.ofZ 12)
                                    (Num.ofZ 13)))
           eq_refl).
Defined.

(** X19. [getOptionQuote] returns null exactly when no quote of the chain has
    the side and the strike asked for; with [NaN] for the strike it
    returns null on every chain. *)
Theorem getOptionQuote_null data strike type :
  (getOptionQuote data strike type = None
   <-> forall q,
       In q (getOptionChain data) ->
       OptionQuote.isCall q
       = match type with TypeCall => true | TypePut => false end ->
       Js.strictEq (OptionQuote.strike q) strike = false)
  /\ getOptionQuote data Num.NaN type = None.
Proof.
  rewrite !ChainFacts.getOptionQuote_find. split.
  - split.
    + intros H q Hq Hc.
      pose proof (find_none _ _ H q Hq) as N. simpl in N.
      rewrite Hc, Bool.eqb_reflx, andb_true_r in N. exact N.
    + intros H. apply ChainFacts.find_all_false. intros q Hq.
      destruct (Bool.eqb (OptionQuote.isCall q)
                  match type with TypeCall => true | TypePut => false end)
        eqn:E; [|apply andb_false_r].
      apply Bool.eqb_prop in E. rewrite (H q Hq E). reflexivity.
  - apply ChainFacts.find_all_false. intros q _.
    assert (N : Js.strictEq (OptionQuote.strike q) Num.NaN = false)
      by (destruct (OptionQuote.strike q) as [| | |[] ? ?]; reflexivity).
    rewrite N. reflexivity.
Qed.

(** X20. A lookup reads its own side of the response only: two responses with
    the same put map answer every put lookup alike, whatever their call
    maps hold, and likewise for calls. *)
Theorem getOptionQuote_reads_its_side data data' strike type :
  match type with
  | TypeCall => SchwabOptionChainResponse.callExpDateMap data
                = SchwabOptionChainResponse.callExpDateMap data'
  | TypePut => SchwabOptionChainResponse.putExpDateMap data
               = SchwabOptionChainResponse.putExpDateMap data'
  end ->
  getOptionQuote data strike type = getOptionQuote data' strike type.
Proof.
  intros H. rewrite !ChainFacts.getOptionQuote_side.
  destruct type; rewrite H; reflexivity.
Qed.

(** The sample chain and the same chain without its calls. *)
Lemma getOptionQuote_reads_its_side_witness :
  getOptionQuote QuoteSample.chain (Num.ofZ 5900) TypePut
  = getOptionQuote
      {| SchwabOptionChainResponse.symbol := "SPX";
         SchwabOptionChainResponse.status := "SUCCESS";
         SchwabOptionChainResponse.underlying := None;
         SchwabOptionChainResponse.putExpDateMap :=
           SchwabOptionChainResponse.putExpDateMap QuoteSample.chain;
         SchwabOptionChainResponse.callExpDateMap := None |}
      (Num.ofZ 5900) TypePut.
Proof.
  apply (getOptionQuote_reads_its_side QuoteSample.chain
           {| SchwabOptionChainResponse.symbol := "SPX";
              SchwabOptionChainResponse.status := "SUCCESS";
              SchwabOptionChainResponse.underlying := None;
              SchwabOptionChainResponse.putExpDateMap :=
                SchwabOptionChainResponse.putExpDateMap QuoteSample.chain;
              SchwabOptionChainResponse.callExpDateMap := None |}
           (Num.ofZ 5900) TypePut).
  reflexivity.
Defined.

(* ===================================================================== *)
(** ** Price history *)
(* ===================================================================== *)

Module PeriodFacts.

Lemma fewer_months (effectiveDays : number) (months fewer : Z) :
  In fewer [1; 2; 3]%Z -> (fewer < months)%Z ->
  (1 < months -> Num.leb effectiveDays (Num.ofZ 22) = false)%Z ->
  (2 < months -> Num.leb effectiveDays (Num.ofZ 44) = false)%Z ->
  (3 < months -> Num.leb effectiveDays (Num.ofZ 66) = false)%Z ->
  Num.leb effectiveDays (Num.ofZ (22 * fewer)) = false.
Proof.
  intros [<-|[<-|[<-|[]]]] Hlt H1 H2 H3;
    [apply H1|apply H2|apply H3]; exact Hlt.
Qed.

End PeriodFacts.

(** X21. The period that [getPriceHistory] asks for: one year when more than
    132 days are wanted; otherwise the smallest of 1, 2, 3 and 6 months
    that covers the days at 22 days a month, and 6 months when the number
    of days is [NaN]. *)
Theorem priceHistoryPeriod_covers (effectiveDays : number) :
  (Num.gtb effectiveDays (Num.ofZ 132) = true
   /\ priceHistoryPeriod effectiveDays = ("year"%string, Num.ofZ 1))
  \/ (Num.gtb effectiveDays (Num.ofZ 132) = false
      /\ exists months,
          In months [1; 2; 3; 6]%Z
          /\ priceHistoryPeriod effectiveDays
             = ("month"%string, Num.ofZ months)
          /\ (Js.isNaN effectiveDays = false ->
              Num.leb effectiveDays (Num.ofZ (22 * months)) = true)
          /\ (Js.isNaN effectiveDays = true -> months = 6%Z)
          /\ (forall fewer,
                 In fewer [1; 2; 3]%Z -> (fewer < months)%Z ->
                 Num.leb effectiveDays (Num.ofZ (22 * fewer)) = false)).
Proof.
  unfold priceHistoryPeriod.
  destruct (Num.gtb effectiveDays (Num.ofZ 132)) eqn:G;
    [left; split; reflexivity|right; split; [reflexivity|]].
  assert (N : forall k, Js.isNaN effectiveDays = true ->
                        Num.leb effectiveDays (Num.ofZ k) = false).
  { intros k H. destruct effectiveDays; try discriminate. reflexivity. }
  destruct (Num.leb effectiveDays (Num.ofZ 22)) eqn:L1;
    [|destruct (Num.leb effectiveDays (Num.ofZ 44)) eqn:L2;
      [|destruct (Num.leb effectiveDays (Num.ofZ 66)) eqn:L3]].
  - exists 1%Z. split; [simpl; tauto|]. split; [reflexivity|].
    split; [intros _; exact L1|]. split.
    + intros H. rewrite (N 22%Z H) in L1. discriminate.
    + intros fewer Hin Hlt. apply (PeriodFacts.fewer_months effectiveDays 1%Z fewer Hin Hlt); intros; lia.
  - exists 2%Z. split; [simpl; tauto|]. split; [reflexivity|].
    split; [intros _; exact L2|]. split.
    + intros H. rewrite (N 44%Z H) in L2. discriminate.
    + intros fewer Hin Hlt. apply (PeriodFacts.fewer_months effectiveDays 2%Z fewer Hin Hlt); intros;
        [exact L1|lia|lia].
  - exists 3%Z. split; [simpl; tauto|]. split; [reflexivity|].
    split; [intros _; exact L3|]. split.
    + intros H. rewrite (N 66%Z H) in L3. discriminate.
    + intros fewer Hin Hlt. apply (PeriodFacts.fewer_months effectiveDays 3%Z fewer Hin Hlt); intros;
        [exact L1|exact L2|lia].
  - exists 6%Z. split; [simpl; tauto|]. split; [reflexivity|].
    split; [|split; [reflexivity|]].
    + intros H. apply (OrderFacts.not_gtb_leb effectiveDays (Num.ofZ 132) H);
        [reflexivity|exact G].
    + intros fewer Hin Hlt. apply (PeriodFacts.fewer_months effectiveDays 6%Z fewer Hin Hlt); intros;
        [exact L1|exact L2|exact L3].
Qed.

(** X22. A start date that is 0 or [NaN] counts as no start date: it is not
    sent, and the days are not counted from it. *)
Theorem getPriceHistory_start_date differenceInDays numberToString
        now symbol days startDate endDate :
  Js.truthyNumber startDate = false ->
  getPriceHistoryParams differenceInDays numberToString now symbol days
                        (Some startDate) endDate
  = getPriceHistoryParams differenceInDays numberToString now symbol days
                          None endDate.
Proof.
  intros H. unfold getPriceHistoryParams, effectiveDaysOf. rewrite H.
  reflexivity.
Qed.

(** The start date 0, the first millisecond of 1970. *)
Lemma getPriceHistory_start_date_witness :
  getPriceHistoryParams (fun _ _ => Num.ofZ 400) (fun _ => "n"%string)
                        (Num.ofZ 1700000000000) "SPY" None
                        (Some (Num.ofZ 0)) None
  = getPriceHistoryParams (fun _ _ => Num.ofZ 400) (fun _ => "n"%string)
                          (Num.ofZ 1700000000000) "SPY" None None None.
Proof.
  apply (getPriceHistory_start_date
           (fun _ _ => Num.ofZ 400) (fun _ => "n"%string)
           (Num.ofZ 1700000000000) "SPY" None (Num.ofZ 0) None).
  reflexivity.
Defined.

(* ===================================================================== *)
(** ** Requests end to end *)
(* ===================================================================== *)

Module RequestFacts.

(** The URL of an endpoint that starts with a slash. *)
Lemma requestUrl_slash (rest : string) :
  requestUrl ("/" ++ rest) = (SCHWAB_API_BASE_URL ++ "/" ++ rest)%string.
Proof.
  unfold requestUrl.
  assert (P : Js.startsWith ("/" ++ rest) "/" = true)
    by (unfold Js.startsWith; simpl; destruct rest; reflexivity).
  assert (E : Js.sliceFrom ("/" ++ rest) 1 = rest).
  { unfold Js.sliceFrom. simpl. rewrite Nat.sub_0_r.
    apply EndpointFacts.substring_all. }
  rewrite P, E. reflexivity.
Qed.

End RequestFacts.

(** X23. [getQuotes] end to end: when it resolves to a body, [fetch] was
    called on the base URL followed by the quotes path and the encoded
    symbols joined by commas, with Authorization as the only header; the
    response was ok and the body is what its [json()] resolved to.  A
    response that is not ok never resolves. *)
Theorem getQuotes_request {T : Type} accessToken
        (fetch : string -> Obj.t string -> Js.Outcome (Response.t T))
        (symbols : list string) (body : T) :
  getQuotes accessToken fetch symbols = Js.Resolve body ->
  exists response,
    fetch (SCHWAB_API_BASE_URL ++ "/marketdata/v1/quotes?symbols="
           ++ Js.join "," (map Js.encodeURIComponent symbols))%string
          [("Authorization"%string, ("Bearer " ++ accessToken)%string)]
    = Js.Resolve response
    /\ Response.ok response = true
    /\ Response.json response = Js.Resolve body.
Proof.
  unfold getQuotes, makeApiRequest, getQuotesEndpoint.
  change ("/marketdata/v1/quotes?symbols="
          ++ Js.join "," (map Js.encodeURIComponent symbols))%string
    with ("/" ++ ("marketdata/v1/quotes?symbols="
                  ++ Js.join "," (map Js.encodeURIComponent symbols)))%string.
  rewrite RequestFacts.requestUrl_slash.
  change (requestHeaders accessToken NoHeaders)
    with [("Authorization"%string, ("Bearer " ++ accessToken)%string)].
  intros H.
  match type of H with
  | match ?f with _ => _ end = _ =>
      destruct f as [response|message] eqn:Ef; [|discriminate]
  end.
  exists response. split; [reflexivity|].
  destruct (Response.ok response); simpl in H.
  - split; [reflexivity|exact H].
  - match type of H with
    | (if ?c then _ else _) = _ => destruct c; discriminate
    end.
Qed.

(** A server that answers every request with the status 200 and the body
    7. *)
Lemma getQuotes_request_witness :
  exists response,
    (fun (url : string) (headers : Obj.t string) =>
       Js.Resolve (Response.mk nat true (Num.ofZ 200) "OK" (Js.Resolve 7)))
      (SCHWAB_API_BASE_URL ++ "/marketdata/v1/quotes?symbols="
       ++ Js.join "," (map Js.encodeURIComponent ["$VIX"%string]))%string
      [("Authorization"%string, ("Bearer " ++ "token")%string)]
    = Js.Resolve response
    /\ Response.ok response = true
    /\ Response.json response = Js.Resolve 7.
Proof.
  apply (getQuotes_request "token"
           (fun (url : string) (headers : Obj.t string) =>
              Js.Resolve
                (Response.mk nat true (Num.ofZ 200) "OK" (Js.Resolve 7)))
           ["$VIX"%string] 7).
  reflexivity.
Defined.
